(** * rhasspyasr_kaldi_hermes: session manager of the Kaldi ASR Hermes service

    Shallow embedding of [rhasspyasr_kaldi_hermes/__init__.py]:
    the [TranscriberInfo] objects, the session registry and the pool of free
    transcribers of [AsrHermesMqtt], the worker thread body [transcribe_proc],
    the handlers [start_listening], [stop_listening], [handle_audio_frame],
    [finish_session], and the dictionary merge of [handle_train].

    Conventions.
    - Python objects that are shared and mutated ([TranscriberInfo]) live in a
      heap (a list indexed by references); the registry and the pool hold
      references, so aliasing is what it is in the source.
    - A generator that yields messages and may raise is a function returning
      the yielded messages, the new state and the exception, if any.
    - The recognizer and the silence detector are interfaces of other
      packages: they are type classes, and the general theorems hold for
      every implementation of them. Module [Demo] has a small implementation
      of each, on which the service is run on concrete inputs.
    - The worker threads run concurrently with the handlers. A worker is a
      step function on its own [TranscriberInfo]; the handlers take, for each
      wait on a result event, the number of steps the worker makes before
      the wait times out.
    - Python [int] is [Z]; [bytes] is a list of bytes; [str] is [string]
      (one character per code point); [float] fields are only copied from the
      recognizer's result into messages, they are represented by rationals. *)

From Stdlib Require Import List String ZArith QArith Bool Lia.
From stdpp Require Import base list option strings gmap.
Import ListNotations.

#[local] Open Scope string_scope.
#[local] Open Scope list_scope.
#[local] Open Scope Z_scope.

Set Default Proof Using "Type".

(** ** Python values *)

Definition bytes := list Byte.byte.
Definition float := Q.

(** Truth value of a [bytes] object or of a [str]: non-empty. *)
Definition bytes_truthy (b : bytes) : bool :=
  match b with [] => false | _ :: _ => true end.

Definition str_truthy (s : string) : bool :=
  match s with EmptyString => false | String _ _ => true end.

(** [len] of a [str]. *)
Definition len (s : string) : Z := Z.of_nat (String.length s).

(** [a or b] on optional strings: [a] when it is neither [None] nor empty. *)
Definition or_str (a b : option string) : option string :=
  match a with
  | Some s => if str_truthy s then a else b
  | None => b
  end.

(** Exceptions: a failed [assert] (with its message, empty when the [assert]
    has none) or an exception raised by a collaborator. *)
Inductive exn :=
| AssertionError (msg : string)
| KeyError (key : string)
| Error (msg : string).

(** [str(e)]; for a [KeyError] the quoted key. *)
Definition str_exn (e : exn) : string :=
  match e with
  | AssertionError m => m
  | KeyError k => String.append "'" (String.append k "'")
  | Error m => m
  end.

(** The outcome of a call that may raise. *)
Inductive outcome (A : Type) :=
| Returns (a : A)
| Raises (e : exn).
Arguments Returns {A} a.
Arguments Raises {A} e.

(** ** Data of the collaborating packages *)

(** [rhasspyasr.TranscriptionToken] *)
Record TranscriptionToken := {
  token : string;
  start_time : float;
  end_time : float;
  tok_likelihood : float
}.

(** [rhasspyasr.Transcription] *)
Record Transcription := {
  text : string;
  likelihood : float;
  transcribe_seconds : float;
  wav_seconds : float;
  tokens : option (list TranscriptionToken)
}.

(** [rhasspyhermes.nlu.AsrTokenTime] and [AsrToken] *)
Record AsrTokenTime := {
  att_start : float;
  att_end : float
}.

Record AsrToken := {
  value : string;
  confidence : float;
  range_start : Z;
  range_end : Z;
  time : option AsrTokenTime
}.

(** [rhasspyhermes.asr.AsrStartListening], the fields the service reads. *)
Record AsrStartListening := {
  sl_site_id : string;
  sl_session_id : option string;
  sl_lang : option string;
  stop_on_silence : bool;
  send_audio_captured : bool
}.

(** [rhasspyhermes.asr.AsrStopListening] *)
Record AsrStopListening := {
  st_site_id : string;
  st_session_id : option string
}.

(** ** Token character ranges ([finish_session], the loop over
    [transcription.tokens]) *)

(** The loop body appends one [AsrToken] and advances [range_start]. *)
Fixpoint asr_tokens_loop (range_start : Z) (toks : list TranscriptionToken)
  : list AsrToken :=
  match toks with
  | [] => []
  | ps_token :: rest =>
      let range_end := range_start + len (token ps_token) + 1 in
      {| value := token ps_token;
         confidence := tok_likelihood ps_token;
         range_start := range_start;
         range_end := range_start + len (token ps_token) + 1;
         time := Some {| att_start := start_time ps_token;
                         att_end := end_time ps_token |} |}
      :: asr_tokens_loop range_end rest
  end.

(** [asr_tokens] of the text-captured message: [None] unless
    [transcription.tokens] is a non-empty list, else one level of tokens. *)
Definition asr_tokens_of (t : Transcription)
  : option (list (list AsrToken)) :=
  match tokens t with
  | None => None
  | Some [] => None
  | Some toks => Some [asr_tokens_loop 0 toks]
  end.

(** Sum of [len(word) + 1] over a list of tokens. *)
Definition width_sum (toks : list TranscriptionToken) : Z :=
  fold_right (fun t acc => len (token t) + 1 + acc) 0 toks.

(** ** Interfaces of the collaborating packages *)

(** [rhasspysilence.VoiceCommand], the value [process_chunk] returns when a
    voice command has ended. Only its presence is tested. *)
Inductive VoiceCommandResult := SUCCESS | FAILURE.

Record VoiceCommand := {
  vc_result : VoiceCommandResult;
  vc_audio_data : option bytes
}.

(** [rhasspysilence.VoiceCommandRecorder]: an object with a state of type
    [R]; every method returns the new state and what the call returned or
    raised. *)
Class VoiceCommandRecorder (R : Type) := {
  recorder_start : R -> R * outcome unit;
  recorder_stop : R -> R * outcome bytes;
  process_chunk : R -> bytes -> R * outcome (option VoiceCommand)
}.

(** [rhasspyasr.Transcriber]. [transcribe_stream] receives the frames that
    [audio_stream] yields, that is the frames queued before the first falsy
    entry of the queue, and the required audio format. *)
Class Transcriber (T : Type) := {
  transcribe_stream :
    T -> list bytes -> Z -> Z -> Z -> T * outcome (option Transcription);
  transcriber_stop : T -> T * outcome unit
}.

(** ** [TranscriberInfo] *)

(** The thread of a worker, by the point of [transcribe_proc] it is at:
    before the call of the factory, at [info.ready_event.wait()] (or in the
    decode that follows it), or returned. *)
Inductive Thread := Starting | WaitingReady | Exited.

#[export] Instance Thread_eq_dec : EqDecision Thread.
Proof. solve_decision. Defined.

Module Info.

Record TranscriberInfo (T R : Type) := mk {
  transcriber : option T;
  recorder : option R;
  frame_queue : list (option bytes);
  ready_event : bool;
  result : option Transcription;
  result_event : bool;
  result_sent : bool;
  start_listening : option AsrStartListening;
  thread : option Thread;
  audio_buffer : option bytes;
  reuse : bool
}.
Arguments mk {T R}.
Arguments transcriber {T R}.
Arguments recorder {T R}.
Arguments frame_queue {T R}.
Arguments ready_event {T R}.
Arguments result {T R}.
Arguments result_event {T R}.
Arguments result_sent {T R}.
Arguments start_listening {T R}.
Arguments thread {T R}.
Arguments audio_buffer {T R}.
Arguments reuse {T R}.

Section Setters.
Context {T R : Type}.
Implicit Type i : TranscriberInfo T R.

Definition set_transcriber (v : option T) i :=
  mk v (recorder i) (frame_queue i) (ready_event i) (result i)
     (result_event i) (result_sent i) (start_listening i) (thread i)
     (audio_buffer i) (reuse i).
Definition set_recorder (v : option R) i :=
  mk (transcriber i) v (frame_queue i) (ready_event i) (result i)
     (result_event i) (result_sent i) (start_listening i) (thread i)
     (audio_buffer i) (reuse i).
Definition set_frame_queue (v : list (option bytes)) i :=
  mk (transcriber i) (recorder i) v (ready_event i) (result i)
     (result_event i) (result_sent i) (start_listening i) (thread i)
     (audio_buffer i) (reuse i).
Definition set_ready_event (v : bool) i :=
  mk (transcriber i) (recorder i) (frame_queue i) v (result i)
     (result_event i) (result_sent i) (start_listening i) (thread i)
     (audio_buffer i) (reuse i).
Definition set_result (v : option Transcription) i :=
  mk (transcriber i) (recorder i) (frame_queue i) (ready_event i) v
     (result_event i) (result_sent i) (start_listening i) (thread i)
     (audio_buffer i) (reuse i).
Definition set_result_event (v : bool) i :=
  mk (transcriber i) (recorder i) (frame_queue i) (ready_event i) (result i)
     v (result_sent i) (start_listening i) (thread i)
     (audio_buffer i) (reuse i).
Definition set_result_sent (v : bool) i :=
  mk (transcriber i) (recorder i) (frame_queue i) (ready_event i) (result i)
     (result_event i) v (start_listening i) (thread i)
     (audio_buffer i) (reuse i).
Definition set_start_listening (v : option AsrStartListening) i :=
  mk (transcriber i) (recorder i) (frame_queue i) (ready_event i) (result i)
     (result_event i) (result_sent i) v (thread i)
     (audio_buffer i) (reuse i).
Definition set_thread (v : option Thread) i :=
  mk (transcriber i) (recorder i) (frame_queue i) (ready_event i) (result i)
     (result_event i) (result_sent i) (start_listening i) v
     (audio_buffer i) (reuse i).
Definition set_audio_buffer (v : option bytes) i :=
  mk (transcriber i) (recorder i) (frame_queue i) (ready_event i) (result i)
     (result_event i) (result_sent i) (start_listening i) (thread i)
     v (reuse i).
Definition set_reuse (v : bool) i :=
  mk (transcriber i) (recorder i) (frame_queue i) (ready_event i) (result i)
     (result_event i) (result_sent i) (start_listening i) (thread i)
     (audio_buffer i) v.

(** [TranscriberInfo(reuse=...)]: the defaults of the dataclass. *)
Definition new (reuse : bool) : TranscriberInfo T R :=
  mk None None [] false None false false None None None reuse.

End Setters.
End Info.

Abbreviation TranscriberInfo := Info.TranscriberInfo.

(** A reference to a [TranscriberInfo] object: its index in the heap. *)
Abbreviation ref := nat.

(** ** Messages the handlers yield *)

(** The [context] of an error message is the [repr] of the start-listening
    message or of [info.transcriber]; the object itself stands for its
    [repr]. *)
Inductive error_context (T : Type) :=
| ReprMessage (m : AsrStartListening)
| ReprTranscriber (t : option T).
Arguments ReprMessage {T} m.
Arguments ReprTranscriber {T} t.

Inductive Message (T : Type) :=
| AsrRecordingFinished (site_id : string) (session_id : option string)
| AsrTextCaptured (text : string) (likelihood seconds : float)
    (site_id : string) (session_id : option string)
    (asr_tokens : option (list (list AsrToken))) (lang : option string)
| AsrAudioCaptured (wav_bytes : bytes)
    (site_id : string) (session_id : option string)
| AsrError (error : string) (context : error_context T)
    (site_id : string) (session_id : option string).
Arguments AsrRecordingFinished {T}.
Arguments AsrTextCaptured {T}.
Arguments AsrAudioCaptured {T}.
Arguments AsrError {T}.

Definition is_recording_finished {T} (m : Message T) : bool :=
  match m with AsrRecordingFinished _ _ => true | _ => false end.
Definition is_text_captured {T} (m : Message T) : bool :=
  match m with AsrTextCaptured _ _ _ _ _ _ _ => true | _ => false end.
Definition is_audio_captured {T} (m : Message T) : bool :=
  match m with AsrAudioCaptured _ _ _ => true | _ => false end.
Definition is_error {T} (m : Message T) : bool :=
  match m with AsrError _ _ _ _ => true | _ => false end.

(** The site and the session a message is for. *)
Definition message_site {T} (m : Message T) : string :=
  match m with
  | AsrRecordingFinished site_id _ => site_id
  | AsrTextCaptured _ _ _ site_id _ _ _ => site_id
  | AsrAudioCaptured _ site_id _ => site_id
  | AsrError _ _ site_id _ => site_id
  end.

Definition message_session {T} (m : Message T) : option string :=
  match m with
  | AsrRecordingFinished _ session_id => session_id
  | AsrTextCaptured _ _ _ _ session_id _ _ => session_id
  | AsrAudioCaptured _ _ session_id => session_id
  | AsrError _ _ _ session_id => session_id
  end.

(** Number of messages of a kind among the yielded ones. *)
Definition count {A} (p : A -> bool) (l : list A) : nat :=
  length (List.filter p l).

(** ** The service object *)

(** [rhasspyhermes.asr.AsrToggleReason] *)
Inductive AsrToggleReason := UNKNOWN | DIALOGUE_SESSION | PLAY_AUDIO | TTS_SAY.

#[export] Instance AsrToggleReason_eq_dec : EqDecision AsrToggleReason.
Proof. solve_decision. Defined.

(** [AsrHermesMqtt]: the fields the session manager reads, the two methods
    it inherits from [HermesClient] ([maybe_convert_wav] returns the raw
    audio of a WAV frame in the required format, [to_wav_bytes] wraps raw
    audio into a WAV clip), the set [disabled_reasons] (a list without
    duplicates), the registry [sessions] (a dict, in insertion order), the
    pool [free_transcribers], and the heap of the [TranscriberInfo] objects
    created so far. *)
Record AsrHermesMqtt (T R : Type) := mkAsr {
  transcriber_factory : option Z -> outcome (option T);
  recorder_factory : outcome R;
  maybe_convert_wav : bytes -> outcome bytes;
  to_wav_bytes : bytes -> bytes;
  reuse_transcribers : bool;
  kaldi_port : option Z;
  session_result_timeout : Z;
  sample_rate : Z;
  sample_width : Z;
  channels : Z;
  lang : option string;
  enabled : bool;
  disabled_reasons : list AsrToggleReason;
  sessions : list (option string * ref);
  free_transcribers : list ref;
  first_audio : bool;
  heap : list (TranscriberInfo T R)
}.
Arguments mkAsr {T R}.
Arguments transcriber_factory {T R}.
Arguments recorder_factory {T R}.
Arguments maybe_convert_wav {T R}.
Arguments to_wav_bytes {T R}.
Arguments reuse_transcribers {T R}.
Arguments kaldi_port {T R}.
Arguments session_result_timeout {T R}.
Arguments sample_rate {T R}.
Arguments sample_width {T R}.
Arguments channels {T R}.
Arguments lang {T R}.
Arguments enabled {T R}.
Arguments disabled_reasons {T R}.
Arguments sessions {T R}.
Arguments free_transcribers {T R}.
Arguments first_audio {T R}.
Arguments heap {T R}.

Section ServiceSetters.
Context {T R : Type}.
Implicit Type self : AsrHermesMqtt T R.

Definition set_sessions (v : list (option string * ref)) self :=
  mkAsr (transcriber_factory self) (recorder_factory self)
    (maybe_convert_wav self) (to_wav_bytes self) (reuse_transcribers self)
    (kaldi_port self) (session_result_timeout self) (sample_rate self)
    (sample_width self) (channels self) (lang self)
    (enabled self) (disabled_reasons self)
    v (free_transcribers self) (first_audio self) (heap self).
Definition set_free_transcribers (v : list ref) self :=
  mkAsr (transcriber_factory self) (recorder_factory self)
    (maybe_convert_wav self) (to_wav_bytes self) (reuse_transcribers self)
    (kaldi_port self) (session_result_timeout self) (sample_rate self)
    (sample_width self) (channels self) (lang self)
    (enabled self) (disabled_reasons self)
    (sessions self) v (first_audio self) (heap self).
Definition set_first_audio (v : bool) self :=
  mkAsr (transcriber_factory self) (recorder_factory self)
    (maybe_convert_wav self) (to_wav_bytes self) (reuse_transcribers self)
    (kaldi_port self) (session_result_timeout self) (sample_rate self)
    (sample_width self) (channels self) (lang self)
    (enabled self) (disabled_reasons self)
    (sessions self) (free_transcribers self) v (heap self).
Definition set_heap (v : list (TranscriberInfo T R)) self :=
  mkAsr (transcriber_factory self) (recorder_factory self)
    (maybe_convert_wav self) (to_wav_bytes self) (reuse_transcribers self)
    (kaldi_port self) (session_result_timeout self) (sample_rate self)
    (sample_width self) (channels self) (lang self)
    (enabled self) (disabled_reasons self)
    (sessions self) (free_transcribers self) (first_audio self) v.
Definition set_enabled (v : bool) self :=
  mkAsr (transcriber_factory self) (recorder_factory self)
    (maybe_convert_wav self) (to_wav_bytes self) (reuse_transcribers self)
    (kaldi_port self) (session_result_timeout self) (sample_rate self)
    (sample_width self) (channels self) (lang self)
    v (disabled_reasons self)
    (sessions self) (free_transcribers self) (first_audio self) (heap self).
Definition set_disabled_reasons (v : list AsrToggleReason) self :=
  mkAsr (transcriber_factory self) (recorder_factory self)
    (maybe_convert_wav self) (to_wav_bytes self) (reuse_transcribers self)
    (kaldi_port self) (session_result_timeout self) (sample_rate self)
    (sample_width self) (channels self) (lang self)
    (enabled self) v
    (sessions self) (free_transcribers self) (first_audio self) (heap self).

End ServiceSetters.

(** Which objects of the heap have a thread. *)
Definition has_thread {T R} (info : TranscriberInfo T R) : bool :=
  match Info.thread info with Some _ => true | None => false end.

Definition threads {T R} (self : AsrHermesMqtt T R) : list bool :=
  map has_thread (heap self).

(** ** The dict [sessions] *)

Definition key_eqb (a b : option string) : bool :=
  match a, b with
  | None, None => true
  | Some x, Some y => String.eqb x y
  | _, _ => false
  end.

(** [d.get(k)] *)
Fixpoint dict_get {V} (d : list (option string * V)) (k : option string)
  : option V :=
  match d with
  | [] => None
  | (k', v) :: d' => if key_eqb k' k then Some v else dict_get d' k
  end.

(** The dict without the key [k] (what [d.pop(k, None)] leaves). *)
Definition dict_remove {V} (d : list (option string * V)) (k : option string)
  : list (option string * V) :=
  List.filter (fun kv => negb (key_eqb (fst kv) k)) d.

(** [d[k] = v]: the value is replaced in place when the key is there, the
    entry is appended otherwise. *)
Fixpoint dict_set {V} (d : list (option string * V)) (k : option string)
  (v : V) : list (option string * V) :=
  match d with
  | [] => [(k, v)]
  | (k', v') :: d' =>
      if key_eqb k' k then (k', v) :: d' else (k', v') :: dict_set d' k v
  end.

(** ** The worker thread: [transcribe_proc] *)

(** [audio_stream(frame_queue)]: the frames pulled from the queue up to the
    first falsy entry ([None] or an empty frame), which is pulled too, and the
    queue that is left. [None] when the queue holds no falsy entry: the
    stream then blocks in [frame_queue.get()]. *)
Fixpoint audio_stream (q : list (option bytes))
  : option (list bytes * list (option bytes)) :=
  match q with
  | [] => None
  | None :: q' => Some ([], q')
  | Some frames :: q' =>
      if bytes_truthy frames then
        match audio_stream q' with
        | Some (fs, rest) => Some (frames :: fs, rest)
        | None => None
        end
      else Some ([], q')
  end.

(** [Transcription(text="", likelihood=0, transcribe_seconds=0,
    wav_seconds=0)] *)
Definition empty_transcription : Transcription :=
  {| text := ""; likelihood := 0%Q; transcribe_seconds := 0%Q;
     wav_seconds := 0%Q; tokens := None |}.

(** The calls a worker makes to the recognizer, in order. *)
Inductive worker_call (T : Type) :=
| CallFactory
| CallTranscribe (t : T) (frames : list bytes)
| CallStop (t : T).
Arguments CallFactory {T}.
Arguments CallTranscribe {T}.
Arguments CallStop {T}.

Section Worker.
Context {T R : Type} `{Transcriber T}.
Implicit Type self : AsrHermesMqtt T R.
Implicit Type info : TranscriberInfo T R.

(** The [except Exception] clause of [transcribe_proc]: the worker is marked
    as not reusable, the transcriber is stopped when there is one (what
    [stop] raises is logged and dropped), [info.transcriber] is cleared, the
    empty transcription is stored, the result event is set, and the thread
    returns. *)
Definition session_proc_except info
  : TranscriberInfo T R * list (worker_call T) :=
  let info := Info.set_reuse false info in
  let calls :=
    match Info.transcriber info with
    | Some t => [CallStop t]
    | None => []
    end in
  let info := Info.set_transcriber None info in
  let info := Info.set_result (Some empty_transcription) info in
  let info := Info.set_result_event true info in
  (Info.set_thread (Some Exited) info, calls).

(** A decode that ends in the [except] clause: the state the clause starts
    from has the ready event cleared, the utterance pulled from the queue and
    the transcriber as the decode left it. *)
Definition decode_failure info (t t' : T) (frames : list bytes)
  (rest : list (option bytes)) : TranscriberInfo T R * list (worker_call T) :=
  let '(info', calls) :=
    session_proc_except
      (Info.set_transcriber (Some t')
         (Info.set_frame_queue rest (Info.set_ready_event false info))) in
  (info', CallTranscribe t frames :: calls).

(** One pass of the [while True] loop, from [info.ready_event.wait()] on,
    for a thread whose ready event is set and whose queue holds the end of
    the utterance. *)
Definition transcribe_cycle self info (t : T) (frames : list bytes)
  (rest : list (option bytes))
  : TranscriberInfo T R * list (worker_call T) :=
  let info := Info.set_ready_event false info in
  let info := Info.set_frame_queue rest info in
  let '(t', r) :=
    transcribe_stream t frames
      (sample_rate self) (sample_width self) (channels self) in
  let info := Info.set_transcriber (Some t') info in
  let ok :=
    match r with
    | Returns (Some res) => if str_truthy (text res) then Some res else None
    | Returns None => None
    | Raises _ => None
    end in
  match ok with
  | Some res =>
      let info := Info.set_result (Some res) info in
      let info := Info.set_result_event true info in
      if negb (reuse_transcribers self) then
        let '(t'', _) := transcriber_stop t' in
        (Info.set_thread (Some Exited) (Info.set_transcriber (Some t'') info),
         [CallTranscribe t frames; CallStop t'])
      else (info, [CallTranscribe t frames])
  | None =>
      let '(info, calls) := session_proc_except info in
      (info, CallTranscribe t frames :: calls)
  end.

(** What the thread of [info] does when it is scheduled: the construction of
    the transcriber, or one pass of the loop; nothing when it is blocked
    (ready event not set, or end of the utterance not queued yet), has
    returned, or was never started. *)
Definition transcribe_proc_step self info
  : TranscriberInfo T R * list (worker_call T) :=
  match Info.thread info with
  | Some Starting =>
      match transcriber_factory self (kaldi_port self) with
      | Returns (Some t) =>
          (Info.set_thread (Some WaitingReady)
             (Info.set_transcriber (Some t) info), [CallFactory])
      | Returns None =>
          let '(info, calls) :=
            session_proc_except (Info.set_transcriber None info) in
          (info, CallFactory :: calls)
      | Raises _ =>
          let '(info, calls) := session_proc_except info in
          (info, CallFactory :: calls)
      end
  | Some WaitingReady =>
      if Info.ready_event info then
        match Info.transcriber info with
        | Some t =>
            match audio_stream (Info.frame_queue info) with
            | Some (frames, rest) => transcribe_cycle self info t frames rest
            | None => (info, [])
            end
        | None => session_proc_except (Info.set_ready_event false info)
        end
      else (info, [])
  | Some Exited => (info, [])
  | None => (info, [])
  end.

(** [transcribe_proc] run for [n] scheduling steps. *)
Fixpoint transcribe_proc_run self (n : nat) info
  : TranscriberInfo T R * list (worker_call T) :=
  match n with
  | O => (info, [])
  | S n' =>
      let '(info1, c1) := transcribe_proc_step self info in
      let '(info2, c2) := transcribe_proc_run self n' info1 in
      (info2, c1 ++ c2)
  end.

(** [info.result_event.wait(timeout=...)]: returns [True] at once when the
    event is set; otherwise the worker runs, for at most the [n] steps that
    fit into the timeout, until it sets the event. The flag returned tells
    whether the event was set. *)
Fixpoint wait_result_event self (n : nat) info : bool * TranscriberInfo T R :=
  if Info.result_event info then (true, info)
  else
    match n with
    | O => (false, info)
    | S n' => wait_result_event self n' (fst (transcribe_proc_step self info))
    end.

End Worker.

(** ** The handlers *)

(** [l.pop()]: the list without its last element, and that element. *)
Fixpoint pop {A} (l : list A) : option (list A * A) :=
  match l with
  | [] => None
  | x :: l' =>
      match pop l' with
      | Some (rest, y) => Some (x :: rest, y)
      | None => Some ([], x)
      end
  end.

Section Handlers.
Context {T R : Type} `{Transcriber T} `{VoiceCommandRecorder R}.
Implicit Type self : AsrHermesMqtt T R.
Implicit Type info : TranscriberInfo T R.

(** The object a reference points to. Every reference held by the registry
    or the pool points into the heap; the default is never used. *)
Definition deref self (r : ref) : TranscriberInfo T R :=
  default (Info.new false) (heap self !! r).

Definition store self (r : ref) info : AsrHermesMqtt T R :=
  set_heap (<[r := info]> (heap self)) self.

(** The text-captured message of [finish_session], for the transcription
    [info.result] read after the wait. *)
Definition text_captured self (transcription : option Transcription)
  (sl : AsrStartListening) (site_id : string) (session_id : option string)
  : Message T :=
  match transcription with
  | Some t =>
      AsrTextCaptured (text t) (likelihood t) (transcribe_seconds t)
        site_id session_id (asr_tokens_of t) (or_str (sl_lang sl) (lang self))
  | None =>
      AsrTextCaptured "" 0%Q 0%Q site_id session_id None
        (or_str (sl_lang sl) (lang self))
  end.

(** [finish_session(info, site_id, session_id)]. [n] bounds the steps the
    worker makes before the wait for the result times out. *)
Definition finish_session self info (site_id : string)
  (session_id : option string) (n : nat)
  : list (Message T) * TranscriberInfo T R * option exn :=
  let '(info, audio) :=
    match Info.recorder info with
    | Some r =>
        let '(r', o) := recorder_stop r in
        (Info.set_recorder (Some r') info, o)
    | None =>
        (info,
         match Info.audio_buffer info with
         | Some b => Returns b
         | None => Raises (AssertionError "")
         end)
    end in
  match audio with
  | Raises e => ([], info, Some e)
  | Returns audio_data =>
      if Info.result_sent info then ([], info, None)
      else
        let recording_finished := AsrRecordingFinished site_id session_id in
        let info := Info.set_result_sent true info in
        let info :=
          Info.set_frame_queue (Info.frame_queue info ++ [None]) info in
        let '(result_success, info) := wait_result_event self n info in
        let info :=
          if result_success then info else Info.set_reuse false info in
        let transcription := Info.result info in
        match Info.start_listening info with
        | None => ([recording_finished], info, Some (AssertionError ""))
        | Some sl =>
            ([recording_finished;
              text_captured self transcription sl site_id session_id]
             ++ (if send_audio_captured sl
                 then [AsrAudioCaptured (to_wav_bytes self audio_data)
                         site_id session_id]
                 else []),
             info, None)
        end
  end.

(** The audio data [finish_session] starts with: what [recorder.stop()]
    returns, or the audio buffer. *)
Definition session_audio info : outcome bytes :=
  match Info.recorder info with
  | Some r => snd (recorder_stop r)
  | None =>
      match Info.audio_buffer info with
      | Some b => Returns b
      | None => Raises (AssertionError "")
      end
  end.

(** The audio-captured message, when the start message asked for one. *)
Definition audio_captured self (sl : AsrStartListening) (audio_data : bytes)
  (site_id : string) (session_id : option string) : list (Message T) :=
  if send_audio_captured sl
  then [AsrAudioCaptured (to_wav_bytes self audio_data) site_id session_id]
  else [].

(** The reset of a worker that goes back to the pool ([stop_listening]). *)
Definition reset_state info : TranscriberInfo T R :=
  let info := Info.set_result None info in
  let info := Info.set_result_event false info in
  let info := Info.set_result_sent false info in
  let info := Info.set_result None info in
  let info := Info.set_start_listening None info in
  let info := Info.set_audio_buffer None info in
  Info.set_frame_queue [] info.

(** [stop_listening(message)] *)
Definition stop_listening self (message : AsrStopListening) (n : nat)
  : list (Message T) * AsrHermesMqtt T R :=
  match dict_get (sessions self) (st_session_id message) with
  | None => ([], self)
  | Some r =>
      let self :=
        set_sessions (dict_remove (sessions self) (st_session_id message))
          self in
      let '(results, info, ex) :=
        finish_session self (deref self r)
          (st_site_id message) (st_session_id message) n in
      match ex with
      | None =>
          if Info.reuse info && bool_decide (Info.transcriber info <> None)
          then
            let self := store self r (reset_state info) in
            (results,
             set_free_transcribers (free_transcribers self ++ [r]) self)
          else (results, store self r info)
      | Some e =>
          (results ++
             [AsrError (str_exn e) (ReprTranscriber (Info.transcriber info))
                (st_site_id message) (st_session_id message)],
           store self r info)
      end
  end.

(** The worker of a new session: popped from the pool when there is one,
    else a new [TranscriberInfo] whose thread is started. *)
Definition acquire self : ref * AsrHermesMqtt T R :=
  match pop (free_transcribers self) with
  | Some (rest, r) => (r, set_free_transcribers rest self)
  | None =>
      let info :=
        Info.set_thread (Some Starting)
          (Info.new (reuse_transcribers self)) in
      (length (heap self), set_heap (heap self ++ [info]) self)
  end.

(** The silence detection or the audio buffer of a new session. *)
Definition begin_recording self (message : AsrStartListening) info
  : TranscriberInfo T R * option exn :=
  if stop_on_silence message then
    let made :=
      match Info.recorder info with
      | Some r => Returns r
      | None => recorder_factory self
      end in
    match made with
    | Raises e => (info, Some e)
    | Returns r =>
        let '(r', o) := recorder_start r in
        (Info.set_recorder (Some r') info,
         match o with Returns _ => None | Raises e => Some e end)
    end
  else (Info.set_audio_buffer (Some []) info, None).

(** The start of [start_listening]: an existing session of the same id is
    stopped. *)
Definition stop_existing self (message : AsrStartListening) (n : nat)
  : list (Message T) * AsrHermesMqtt T R :=
  match dict_get (sessions self) (sl_session_id message) with
  | Some _ =>
      stop_listening self
        {| st_site_id := sl_site_id message;
           st_session_id := sl_session_id message |} n
  | None => ([], self)
  end.

(** [start_listening(message)]. [n] is passed to the stop of an existing
    session of the same id. *)
Definition start_listening self (message : AsrStartListening) (n : nat)
  : list (Message T) * AsrHermesMqtt T R :=
  let '(stopped, self) := stop_existing self message n in
  let '(r, self) := acquire self in
  let info := Info.set_start_listening (Some message) (deref self r) in
  let info := Info.set_ready_event true info in
  let '(info, ex) := begin_recording self message info in
  let self := store self r info in
  match ex with
  | None =>
      let self :=
        set_sessions (dict_set (sessions self) (sl_session_id message) r)
          self in
      (stopped, set_first_audio true self)
  | Some e =>
      (stopped ++
         [AsrError (str_exn e) (ReprMessage message)
            (sl_site_id message) (sl_session_id message)],
       self)
  end.

(** The body of the loop of [handle_audio_frame] for one target session,
    inside its [try]. *)
Definition route_frame self info (audio_data : bytes) (site_id : string)
  (target_id : option string) (n : nat)
  : list (Message T) * TranscriberInfo T R * option exn :=
  match Info.start_listening info with
  | None => ([], info, Some (AssertionError ""))
  | Some sl =>
      if negb (String.eqb (sl_site_id sl) site_id) then ([], info, None)
      else
        let info :=
          Info.set_frame_queue (Info.frame_queue info ++ [Some audio_data])
            info in
        match Info.recorder info with
        | Some r =>
            let '(r', o) := process_chunk r audio_data in
            let info := Info.set_recorder (Some r') info in
            match o with
            | Raises e => ([], info, Some e)
            | Returns (Some _) =>
                finish_session self info site_id target_id n
            | Returns None => ([], info, None)
            end
        | None =>
            match Info.audio_buffer info with
            | None => ([], info, Some (AssertionError ""))
            | Some b =>
                ([], Info.set_audio_buffer (Some (b ++ audio_data)) info,
                 None)
            end
        end
  end.

(** The body with its [except] clause: the exception becomes an error
    message for the site of the frame and the target session. *)
Definition route_frame_caught self info (audio_data : bytes)
  (site_id : string) (target_id : option string) (n : nat)
  : list (Message T) * TranscriberInfo T R :=
  let '(results, info, ex) :=
    route_frame self info audio_data site_id target_id n in
  (match ex with
   | None => results
   | Some e =>
       results ++
         [AsrError (str_exn e) (ReprTranscriber (Info.transcriber info))
            site_id target_id]
   end, info).

(** One iteration of the loop, on the object the target refers to. *)
Definition route_target self (target : option string * ref)
  (audio_data : bytes) (site_id : string) (sched : option string -> nat)
  : list (Message T) * AsrHermesMqtt T R :=
  let '(target_id, r) := target in
  let '(results, info) :=
    route_frame_caught self (deref self r) audio_data site_id target_id
      (sched target_id) in
  (results, store self r info).

(** The loop over [target_sessions]. *)
Fixpoint route_targets self (targets : list (option string * ref))
  (audio_data : bytes) (site_id : string) (sched : option string -> nat)
  : list (Message T) * AsrHermesMqtt T R :=
  match targets with
  | [] => ([], self)
  | target :: rest =>
      let '(results, self) :=
        route_target self target audio_data site_id sched in
      let '(more, self) := route_targets self rest audio_data site_id sched in
      (results ++ more, self)
  end.

(** [handle_audio_frame(frame_wav_bytes, site_id, session_id)]. [sched]
    gives, for each target session, the bound on the worker's steps during
    the wait of a finalize triggered by the frame. *)
Definition handle_audio_frame self (frame_wav_bytes : bytes)
  (site_id : string) (session_id : option string)
  (sched : option string -> nat)
  : list (Message T) * AsrHermesMqtt T R * option exn :=
  match sessions self with
  | [] => ([], self, None)
  | _ :: _ =>
      match maybe_convert_wav self frame_wav_bytes with
      | Raises e => ([], self, Some e)
      | Returns audio_data =>
          match session_id with
          | None =>
              (route_targets self (sessions self) audio_data site_id sched,
               None)
          | Some sid =>
              match dict_get (sessions self) (Some sid) with
              | None => ([], self, Some (KeyError sid))
              | Some r =>
                  (route_targets self [(Some sid, r)] audio_data site_id
                     sched, None)
              end
          end
      end
  end.

(** *** The life of one session

    Between the start of a session and the reset of its worker by
    [stop_listening], three things happen to its [TranscriberInfo]: a frame
    is routed to it, its worker thread runs, or [finish_session] is called
    for it by [stop_listening]. *)
Inductive session_event :=
| FrameArrives (audio_data : bytes) (site_id : string) (n : nat)
| WorkerRuns
| Finalize (site_id : string) (n : nat).

(** The messages one event yields (for [Finalize], with the error message of
    [stop_listening] when [finish_session] raises), and the object as it is
    left. *)
Definition session_step self (session_id : option string)
  (ev : session_event) info : list (Message T) * TranscriberInfo T R :=
  match ev with
  | FrameArrives audio_data site_id n =>
      route_frame_caught self info audio_data site_id session_id n
  | WorkerRuns => ([], fst (transcribe_proc_step self info))
  | Finalize site_id n =>
      let '(results, info, ex) :=
        finish_session self info site_id session_id n in
      (match ex with
       | None => results
       | Some e =>
           results ++
             [AsrError (str_exn e) (ReprTranscriber (Info.transcriber info))
                site_id session_id]
       end, info)
  end.

Fixpoint session_run self (session_id : option string)
  (evs : list session_event) info : list (Message T) * TranscriberInfo T R :=
  match evs with
  | [] => ([], info)
  | ev :: evs' =>
      let '(results, info) := session_step self session_id ev info in
      let '(more, info) := session_run self session_id evs' info in
      (results ++ more, info)
  end.

(** *** The dispatch of the messages, and the service as a transition
    system *)

(** The messages [on_message_blocking] gets from the broker. [AsrTrain] and
    [G2pPronounce] go to [handle_train] and [handle_pronounce], which leave
    the sessions, the pool and the workers alone; they are [OtherMessage],
    as is a message of an unexpected class. *)
Inductive incoming :=
| AsrToggleOn (reason : AsrToggleReason)
| AsrToggleOff (reason : AsrToggleReason)
| AudioFrame (wav_bytes : bytes)
| AudioSessionFrame (wav_bytes : bytes)
| StartListening (message : AsrStartListening)
| StopListening (message : AsrStopListening)
| OtherMessage.

(** [s.discard(x)] and [s.add(x)] on a set. *)
Definition set_discard (x : AsrToggleReason) (s : list AsrToggleReason)
  : list AsrToggleReason :=
  List.filter (fun y => negb (bool_decide (y = x))) s.

Definition set_add (x : AsrToggleReason) (s : list AsrToggleReason)
  : list AsrToggleReason :=
  if existsb (fun y => bool_decide (y = x)) s then s else s ++ [x].

(** [on_message_blocking(message, site_id, session_id)], for the messages of
    the session manager. [n] and [sched] bound the steps of the workers
    during the waits of the handler. *)
Definition on_message_blocking self (message : incoming) (site_id : string)
  (session_id : option string) (n : nat) (sched : option string -> nat)
  : list (Message T) * AsrHermesMqtt T R * option exn :=
  match message with
  | AsrToggleOn reason =>
      let reasons :=
        match reason with
        | UNKNOWN => []
        | _ => set_discard reason (disabled_reasons self)
        end in
      let self := set_disabled_reasons reasons self in
      match reasons with
      | _ :: _ => ([], self, None)
      | [] => ([], set_first_audio true (set_enabled true self), None)
      end
  | AsrToggleOff reason =>
      let self := set_enabled false self in
      ([],
       set_disabled_reasons (set_add reason (disabled_reasons self)) self,
       None)
  | AudioFrame wav_bytes =>
      if enabled self then
        let self :=
          if first_audio self then set_first_audio false self else self in
        handle_audio_frame self wav_bytes site_id None sched
      else ([], self, None)
  | AudioSessionFrame wav_bytes =>
      if enabled self then
        match dict_get (sessions self) session_id with
        | Some _ =>
            let self :=
              if first_audio self then set_first_audio false self else self in
            handle_audio_frame self wav_bytes site_id session_id sched
        | None => ([], self, None)
        end
      else ([], self, None)
  | StartListening message => (start_listening self message n, None)
  | StopListening message => (stop_listening self message n, None)
  | OtherMessage => ([], self, None)
  end.

(** What happens to the service: a message is dispatched, or the thread of
    the object [r] is scheduled. *)
Inductive event :=
| Receive (message : incoming) (site_id : string)
    (session_id : option string) (n : nat) (sched : option string -> nat)
| WorkerStep (r : ref).

Definition step self (ev : event) : list (Message T) * AsrHermesMqtt T R :=
  match ev with
  | Receive message site_id session_id n sched =>
      fst (on_message_blocking self message site_id session_id n sched)
  | WorkerStep r =>
      match heap self !! r with
      | Some info => ([], store self r (fst (transcribe_proc_step self info)))
      | None => ([], self)
      end
  end.

Fixpoint run self (evs : list event) : list (Message T) * AsrHermesMqtt T R :=
  match evs with
  | [] => ([], self)
  | ev :: evs' =>
      let '(results, self) := step self ev in
      let '(more, self) := run self evs' in
      (results ++ more, self)
  end.

(** A property of the thread and the transcriber of an object. *)
Definition on_worker (P : option Thread -> option T -> Prop) info : Prop :=
  P (Info.thread info) (Info.transcriber info).

(** A heap [h'] that comes from the heap [h] for the property [P]: the
    objects of [h] are still there, each has [P] if it had it, and each new
    object has [P] if a worker just created has it. *)
Definition evolves (P : option Thread -> option T -> Prop)
  (h h' : list (TranscriberInfo T R)) : Prop :=
  (forall r info',
      h' !! r = Some info' ->
      match h !! r with
      | Some info => on_worker P info -> on_worker P info'
      | None => P (Some Starting) None -> on_worker P info'
      end) /\
  (forall r info, h !! r = Some info -> is_Some (h' !! r)).

(** The thread has constructed its transcriber, or has given up. *)
Definition past_start (thread : option Thread) (transcriber : option T)
  : Prop :=
  thread = Some WaitingReady \/ thread = Some Exited.

(** A thread that has not called the factory yet has no transcriber, and
    every object has a thread. *)
Definition worker_ok (thread : option Thread) (transcriber : option T)
  : Prop :=
  thread <> None /\ (thread = Some Starting -> transcriber = None).

(** The invariant of the pool: every object is [worker_ok], and the workers
    in the pool are past the construction of their transcriber. *)
Definition pool_constructed self : Prop :=
  Forall (on_worker worker_ok) (heap self) /\
  Forall (fun r => exists info,
            heap self !! r = Some info /\ on_worker past_start info)
    (free_transcribers self).

(** The audio of the frames of site [site_id] among the events of a
    session, in order of arrival. *)
Fixpoint routed_audio (site_id : string) (evs : list session_event) : bytes :=
  match evs with
  | [] => []
  | FrameArrives audio_data site _ :: evs' =>
      if String.eqb site_id site
      then audio_data ++ routed_audio site_id evs'
      else routed_audio site_id evs'
  | _ :: evs' => routed_audio site_id evs'
  end.

Definition is_finalize (ev : session_event) : bool :=
  match ev with Finalize _ _ => true | _ => false end.

End Handlers.

(** ** Training: the merge of the base dictionaries ([handle_train]) *)

(** [rhasspynlu.g2p.PronunciationsType]: word to list of pronunciations, a
    pronunciation being a list of phonemes. *)
Abbreviation PronunciationsType := (gmap string (list (list string))).

Record PronunciationDictionary := {
  path : string;
  pronunciations : PronunciationsType;
  mtime_ns : option Z
}.

(** [pronunciations[word].extend(prons)] on the [defaultdict(list)]. *)
Definition extend_word (word : string) (prons : list (list string))
  (acc : PronunciationsType) : PronunciationsType :=
  <[word := default [] (acc !! word) ++ prons]> acc.

(** [for word in base_dict.pronunciations:
       pronunciations[word].extend(base_dict.pronunciations[word])] *)
Definition extend_all (acc base : PronunciationsType) : PronunciationsType :=
  map_fold extend_word acc base.

Section Train.
(** The content of a dictionary file, and the reader of the package
    [rhasspynlu]: [read_pronunciations(file, word_dict=d)] adds the entries
    of the file to [d] and may raise. The file system gives, for a path that
    exists, the modification time and the content of the file. *)
Context {F : Type}.
Variable read_pronunciations :
  F -> PronunciationsType -> PronunciationsType * option exn.
Variable fs : string -> option (Z * F).

(** Whether [handle_train] reads the file again. *)
Definition changed (base_dict : PronunciationDictionary) (dict_mtime_ns : Z)
  : bool :=
  match mtime_ns base_dict with
  | None => true
  | Some m => negb (m =? dict_mtime_ns)
  end.

(** The loop over [self.base_dictionaries]: the dictionaries as they are
    left (cache and modification time updated), the merged pronunciations,
    and the exception that ended the loop, if any. *)
Fixpoint load_base_dictionaries
  (base_dictionaries : list PronunciationDictionary)
  (acc : PronunciationsType)
  : list PronunciationDictionary * PronunciationsType * option exn :=
  match base_dictionaries with
  | [] => ([], acc, None)
  | base_dict :: rest =>
      match fs (path base_dict) with
      | None =>
          let '(rest', acc', ex) := load_base_dictionaries rest acc in
          (base_dict :: rest', acc', ex)
      | Some (dict_mtime_ns, file) =>
          let '(base_dict, ex) :=
            if changed base_dict dict_mtime_ns then
              let '(p, ex) :=
                read_pronunciations file (pronunciations base_dict) in
              ({| path := path base_dict; pronunciations := p;
                  mtime_ns := Some dict_mtime_ns |}, ex)
            else (base_dict, None) in
          match ex with
          | Some e => (base_dict :: rest, acc, Some e)
          | None =>
              let '(rest', acc', ex) :=
                load_base_dictionaries rest
                  (extend_all acc (pronunciations base_dict)) in
              (base_dict :: rest', acc', ex)
          end
      end
  end.

(** The start of [handle_train]: the assertion on the model and graph
    directories, then the merge into an empty [defaultdict(list)]. *)
Definition handle_train_pronunciations (model_and_graph_dir : bool)
  (base_dictionaries : list PronunciationDictionary)
  : list PronunciationDictionary * PronunciationsType * option exn :=
  if model_and_graph_dir then load_base_dictionaries base_dictionaries ∅
  else
    (base_dictionaries, ∅,
     Some (AssertionError "Model and graph dirs are required to train")).

(** The base dictionaries whose file exists. *)
Definition on_disk (base_dict : PronunciationDictionary) : bool :=
  match fs (path base_dict) with Some _ => true | None => false end.

(** A base dictionary [d] as [handle_train] leaves it when its file is read
    without an exception. *)
Definition loaded (d d' : PronunciationDictionary) : Prop :=
  match fs (path d) with
  | None => d' = d
  | Some (dict_mtime_ns, file) =>
      if changed d dict_mtime_ns then
        d' = {| path := path d;
                pronunciations :=
                  fst (read_pronunciations file (pronunciations d));
                mtime_ns := Some dict_mtime_ns |}
      else d' = d
  end.

(** The pronunciations of a word in a dict, none when the word is not in
    it. *)
Definition prons (p : PronunciationsType) (word : string)
  : list (list string) :=
  default [] (p !! word).

End Train.

(** ** Construction of the service *)

(** [AsrHermesMqtt.__init__], for the fields above: a fixed port is taken
    (from [utils.get_free_port()], here [free_port]) unless transcribers are
    reused, the timeout of the wait for a result is 20 seconds, there is no
    reason to be disabled, no session and no free transcriber. *)
Definition init {T R : Type}
  (transcriber_factory : option Z -> outcome (option T))
  (recorder_factory : outcome R)
  (maybe_convert_wav : bytes -> outcome bytes)
  (to_wav_bytes : bytes -> bytes)
  (reuse_transcribers : bool) (free_port : Z)
  (sample_rate sample_width channels : Z) (lang : option string)
  (enabled : bool)
  : AsrHermesMqtt T R :=
  {| transcriber_factory := transcriber_factory;
     recorder_factory := recorder_factory;
     maybe_convert_wav := maybe_convert_wav;
     to_wav_bytes := to_wav_bytes;
     reuse_transcribers := reuse_transcribers;
     kaldi_port := if reuse_transcribers then None else Some free_port;
     session_result_timeout := 20;
     sample_rate := sample_rate;
     sample_width := sample_width;
     channels := channels;
     lang := lang;
     enabled := enabled;
     disabled_reasons := [];
     sessions := [];
     free_transcribers := [];
     first_audio := true;
     heap := [] |}.

(** ** A small recognizer and silence detector, to run the service on
    concrete inputs *)

Module Demo.

Definition word (w : string) : TranscriptionToken :=
  {| token := w; start_time := 0%Q; end_time := 1%Q; tok_likelihood := 1%Q |}.

Definition go_home : Transcription :=
  {| text := "go home"; likelihood := 1%Q; transcribe_seconds := 0%Q;
     wav_seconds := 2%Q; tokens := Some [word "go"; word "home"] |}.

(** The recognizer hears "go home" in any utterance that has audio, and
    nothing in an utterance without frames. *)
#[global] Instance transcriber : Transcriber unit := {|
  transcribe_stream t frames _ _ _ :=
    (t, Returns (match frames with [] => None | _ :: _ => Some go_home end));
  transcriber_stop t := (t, Returns tt)
|}.

Definition command : VoiceCommand :=
  {| vc_result := SUCCESS; vc_audio_data := None |}.

(** The silence detector keeps the audio of the voice command. A chunk that
    starts with a zero byte is silence: it is not kept, and it ends the
    command. A chunk that starts with byte 255 is rejected. [stop] returns
    the audio kept and clears it. *)
#[global] Instance recorder : VoiceCommandRecorder bytes := {|
  recorder_start r := ([], Returns tt);
  recorder_stop r := ([], Returns r);
  process_chunk r chunk :=
    match chunk with
    | Byte.x00 :: _ => (r, Returns (Some command))
    | Byte.xff :: _ => (r, Raises (Error "bad chunk"))
    | _ => (r ++ chunk, Returns None)
    end
|}.

(** A service whose frames are raw audio already and whose clips are the
    raw audio. *)
Definition service (reuse : bool) : AsrHermesMqtt unit bytes :=
  init (fun _ => Returns (Some tt)) (Returns []) (fun b => Returns b)
    (fun b => b) reuse 5000 16000 2 1 None true.

Definition start (site session : string) (silence audio : bool)
  : AsrStartListening :=
  {| sl_site_id := site; sl_session_id := Some session; sl_lang := None;
     stop_on_silence := silence; send_audio_captured := audio |}.

Definition stop (site session : string) : AsrStopListening :=
  {| st_site_id := site; st_session_id := Some session |}.

(** Frames as they come from the microphone of site "kitchen". *)
Definition speech1 : bytes := [Byte.x01; Byte.x02].
Definition speech2 : bytes := [Byte.x03; Byte.x04].
Definition silence : bytes := [Byte.x00; Byte.x00].

(** A message from the broker, for site "kitchen"; the workers make at most
    [n] steps during each wait. *)
Definition receive (self : AsrHermesMqtt unit bytes) (message : incoming)
  (n : nat) : list (Message unit) * AsrHermesMqtt unit bytes :=
  step self (Receive message "kitchen" None n (fun _ => n)).

Definition frame (self : AsrHermesMqtt unit bytes) (b : bytes)
  : list (Message unit) * AsrHermesMqtt unit bytes :=
  receive self (AudioFrame b) 2.

(** Dictionary files are lists of entries, a word and its phonemes; the
    reader adds each entry to the pronunciations of its word. *)
Definition read_pronunciations (file : list (string * list string))
  (word_dict : PronunciationsType) : PronunciationsType * option exn :=
  (fold_left
     (fun d entry =>
        <[fst entry := default [] (d !! fst entry) ++ [snd entry]]> d)
     file word_dict,
   None).

(** Two dictionary files that both have the word "cat", and the path of a
    file that does not exist. *)
Definition fs (path : string) : option (Z * list (string * list string)) :=
  if String.eqb path "base.dict" then
    Some (1, [("cat", ["k"; "ae"; "t"]); ("dog", ["d"; "o"; "g"])])
  else if String.eqb path "extra.dict" then
    Some (2, [("cat", ["k"; "a"; "t"])])
  else None.

Definition base_dictionaries : list PronunciationDictionary :=
  [ {| path := "base.dict"; pronunciations := ∅; mtime_ns := None |};
    {| path := "missing.dict"; pronunciations := ∅; mtime_ns := None |};
    {| path := "extra.dict"; pronunciations := ∅; mtime_ns := None |} ].

(** A worker just created for a session, with frames queued. *)
Definition worker (frames : list (option bytes))
  : TranscriberInfo unit bytes :=
  Info.set_frame_queue frames
    (Info.set_ready_event true
       (Info.set_thread (Some Starting) (Info.new false))).

(** Without reuse: a session "s1" without silence detection, with the
    captured audio asked for, that has got one frame of speech. *)
Definition listening : AsrHermesMqtt unit bytes :=
  let self :=
    snd (receive (service false)
           (StartListening (start "kitchen" "s1" false true)) 0) in
  snd (frame self speech1).

(** Two sessions of the same site: "a" with silence detection, "b"
    without. *)
Definition two_sessions : AsrHermesMqtt unit bytes :=
  let self :=
    snd (receive (service false)
           (StartListening (start "kitchen" "a" true false)) 0) in
  snd (receive self (StartListening (start "kitchen" "b" false true)) 0).

(** A frame the silence detector rejects. *)
Definition noise : bytes := [Byte.xff; Byte.x01].

(** With transcribers reused: a first session "s1" with silence detection
    gets speech and is stopped, its worker goes back to the pool. *)
Definition after_first_session : AsrHermesMqtt unit bytes :=
  let self := service true in
  let self :=
    snd (receive self (StartListening (start "kitchen" "s1" true false)) 0) in
  let self := snd (frame self speech1) in
  snd (receive self (StopListening (stop "kitchen" "s1")) 2).

(** Then a second session "s2" is started without silence detection and
    with the captured audio asked for. *)
Definition second_session_started : AsrHermesMqtt unit bytes :=
  snd (receive after_first_session
         (StartListening (start "kitchen" "s2" false true)) 0).

(** The second session gets speech, then silence, then speech again, and is
    stopped: the messages each step yields. *)
Definition second_session_messages : list (list (Message unit)) :=
  let self := second_session_started in
  let '(m1, self) := frame self speech1 in
  let '(m2, self) := frame self silence in
  let '(m3, self) := frame self speech2 in
  let '(m4, self) := receive self (StopListening (stop "kitchen" "s2")) 2 in
  [m1; m2; m3; m4].

(** The frames routed to the second session up to its finalize. *)
Definition second_session_audio : bytes := speech1 ++ silence.

End Demo.

(** ** Further definitions: the calls of a worker *)

Definition is_factory_call {T} (c : worker_call T) : bool :=
  match c with CallFactory => true | _ => false end.

Definition is_transcribe_call {T} (c : worker_call T) : bool :=
  match c with CallTranscribe _ _ => true | _ => false end.

Definition is_stop_call {T} (c : worker_call T) : bool :=
  match c with CallStop _ => true | _ => false end.

(** An entry of the frame queue that ends the stream: [None] or an empty
    frame. *)
Definition falsy_frame (f : option bytes) : bool :=
  match f with
  | None => true
  | Some b => negb (bytes_truthy b)
  end.

(** ** Further definitions: configuration and switch of the service *)

(** The fields of the service that are set at construction and by the toggle
    messages: two states with the same ones differ in the registry, the
    pool, the heap and [first_audio] only. *)
Definition same_config {T R} (self self' : AsrHermesMqtt T R) : Prop :=
  transcriber_factory self' = transcriber_factory self /\
  recorder_factory self' = recorder_factory self /\
  maybe_convert_wav self' = maybe_convert_wav self /\
  to_wav_bytes self' = to_wav_bytes self /\
  reuse_transcribers self' = reuse_transcribers self /\
  kaldi_port self' = kaldi_port self /\
  session_result_timeout self' = session_result_timeout self /\
  sample_rate self' = sample_rate self /\
  sample_width self' = sample_width self /\
  channels self' = channels self /\
  lang self' = lang self /\
  enabled self' = enabled self /\
  disabled_reasons self' = disabled_reasons self.

(** The audio messages. *)
Definition is_audio_message (message : incoming) : bool :=
  match message with
  | AudioFrame _ => true
  | AudioSessionFrame _ => true
  | _ => false
  end.

Definition is_audio_event (ev : event) : bool :=
  match ev with
  | Receive message _ _ _ _ => is_audio_message message
  | WorkerStep _ => false
  end.

(** The service is enabled only when no reason to be disabled is left. *)
Definition switch_ok {T R} (self : AsrHermesMqtt T R) : Prop :=
  (enabled self = true -> disabled_reasons self = []) /\
  NoDup (disabled_reasons self).

(** ** Further definitions: the registry, the pool and their workers *)

(** The objects the registry binds to sessions. *)
Definition session_refs {T R} (self : AsrHermesMqtt T R) : list ref :=
  map snd (sessions self).

(** The registry and the pool are well formed: a session id is registered
    once, no object is bound to two sessions or both bound to a session and
    in the pool, no object is in the pool twice, and every reference points
    into the heap. *)
Definition registry_ok {T R} (self : AsrHermesMqtt T R) : Prop :=
  NoDup (map fst (sessions self)) /\
  NoDup (session_refs self ++ free_transcribers self) /\
  Forall (fun r => (r < length (heap self))%nat)
    (session_refs self ++ free_transcribers self).

(** A worker as [stop_listening] leaves it when it puts it into the pool:
    reusable, with a transcriber, with nothing left of the session it
    served but its recorder, and not told to go. *)
Definition idle {T R} (info : TranscriberInfo T R) : Prop :=
  Info.ready_event info = false /\
  Info.frame_queue info = [] /\
  Info.result info = None /\
  Info.result_event info = false /\
  Info.result_sent info = false /\
  Info.start_listening info = None /\
  Info.audio_buffer info = None /\
  Info.reuse info = true /\
  Info.transcriber info <> None.

Definition pool_idle {T R} (self : AsrHermesMqtt T R) : Prop :=
  Forall (fun r => exists info, heap self !! r = Some info /\ idle info)
    (free_transcribers self).

(** An object that is still reusable has its result event set once the
    messages of its session were sent, and its ready event cleared once the
    result event is set (the thread has taken the utterance and waits for
    the next one). *)
Definition settled {T R} (info : TranscriberInfo T R) : Prop :=
  Info.reuse info = true ->
  (Info.result_sent info = true -> Info.result_event info = true) /\
  (Info.result_event info = true -> Info.ready_event info = false).

(** The invariants of the registry, the pool and the heap together. *)
Definition service_ok {T R} (self : AsrHermesMqtt T R) : Prop :=
  registry_ok self /\ pool_constructed self /\ pool_idle self /\
  Forall settled (heap self).

(** A session as [start_listening] leaves it: the start message is stored,
    the worker is told to go, no result is there and none was sent. *)
Definition fresh_session {T R} (message : AsrStartListening)
  (info : TranscriberInfo T R) : Prop :=
  Info.start_listening info = Some message /\
  Info.ready_event info = true /\
  Info.frame_queue info = [] /\
  Info.result info = None /\
  Info.result_event info = false /\
  Info.result_sent info = false.

(** ** Further definitions: the cache of the base dictionaries *)

(** The modification time [handle_train] has recorded for a dictionary is
    that of its file, when the file exists. *)
Definition up_to_date {F : Type} (fs : string -> option (Z * F))
  (d : PronunciationDictionary) : Prop :=
  match fs (path d) with
  | Some (dict_mtime_ns, _) => mtime_ns d = Some dict_mtime_ns
  | None => True
  end.

(** The merge of the loop of [handle_train] over dictionaries it does not
    read: the cached pronunciations of those whose file exists. *)
Definition merge_cached {F : Type} (fs : string -> option (Z * F))
  (base_dictionaries : list PronunciationDictionary)
  (acc : PronunciationsType) : PronunciationsType :=
  fold_left
    (fun a d => if on_disk fs d then extend_all a (pronunciations d) else a)
    base_dictionaries acc.

(** A reader that raises at an entry without phonemes, and keeps the
    entries read before it; and a dictionary file with such an entry. *)
Definition strict_reader (file : list (string * list string))
  (word_dict : PronunciationsType) : PronunciationsType * option exn :=
  fold_left
    (fun '(d, ex) entry =>
       match ex, snd entry with
       | Some _, _ => (d, ex)
       | None, [] => (d, Some (Error "no phonemes"))
       | None, _ :: _ =>
           (<[fst entry := default [] (d !! fst entry) ++ [snd entry]]> d,
            None)
       end)
    file (word_dict, None).

Definition broken_fs (path : string)
  : option (Z * list (string * list string)) :=
  if String.eqb path "base.dict" then
    Some (7, [("cat", ["k"; "ae"; "t"]); ("dog", [])])
  else None.

(** ** Further definitions: [handle_pronounce] *)

(** A pronunciation of the result: its phonemes, and whether it was
    guessed. *)
Record G2pPronunciation := {
  phonemes : list string;
  guessed : bool
}.

Record G2pPronounce := {
  pr_id : option string;
  pr_site_id : string;
  pr_session_id : option string;
  pr_words : list string;
  pr_num_guesses : Z
}.

(** What [handle_pronounce] yields. *)
Inductive G2pResult :=
| G2pPhonemes (word_phonemes : gmap string (list G2pPronunciation))
    (id : option string) (site_id : string) (session_id : option string)
| G2pError (error : string) (context : string) (site_id : string)
    (session_id : option string).

Section Pronounce.
(** The files that are there, with their content; the reader and the guesser
    of the package [rhasspynlu]; the word transformation and the g2p model
    the service is configured with, and the [context] of its error
    messages. The guesser gets the set of missing words, the model and the
    number of guesses; [g2p_word_transform] is part of it. *)
Context {F G : Type}.
Variable read_pronunciations :
  F -> PronunciationsType -> PronunciationsType * option exn.
Variable files : string -> option F.
Variable dictionary_word_transform : option (string -> string).
Variable g2p_model : option G.
Variable guess_pronunciations :
  gset string -> G -> Z -> outcome (list (string * list string)).
Variable context : string.

(** The loop over [self.base_dictionaries]: every file that is there is read
    into the one dict [pronunciations]. *)
Fixpoint pronounce_load (base_dictionaries : list PronunciationDictionary)
  (word_dict : PronunciationsType) : PronunciationsType * option exn :=
  match base_dictionaries with
  | [] => (word_dict, None)
  | base_dict :: rest =>
      match files (path base_dict) with
      | Some file =>
          let '(word_dict, ex) := read_pronunciations file word_dict in
          match ex with
          | Some e => (word_dict, Some e)
          | None => pronounce_load rest word_dict
          end
      | None => pronounce_load rest word_dict
      end
  end.

Definition transform_word (word : string) : string :=
  match dictionary_word_transform with
  | Some f => f word
  | None => word
  end.

Definition dictionary_pronunciation (p : list string) : G2pPronunciation :=
  {| phonemes := p; guessed := false |}.

Definition guessed_pronunciation (p : list string) : G2pPronunciation :=
  {| phonemes := p; guessed := true |}.

(** The body of the loop over [pronounce.words], on [result.word_phonemes]
    and [missing_words]. *)
Definition lookup_word (word_dict : PronunciationsType)
  (st : gmap string (list G2pPronunciation) * gset string) (word : string)
  : gmap string (list G2pPronunciation) * gset string :=
  let word := transform_word word in
  match word_dict !! word with
  | Some (p :: word_prons) =>
      (<[word := map dictionary_pronunciation (p :: word_prons)]> (fst st),
       snd st)
  | _ => (fst st, {[word]} ∪ snd st)
  end.

(** The look-up in the dictionary: when the dict is empty, all the words,
    as they are, must be guessed. *)
Definition lookup_words (word_dict : PronunciationsType)
  (words : list string)
  : gmap string (list G2pPronunciation) * gset string :=
  if bool_decide (word_dict = ∅) then (∅, list_to_set words)
  else fold_left (lookup_word word_dict) words (∅, ∅).

(** The body of the loop over the guesses. *)
Definition add_guess (word_phonemes : gmap string (list G2pPronunciation))
  (guess : string * list string) : gmap string (list G2pPronunciation) :=
  let '(guess_word, guess_phonemes) := guess in
  let result_phonemes :=
    match word_phonemes !! guess_word with
    | Some (x :: l) => x :: l
    | _ => []
    end in
  <[guess_word := result_phonemes ++ [guessed_pronunciation guess_phonemes]]>
    word_phonemes.

(** [handle_pronounce(pronounce)]: the one message it yields. *)
Definition handle_pronounce
  (base_dictionaries : list PronunciationDictionary)
  (pronounce : G2pPronounce) : G2pResult :=
  let error e :=
    G2pError (str_exn e) context (pr_site_id pronounce)
      (pr_session_id pronounce) in
  let result word_phonemes :=
    G2pPhonemes word_phonemes (pr_id pronounce) (pr_site_id pronounce)
      (pr_session_id pronounce) in
  let '(word_dict, ex) := pronounce_load base_dictionaries ∅ in
  match ex with
  | Some e => error e
  | None =>
      let '(word_phonemes, missing_words) :=
        lookup_words word_dict (pr_words pronounce) in
      if bool_decide (missing_words = ∅) then result word_phonemes
      else
        match g2p_model with
        | Some model =>
            match guess_pronunciations missing_words model
                    (pr_num_guesses pronounce) with
            | Returns guesses =>
                result (fold_left add_guess guesses word_phonemes)
            | Raises e => error e
            end
        | None => result word_phonemes
        end
  end.

(** The guesses handed to [handle_pronounce] for the words, when it calls
    the guesser. *)
Definition guesses_of (base_dictionaries : list PronunciationDictionary)
  (pronounce : G2pPronounce) : list (string * list string) :=
  let missing_words :=
    snd (lookup_words (fst (pronounce_load base_dictionaries ∅))
           (pr_words pronounce)) in
  if bool_decide (missing_words = ∅) then []
  else
    match g2p_model with
    | Some model =>
        match guess_pronunciations missing_words model
                (pr_num_guesses pronounce) with
        | Returns guesses => guesses
        | Raises _ => []
        end
    | None => []
    end.

(** The phonemes guessed for a word, in the order of the guesses. *)
Definition guesses_for (word : string)
  (guesses : list (string * list string)) : list (list string) :=
  map snd (List.filter (fun g => String.eqb (fst g) word) guesses).

(** Whether a word is, after the transformation, among those asked for. *)
Definition requested (words : list string) (word : string) : bool :=
  existsb (fun x => String.eqb (transform_word x) word) words.

End Pronounce.

(** A guesser that has one guess for every missing word, and a service
    whose dictionary files are those of the demo. *)
Definition demo_guesser (missing_words : gset string) (model : unit)
  (n : Z) : outcome (list (string * list string)) :=
  Returns (map (fun w => (w, [w])) (elements missing_words)).

Definition demo_files (path : string) : option (list (string * list string)) :=
  snd <$> Demo.fs path.

Definition demo_pronounce : G2pPronounce :=
  {| pr_id := None; pr_site_id := "kitchen"; pr_session_id := None;
     pr_words := ["cat"; "bird"]; pr_num_guesses := 1 |}.

(** * Properties *)

(** ** Token character ranges *)

Lemma asr_tokens_loop_lookup (toks : list TranscriptionToken) :
  forall (start : Z) (i : nat) (tok : TranscriptionToken),
    toks !! i = Some tok ->
    asr_tokens_loop start toks !! i =
      Some {| value := token tok;
              confidence := tok_likelihood tok;
              range_start := start + width_sum (take i toks);
              range_end := start + width_sum (take i toks) + len (token tok) + 1;
              time := Some {| att_start := start_time tok;
                              att_end := end_time tok |} |}.
Proof.
  induction toks as [|x toks IH]; intros start i tok Hi.
  - discriminate.
  - destruct i as [|i]; cbn in Hi |- *.
    + injection Hi as ->. rewrite Z.add_0_r. reflexivity.
    + rewrite (IH _ _ _ Hi). fold (width_sum (take i toks)).
      rewrite !Z.add_assoc. reflexivity.
Qed.

Lemma asr_tokens_loop_length (toks : list TranscriptionToken) (start : Z) :
  length (asr_tokens_loop start toks) = length toks.
Proof.
  revert start; induction toks as [|x toks IH]; intros start; cbn; auto.
Qed.

(** C4. When the transcription has tokens, the message carries one level of
    tokens, as many as the recognizer returned; token [i] has the word of the
    recognizer's token [i], its [range_start] is the sum of [len(word) + 1]
    over the tokens before it (so 0 for the first) and its [range_end] is
    [range_start + len(word) + 1]; for the words "go" and "home" the ranges
    are (0, 3) and (3, 8). *)
Theorem asr_token_ranges :
  (forall (t : Transcription) (toks : list TranscriptionToken) (i : nat)
          (tok : TranscriptionToken),
      tokens t = Some toks ->
      toks !! i = Some tok ->
      exists inner a,
        asr_tokens_of t = Some [inner] /\
        length inner = length toks /\
        inner !! i = Some a /\
        value a = token tok /\
        range_start a = width_sum (take i toks) /\
        range_end a = range_start a + len (token tok) + 1)
  /\ (forall (s1 e1 l1 s2 e2 l2 : float),
        map (fun a => (value a, range_start a, range_end a))
          (asr_tokens_loop 0
             [ {| token := "go"; start_time := s1; end_time := e1;
                  tok_likelihood := l1 |};
               {| token := "home"; start_time := s2; end_time := e2;
                  tok_likelihood := l2 |} ])
        = [("go", 0, 3); ("home", 3, 8)]).
Proof.
  split.
  - intros t toks i tok Ht Hi.
    exists (asr_tokens_loop 0 toks).
    eexists. split; [|split; [|split]].
    + unfold asr_tokens_of. rewrite Ht.
      destruct toks; [discriminate Hi | reflexivity].
    + apply asr_tokens_loop_length.
    + apply asr_tokens_loop_lookup, Hi.
    + cbn. repeat split; lia.
  - intros. reflexivity.
Qed.

(** The ranges of the transcription "go home" of the demo recognizer. *)
Lemma asr_token_ranges_witness :
  exists inner a,
    asr_tokens_of Demo.go_home = Some [inner] /\
    length inner = 2%nat /\
    inner !! 1%nat = Some a /\
    value a = "home" /\
    range_start a = 3 /\
    range_end a = 8.
Proof.
  destruct (proj1 asr_token_ranges Demo.go_home
              [Demo.word "go"; Demo.word "home"] 1%nat (Demo.word "home")
              eq_refl eq_refl)
    as (inner & a & H1 & H2 & H3 & H4 & H5 & H6).
  exists inner, a. rewrite H6, H5. repeat split; assumption.
Defined.

(** ** The worker thread *)

Section WorkerFacts.
Context {T R : Type} `{Transcriber T}.
Implicit Type self : AsrHermesMqtt T R.
Implicit Type info : TranscriberInfo T R.

(** What the [except] clause leaves. *)
Lemma session_proc_except_spec info :
  let '(info', calls) := session_proc_except info in
  Info.reuse info' = false /\
  Info.transcriber info' = None /\
  Info.result info' = Some empty_transcription /\
  Info.result_event info' = true /\
  Info.thread info' = Some Exited /\
  calls = match Info.transcriber info with
          | Some t => [CallStop t]
          | None => []
          end /\
  Info.recorder info' = Info.recorder info /\
  Info.audio_buffer info' = Info.audio_buffer info /\
  Info.result_sent info' = Info.result_sent info /\
  Info.start_listening info' = Info.start_listening info /\
  Info.frame_queue info' = Info.frame_queue info /\
  Info.ready_event info' = Info.ready_event info.
Proof. cbn. repeat split; reflexivity. Qed.

Lemma decode_failure_spec info t t' frames rest :
  let '(info', calls) := decode_failure info t t' frames rest in
  Info.reuse info' = false /\
  Info.transcriber info' = None /\
  Info.result info' = Some empty_transcription /\
  Info.result_event info' = true /\
  Info.thread info' = Some Exited /\
  calls = [CallTranscribe t frames; CallStop t'].
Proof. cbn. repeat split; reflexivity. Qed.

Lemma transcribe_cycle_raises self info t frames rest t' e :
  transcribe_stream t frames (sample_rate self) (sample_width self)
    (channels self) = (t', Raises e) ->
  transcribe_cycle self info t frames rest
  = decode_failure info t t' frames rest.
Proof. intros E. unfold transcribe_cycle. rewrite E. reflexivity. Qed.

Lemma transcribe_cycle_null self info t frames rest t' :
  transcribe_stream t frames (sample_rate self) (sample_width self)
    (channels self) = (t', Returns None) ->
  transcribe_cycle self info t frames rest
  = decode_failure info t t' frames rest.
Proof. intros E. unfold transcribe_cycle. rewrite E. reflexivity. Qed.

Lemma transcribe_cycle_empty_text self info t frames rest t' res :
  transcribe_stream t frames (sample_rate self) (sample_width self)
    (channels self) = (t', Returns (Some res)) ->
  text res = "" ->
  transcribe_cycle self info t frames rest
  = decode_failure info t t' frames rest.
Proof.
  intros E Ht. unfold transcribe_cycle. rewrite E, Ht. reflexivity.
Qed.

(** A decode that returns a transcription with text. *)
Lemma transcribe_cycle_success self info t frames rest t' res :
  transcribe_stream t frames (sample_rate self) (sample_width self)
    (channels self) = (t', Returns (Some res)) ->
  str_truthy (text res) = true ->
  let '(info', calls) := transcribe_cycle self info t frames rest in
  Info.result info' = Some res /\
  Info.result_event info' = true /\
  Info.reuse info' = Info.reuse info /\
  Info.transcriber info' <> None /\
  Info.thread info' =
    (if reuse_transcribers self then Info.thread info else Some Exited) /\
  calls = CallTranscribe t frames ::
            (if reuse_transcribers self then [] else [CallStop t']).
Proof.
  intros E Ht. unfold transcribe_cycle. rewrite E, Ht.
  destruct (reuse_transcribers self); cbn.
  - repeat split; congruence.
  - destruct (transcriber_stop t') as [t'' o]. cbn. repeat split; congruence.
Qed.

(** The fields of [info] the worker never writes. *)
Lemma transcribe_proc_step_frame self info :
  let info' := fst (transcribe_proc_step self info) in
  Info.recorder info' = Info.recorder info /\
  Info.audio_buffer info' = Info.audio_buffer info /\
  Info.result_sent info' = Info.result_sent info /\
  Info.start_listening info' = Info.start_listening info.
Proof.
  unfold transcribe_proc_step.
  destruct (Info.thread info) as [[| |]|]; cbn; auto.
  - destruct (transcriber_factory self (kaldi_port self)) as [[t|]|e];
      cbn; auto.
  - destruct (Info.ready_event info); cbn; auto.
    destruct (Info.transcriber info) as [t|]; cbn; auto.
    destruct (audio_stream (Info.frame_queue info)) as [[frames rest]|];
      cbn; auto.
    unfold transcribe_cycle.
    destruct (transcribe_stream _ _ _ _ _) as [t' [[res|]|e]]; cbn; auto.
    destruct (str_truthy (text res)); cbn; auto.
    destruct (reuse_transcribers self); cbn; auto.
    destruct (transcriber_stop t'); cbn; auto.
Qed.

(** The worker sets [info.reuse] to [False] only, and sets the result event
    only. *)
Lemma transcribe_proc_step_mono self info :
  let info' := fst (transcribe_proc_step self info) in
  (Info.reuse info = false -> Info.reuse info' = false) /\
  (Info.result_event info = true -> Info.result_event info' = true).
Proof.
  unfold transcribe_proc_step.
  destruct (Info.thread info) as [[| |]|]; cbn; auto.
  - destruct (transcriber_factory self (kaldi_port self)) as [[t|]|e];
      cbn; auto.
  - destruct (Info.ready_event info); cbn; auto.
    destruct (Info.transcriber info) as [t|]; cbn; auto.
    destruct (audio_stream (Info.frame_queue info)) as [[frames rest]|];
      cbn; auto.
    unfold transcribe_cycle.
    destruct (transcribe_stream _ _ _ _ _) as [t' [[res|]|e]]; cbn; auto.
    destruct (str_truthy (text res)); cbn; auto.
    destruct (reuse_transcribers self); cbn; auto.
    destruct (transcriber_stop t'); cbn; auto.
Qed.

(** A step that makes the thread return has set the result event. *)
Lemma transcribe_proc_step_exit self info :
  Info.thread info <> Some Exited ->
  Info.thread (fst (transcribe_proc_step self info)) = Some Exited ->
  Info.result_event (fst (transcribe_proc_step self info)) = true.
Proof.
  unfold transcribe_proc_step.
  destruct (Info.thread info) as [[| |]|] eqn:Et; cbn; try congruence.
  - destruct (transcriber_factory self (kaldi_port self)) as [[t|]|e];
      cbn; auto; congruence.
  - destruct (Info.ready_event info); cbn; [|congruence].
    destruct (Info.transcriber info) as [t|]; cbn; auto.
    destruct (audio_stream (Info.frame_queue info)) as [[frames rest]|];
      cbn; [|congruence].
    unfold transcribe_cycle.
    destruct (transcribe_stream _ _ _ _ _) as [t' [[res|]|e]]; cbn; auto.
    destruct (str_truthy (text res)); cbn; auto.
    destruct (reuse_transcribers self); cbn; auto.
    destruct (transcriber_stop t'); cbn; auto.
Qed.

(** A thread that has returned does nothing more. *)
Lemma transcribe_proc_step_exited self info :
  Info.thread info = Some Exited ->
  transcribe_proc_step self info = (info, []).
Proof. intros E. unfold transcribe_proc_step. rewrite E. reflexivity. Qed.

Lemma transcribe_proc_run_exited self n info :
  Info.thread info = Some Exited ->
  transcribe_proc_run self n info = (info, []).
Proof.
  intros E. induction n as [|n IH]; cbn.
  - reflexivity.
  - rewrite (transcribe_proc_step_exited self info E), IH. reflexivity.
Qed.

Lemma transcribe_proc_run_exit self n :
  forall info,
    Info.thread info <> Some Exited ->
    Info.thread (fst (transcribe_proc_run self n info)) = Some Exited ->
    Info.result_event (fst (transcribe_proc_run self n info)) = true.
Proof.
  induction n as [|n IH]; intros info Hlive Hexit; cbn in *.
  - congruence.
  - pose proof (transcribe_proc_step_exit self info Hlive) as P.
    destruct (transcribe_proc_step self info) as [info1 c1] eqn:E1.
    cbn in P.
    destruct (decide (Info.thread info1 = Some Exited)) as [Hx|Hx].
    + rewrite (transcribe_proc_run_exited self n info1 Hx). cbn. auto.
    + specialize (IH info1 Hx).
      destruct (transcribe_proc_run self n info1) as [info2 c2].
      cbn in *. auto.
Qed.

End WorkerFacts.

Section WorkerClaims.
Context {T R : Type} `{Transcriber T}.
Implicit Type self : AsrHermesMqtt T R.
Implicit Type info : TranscriberInfo T R.

(** C8. The worker sets the result event on every path that leaves
    [transcribe_proc]: whenever a thread that had not returned has returned
    after some steps, the event is set. A decode that returns a transcription
    with text stores it and sets the event. A failed construction (the
    factory raises or returns nothing) and a decode that raises both run the
    [except] clause: the worker is marked not reusable, the transcriber is
    stopped when there is one and cleared, the empty transcription is stored,
    the event is set and the thread returns. *)
Theorem worker_sets_result_event self :
  (forall n info,
      Info.thread info <> Some Exited ->
      Info.thread (fst (transcribe_proc_run self n info)) = Some Exited ->
      Info.result_event (fst (transcribe_proc_run self n info)) = true)
  /\ (forall info t frames rest t' res,
        transcribe_stream t frames (sample_rate self) (sample_width self)
          (channels self) = (t', Returns (Some res)) ->
        str_truthy (text res) = true ->
        let info' := fst (transcribe_cycle self info t frames rest) in
        Info.result info' = Some res /\ Info.result_event info' = true)
  /\ (forall info,
        Info.thread info = Some Starting ->
        Info.transcriber info = None ->
        (transcriber_factory self (kaldi_port self) = Returns None \/
         exists e, transcriber_factory self (kaldi_port self) = Raises e) ->
        let '(info', calls) := transcribe_proc_step self info in
        Info.reuse info' = false /\
        Info.transcriber info' = None /\
        Info.result info' = Some empty_transcription /\
        Info.result_event info' = true /\
        Info.thread info' = Some Exited /\
        calls = [CallFactory])
  /\ (forall info t frames rest t' e,
        Info.thread info = Some WaitingReady ->
        Info.ready_event info = true ->
        Info.transcriber info = Some t ->
        audio_stream (Info.frame_queue info) = Some (frames, rest) ->
        transcribe_stream t frames (sample_rate self) (sample_width self)
          (channels self) = (t', Raises e) ->
        let '(info', calls) := transcribe_proc_step self info in
        Info.reuse info' = false /\
        Info.transcriber info' = None /\
        Info.result info' = Some empty_transcription /\
        Info.result_event info' = true /\
        Info.thread info' = Some Exited /\
        calls = [CallTranscribe t frames; CallStop t']).
Proof.
  split; [|split; [|split]].
  - intros n info. apply transcribe_proc_run_exit.
  - intros info t frames rest t' res E Ht.
    pose proof (transcribe_cycle_success self info t frames rest t' res E Ht)
      as P.
    destruct (transcribe_cycle self info t frames rest) as [info' calls].
    cbn. tauto.
  - intros info Et En Hf. unfold transcribe_proc_step. rewrite Et.
    destruct Hf as [-> | [e ->]]; cbn; rewrite ?En; repeat split; reflexivity.
  - intros info t frames rest t' e Et Er En Ea E.
    unfold transcribe_proc_step. rewrite Et, Er, En, Ea.
    rewrite (transcribe_cycle_raises self info t frames rest t' e E).
    apply decode_failure_spec.
Qed.

(** C10. A decode that returns no transcription, or one whose text is empty,
    ends as a decode that raises does: the worker is left in the very state a
    raising decode would leave it in, that is marked not reusable, with the
    transcriber stopped and cleared, the empty transcription as result, the
    result event set and the thread returned, so that no later step of the
    worker does anything. *)
Theorem null_transcription_is_failure self info (t t' : T)
  (frames : list bytes) (rest : list (option bytes))
  (r : option Transcription) :
  transcribe_stream t frames (sample_rate self) (sample_width self)
    (channels self) = (t', Returns r) ->
  (r = None \/ exists res, r = Some res /\ text res = "") ->
  let '(info', calls) := transcribe_cycle self info t frames rest in
  Info.reuse info' = false /\
  Info.transcriber info' = None /\
  Info.result info' = Some empty_transcription /\
  Info.result_event info' = true /\
  Info.thread info' = Some Exited /\
  calls = [CallTranscribe t frames; CallStop t'] /\
  (forall n, transcribe_proc_run self n info' = (info', [])) /\
  (forall (t2 : T) (e : exn),
      transcribe_stream t2 frames (sample_rate self) (sample_width self)
        (channels self) = (t', Raises e) ->
      fst (transcribe_cycle self info t2 frames rest) = info').
Proof.
  intros E Hr.
  assert (Hc : transcribe_cycle self info t frames rest
               = decode_failure info t t' frames rest).
  { destruct Hr as [-> | (res & -> & Ht)].
    - apply transcribe_cycle_null, E.
    - eapply transcribe_cycle_empty_text; eauto. }
  rewrite Hc.
  pose proof (decode_failure_spec info t t' frames rest) as P.
  destruct (decode_failure info t t' frames rest) as [info' calls] eqn:Ed.
  destruct P as (P1 & P2 & P3 & P4 & P5 & P6).
  repeat split; auto.
  - intros n. apply transcribe_proc_run_exited, P5.
  - intros t2 e E2.
    rewrite (transcribe_cycle_raises self info t2 frames rest t' e E2).
    unfold decode_failure in *. cbn in *. congruence.
Qed.

End WorkerClaims.

(** Without reuse of transcribers, the demo worker has returned after its
    construction and one decode, and the result event is set. *)
Lemma worker_sets_result_event_witness :
  Info.thread
    (fst (transcribe_proc_run (Demo.service false) 2
            (Demo.worker [Some Demo.speech1; None]))) = Some Exited /\
  Info.result_event
    (fst (transcribe_proc_run (Demo.service false) 2
            (Demo.worker [Some Demo.speech1; None]))) = true.
Proof.
  split.
  - reflexivity.
  - apply (proj1 (worker_sets_result_event (Demo.service false)) 2%nat
             (Demo.worker [Some Demo.speech1; None])).
    + discriminate.
    + reflexivity.
Defined.

(** The demo recognizer returns nothing for an utterance without frames:
    the worker is retired. *)
Lemma null_transcription_is_failure_witness :
  let '(info', calls) :=
    transcribe_cycle (Demo.service true)
      (Info.set_transcriber (Some tt)
         (Info.set_thread (Some WaitingReady) (Demo.worker [None])))
      tt [] [] in
  Info.reuse info' = false /\
  Info.transcriber info' = None /\
  Info.result info' = Some empty_transcription /\
  Info.result_event info' = true /\
  Info.thread info' = Some Exited /\
  calls = [CallTranscribe tt []; CallStop tt].
Proof.
  pose proof (null_transcription_is_failure (Demo.service true)
                (Info.set_transcriber (Some tt)
                   (Info.set_thread (Some WaitingReady) (Demo.worker [None])))
                tt tt [] [] None eq_refl (or_introl eq_refl)) as P.
  destruct (transcribe_cycle _ _ _ _ _) as [info' calls].
  destruct P as (P1 & P2 & P3 & P4 & P5 & P6 & _).
  repeat split; assumption.
Defined.

(** ** Finalization of a session *)

Section FinalizeFacts.
Context {T R : Type} `{Transcriber T} `{VoiceCommandRecorder R}.
Implicit Type self : AsrHermesMqtt T R.
Implicit Type info : TranscriberInfo T R.

(** The wait returns whether the event is set when it ends; the worker that
    runs meanwhile leaves the session's fields alone and never makes the
    object reusable again. *)
Lemma wait_result_event_spec self n :
  forall info,
    let '(b, info') := wait_result_event self n info in
    b = Info.result_event info' /\
    Info.recorder info' = Info.recorder info /\
    Info.audio_buffer info' = Info.audio_buffer info /\
    Info.result_sent info' = Info.result_sent info /\
    Info.start_listening info' = Info.start_listening info /\
    (Info.reuse info = false -> Info.reuse info' = false).
Proof.
  induction n as [|n IH]; intros info; cbn.
  - destruct (Info.result_event info) eqn:E; cbn; rewrite ?E; tauto.
  - destruct (Info.result_event info) eqn:E; cbn; rewrite ?E; [tauto|].
    specialize (IH (fst (transcribe_proc_step self info))).
    destruct (wait_result_event self n (fst (transcribe_proc_step self info)))
      as [b info'].
    pose proof (transcribe_proc_step_frame self info) as (F1 & F2 & F3 & F4).
    pose proof (transcribe_proc_step_mono self info) as (M1 & _).
    destruct IH as (I0 & I1 & I2 & I3 & I4 & I5).
    repeat split; try congruence. auto.
Qed.

(** The wait does not depend on the registry, the pool or the heap. *)
Lemma transcribe_proc_step_config self self' info :
  transcriber_factory self' = transcriber_factory self ->
  kaldi_port self' = kaldi_port self ->
  reuse_transcribers self' = reuse_transcribers self ->
  sample_rate self' = sample_rate self ->
  sample_width self' = sample_width self ->
  channels self' = channels self ->
  transcribe_proc_step self' info = transcribe_proc_step self info.
Proof.
  intros E1 E2 E3 E4 E5 E6.
  unfold transcribe_proc_step, transcribe_cycle.
  rewrite E1, E2, E3, E4, E5, E6. reflexivity.
Qed.

Lemma wait_result_event_config self self' n :
  transcriber_factory self' = transcriber_factory self ->
  kaldi_port self' = kaldi_port self ->
  reuse_transcribers self' = reuse_transcribers self ->
  sample_rate self' = sample_rate self ->
  sample_width self' = sample_width self ->
  channels self' = channels self ->
  forall info,
    wait_result_event self' n info = wait_result_event self n info.
Proof.
  intros E1 E2 E3 E4 E5 E6.
  induction n as [|n IH]; intros info; cbn; [reflexivity|].
  rewrite (transcribe_proc_step_config self self' info E1 E2 E3 E4 E5 E6).
  rewrite IH. reflexivity.
Qed.

(** All the ways [finish_session] ends. *)
Lemma finish_session_cases self info site_id session_id n :
  let '(results, info', ex) :=
    finish_session self info site_id session_id n in
  Info.start_listening info' = Info.start_listening info /\
  Info.audio_buffer info' = Info.audio_buffer info /\
  (Info.reuse info = false -> Info.reuse info' = false) /\
  (Info.recorder info = None -> Info.recorder info' = None) /\
  match session_audio info with
  | Raises e =>
      results = [] /\ ex = Some e /\
      Info.result_sent info' = Info.result_sent info
  | Returns audio_data =>
      if Info.result_sent info then
        results = [] /\ ex = None /\ Info.result_sent info' = true
      else
        Info.result_sent info' = true /\
        (Info.result_event info' = false -> Info.reuse info' = false) /\
        match Info.start_listening info with
        | None =>
            results = [AsrRecordingFinished site_id session_id] /\
            ex = Some (AssertionError "")
        | Some sl =>
            results =
              [AsrRecordingFinished site_id session_id;
               text_captured self (Info.result info') sl site_id session_id]
              ++ audio_captured self sl audio_data site_id session_id /\
            ex = None
        end
  end.
Proof.
  unfold finish_session, session_audio.
  destruct (Info.recorder info) as [r|] eqn:Er.
  - destruct (recorder_stop r) as [r' [audio_data|e]] eqn:Es; cbn.
    + destruct (Info.result_sent info) eqn:Ers; cbn.
      * repeat split; auto. discriminate.
      * match goal with |- context [wait_result_event self n ?i] =>
          pose proof (wait_result_event_spec self n i) as W;
          destruct (wait_result_event self n i) as [b info1]
        end.
        cbn in W. destruct W as (W0 & W1 & W2 & W3 & W4 & W5).
        destruct b; cbn.
        -- rewrite W4.
           destruct (Info.start_listening info) as [sl|]; cbn;
             repeat split; auto; congruence.
        -- rewrite W4.
           destruct (Info.start_listening info) as [sl|]; cbn;
             repeat split; auto; congruence.
    + repeat split; auto. discriminate.
  - destruct (Info.audio_buffer info) as [buf|] eqn:Eb; cbn.
    + destruct (Info.result_sent info) eqn:Ers; cbn.
      * repeat split; auto.
      * match goal with |- context [wait_result_event self n ?i] =>
          pose proof (wait_result_event_spec self n i) as W;
          destruct (wait_result_event self n i) as [b info1]
        end.
        cbn in W. destruct W as (W0 & W1 & W2 & W3 & W4 & W5).
        destruct b; cbn.
        -- rewrite W4.
           destruct (Info.start_listening info) as [sl|]; cbn;
             repeat split; auto; congruence.
        -- rewrite W4.
           destruct (Info.start_listening info) as [sl|]; cbn;
             repeat split; auto; congruence.
    + repeat split; auto.
Qed.

End FinalizeFacts.

Section OnceFacts.
Context {T R : Type} `{Transcriber T} `{VoiceCommandRecorder R}.
Implicit Type self : AsrHermesMqtt T R.
Implicit Type info : TranscriberInfo T R.

Lemma count_app {A} (p : A -> bool) (l1 l2 : list A) :
  count p (l1 ++ l2) = (count p l1 + count p l2)%nat.
Proof. unfold count. rewrite List.filter_app, length_app. reflexivity. Qed.

(** What [finish_session] yields, counted. *)
Lemma finish_session_counts self info site_id session_id n :
  let '(results, info', ex) :=
    finish_session self info site_id session_id n in
  (Info.result_sent info = true ->
   results = [] /\ Info.result_sent info' = true) /\
  (Info.result_sent info = false -> ex = None ->
   count is_recording_finished results = 1%nat /\
   count is_text_captured results = 1%nat /\
   Info.result_sent info' = true) /\
  (count is_recording_finished results <= 1)%nat /\
  (count is_text_captured results <= 1)%nat /\
  (Info.result_sent info' = false -> results = []) /\
  count is_error results = 0%nat.
Proof.
  pose proof (finish_session_cases self info site_id session_id n) as C.
  destruct (finish_session self info site_id session_id n)
    as [[results info'] ex].
  destruct C as (_ & _ & _ & _ & C).
  destruct (session_audio info) as [audio_data|e].
  - destruct (Info.result_sent info) eqn:Ers.
    + destruct C as (-> & -> & C3). cbn. repeat split; auto; discriminate.
    + destruct C as (C1 & _ & C).
      destruct (Info.start_listening info) as [sl|].
      * destruct C as (-> & ->). unfold audio_captured, text_captured.
        destruct (send_audio_captured sl), (Info.result info'); cbn;
          repeat split; auto; congruence.
      * destruct C as (-> & ->). cbn. repeat split; auto; congruence.
  - destruct C as (-> & -> & C3). cbn.
    repeat split; auto; try discriminate. congruence.
Qed.

(** A frame routed to the session either yields nothing and leaves
    [result_sent] as it is, or ends in [finish_session]. *)
Lemma route_frame_cases self info audio_data site_id target_id n :
  (exists info1,
      fst (fst (route_frame self info audio_data site_id target_id n)) = [] /\
      snd (fst (route_frame self info audio_data site_id target_id n)) = info1
      /\ Info.result_sent info1 = Info.result_sent info /\
      Info.reuse info1 = Info.reuse info /\
      Info.start_listening info1 = Info.start_listening info)
  \/ (exists info1,
      route_frame self info audio_data site_id target_id n
      = finish_session self info1 site_id target_id n /\
      Info.result_sent info1 = Info.result_sent info /\
      Info.reuse info1 = Info.reuse info /\
      Info.start_listening info1 = Info.start_listening info /\
      Info.recorder info <> None).
Proof.
  unfold route_frame.
  destruct (Info.start_listening info) as [sl|] eqn:Esl.
  - destruct (negb (String.eqb (sl_site_id sl) site_id)).
    + left. eexists. cbn. repeat split; auto.
    + cbn. destruct (Info.recorder info) as [r|] eqn:Er.
      * destruct (process_chunk r audio_data) as [r' [[c|]|e]].
        -- right. eexists. split; [reflexivity|]. cbn.
           repeat split; auto.
        -- left. eexists. cbn. repeat split; auto.
        -- left. eexists. cbn. repeat split; auto.
      * destruct (Info.audio_buffer info) as [b|].
        -- left. eexists. cbn. repeat split; auto.
        -- left. eexists. cbn. repeat split; auto.
  - left. eexists. cbn. repeat split; auto.
Qed.

(** One event in the life of a session yields the recording-finished and
    the text-captured message at most once, and none once [result_sent] is
    set; [result_sent] stays set, and is set when a message was yielded. *)
Lemma session_step_once self session_id ev info :
  let '(results, info') := session_step self session_id ev info in
  (Info.result_sent info = true ->
   count is_recording_finished results = 0%nat /\
   count is_text_captured results = 0%nat /\
   Info.result_sent info' = true) /\
  (count is_recording_finished results <= 1)%nat /\
  (count is_text_captured results <= 1)%nat /\
  (Info.result_sent info' = false ->
   count is_recording_finished results = 0%nat /\
   count is_text_captured results = 0%nat).
Proof.
  assert (Fin : forall info1 site_id n,
    Info.result_sent info1 = Info.result_sent info ->
    let '(results, info', ex) :=
      finish_session self info1 site_id session_id n in
    let results' :=
      match ex with
      | None => results
      | Some e =>
          results ++
            [AsrError (str_exn e) (ReprTranscriber (Info.transcriber info'))
               site_id session_id]
      end in
    (Info.result_sent info = true ->
     count is_recording_finished results' = 0%nat /\
     count is_text_captured results' = 0%nat /\
     Info.result_sent info' = true) /\
    (count is_recording_finished results' <= 1)%nat /\
    (count is_text_captured results' <= 1)%nat /\
    (Info.result_sent info' = false ->
     count is_recording_finished results' = 0%nat /\
     count is_text_captured results' = 0%nat)).
  { intros info1 site_id n E1.
    pose proof (finish_session_counts self info1 site_id session_id n) as C.
    destruct (finish_session self info1 site_id session_id n)
      as [[results info'] ex].
    destruct C as (C1 & _ & C3 & C4 & C5 & _). rewrite E1 in C1.
    assert (Hc : forall p : Message T -> bool,
      (forall a b c d, p (AsrError a b c d) = false) ->
      count p (match ex with
               | None => results
               | Some e =>
                   results ++
                     [AsrError (str_exn e)
                        (ReprTranscriber (Info.transcriber info'))
                        site_id session_id]
               end) = count p results).
    { intros p Hp. destruct ex; [|reflexivity].
      rewrite count_app. unfold count at 2. cbn. rewrite Hp. cbn. lia. }
    cbn zeta. rewrite !Hc by reflexivity.
    repeat split; auto.
    - destruct (C1 H1) as (-> & _). reflexivity.
    - destruct (C1 H1) as (-> & _). reflexivity.
    - apply C1, H1.
    - rewrite (C5 H1). reflexivity.
    - rewrite (C5 H1). reflexivity. }
  destruct ev as [audio_data site_id n| |site_id n]; cbn [session_step].
  - unfold route_frame_caught.
    destruct (route_frame_cases self info audio_data site_id session_id n)
      as [(info1 & E1 & E2 & E3 & _)|(info1 & E1 & E2 & _)].
    + destruct (route_frame self info audio_data site_id session_id n)
        as [[results info'] ex].
      cbn in E1, E2. subst results info'.
      assert (Hz : forall p : Message T -> bool,
        (forall a b c d, p (AsrError a b c d) = false) ->
        count p (match ex with
                 | None => []
                 | Some e =>
                     [] ++ [AsrError (str_exn e)
                              (ReprTranscriber (Info.transcriber info1))
                              site_id session_id]
                 end) = 0%nat).
      { intros p Hp. destruct ex; [|reflexivity].
        unfold count. cbn. rewrite Hp. reflexivity. }
      rewrite !Hz by reflexivity.
      repeat split; auto; try lia. congruence.
    + rewrite E1. pose proof (Fin info1 site_id n E2) as F.
      destruct (finish_session self info1 site_id session_id n)
        as [[results info'] ex].
      exact F.
  - pose proof (transcribe_proc_step_frame self info) as (_ & _ & F & _).
    cbn. repeat split; auto. congruence.
  - pose proof (Fin info site_id n eq_refl) as F.
    destruct (finish_session self info site_id session_id n)
      as [[results info'] ex].
    exact F.
Qed.

Lemma session_run_once self session_id evs :
  forall info,
    let '(results, info') := session_run self session_id evs info in
    (Info.result_sent info = true ->
     count is_recording_finished results = 0%nat /\
     count is_text_captured results = 0%nat) /\
    (count is_recording_finished results <= 1)%nat /\
    (count is_text_captured results <= 1)%nat.
Proof.
  induction evs as [|ev evs IH]; intros info; cbn.
  - repeat split; auto.
  - pose proof (session_step_once self session_id ev info) as S.
    destruct (session_step self session_id ev info) as [results info1].
    specialize (IH info1).
    destruct (session_run self session_id evs info1) as [more info2].
    rewrite !count_app.
    destruct S as (S1 & S2 & S3 & S4). destruct IH as (I1 & I2 & I3).
    split.
    + intros Hs. destruct (S1 Hs) as (-> & -> & Hs1).
      destruct (I1 Hs1) as (-> & ->). auto.
    + destruct (Info.result_sent info1) eqn:E1.
      * destruct (I1 eq_refl) as (-> & ->). lia.
      * destruct (S4 eq_refl) as (-> & ->). lia.
Qed.

End OnceFacts.

Section RegistryFacts.
Context {T R : Type} `{Transcriber T} `{VoiceCommandRecorder R}.
Implicit Type self : AsrHermesMqtt T R.
Implicit Type info : TranscriberInfo T R.

Lemma key_eqb_eq (a b : option string) : key_eqb a b = true <-> a = b.
Proof.
  destruct a as [x|], b as [y|]; cbn; try (split; congruence).
  rewrite String.eqb_eq. split; congruence.
Qed.

Lemma key_eqb_refl (a : option string) : key_eqb a a = true.
Proof. apply key_eqb_eq. reflexivity. Qed.

Lemma dict_get_remove {V} (d : list (option string * V)) (k : option string) :
  dict_get (dict_remove d k) k = None.
Proof.
  induction d as [|[k' v] d IH]; cbn; [reflexivity|].
  destruct (key_eqb k' k) eqn:E; cbn; [exact IH|].
  rewrite E. exact IH.
Qed.

Lemma dict_get_remove_ne {V} (d : list (option string * V))
  (k k' : option string) :
  k <> k' -> dict_get (dict_remove d k) k' = dict_get d k'.
Proof.
  intros Hne. unfold dict_remove.
  induction d as [|[k0 v] d IH]; cbn; [reflexivity|].
  destruct (key_eqb k0 k) eqn:E; cbn.
  - apply key_eqb_eq in E. subst k0.
    destruct (key_eqb k k') eqn:E'; [|exact IH].
    apply key_eqb_eq in E'. contradiction.
  - rewrite IH. reflexivity.
Qed.

(** [finish_session] reads the configuration of the service only. *)
Lemma finish_session_config self self' info site_id session_id n :
  transcriber_factory self' = transcriber_factory self ->
  kaldi_port self' = kaldi_port self ->
  reuse_transcribers self' = reuse_transcribers self ->
  sample_rate self' = sample_rate self ->
  sample_width self' = sample_width self ->
  channels self' = channels self ->
  lang self' = lang self ->
  to_wav_bytes self' = to_wav_bytes self ->
  finish_session self' info site_id session_id n
  = finish_session self info site_id session_id n.
Proof.
  intros E1 E2 E3 E4 E5 E6 E7 E8. unfold finish_session.
  destruct (match Info.recorder info with
            | Some r => _ | None => _ end) as [info1 [audio_data|e]];
    [|reflexivity].
  destruct (Info.result_sent info1); [reflexivity|].
  rewrite (wait_result_event_config self self' n E1 E2 E3 E4 E5 E6).
  unfold text_captured. rewrite E7, E8. reflexivity.
Qed.

(** [stop_listening] for a session that is in the registry. *)
Lemma stop_listening_registered self (message : AsrStopListening) n r :
  dict_get (sessions self) (st_session_id message) = Some r ->
  stop_listening self message n =
    let self1 :=
      set_sessions (dict_remove (sessions self) (st_session_id message))
        self in
    let '(results, info, ex) :=
      finish_session self (deref self r)
        (st_site_id message) (st_session_id message) n in
    match ex with
    | None =>
        if Info.reuse info && bool_decide (Info.transcriber info <> None)
        then
          (results,
           set_free_transcribers (free_transcribers self ++ [r])
             (store self1 r (reset_state info)))
        else (results, store self1 r info)
    | Some e =>
        (results ++
           [AsrError (str_exn e) (ReprTranscriber (Info.transcriber info))
              (st_site_id message) (st_session_id message)],
         store self1 r info)
    end.
Proof.
  intros Hr. unfold stop_listening. rewrite Hr. cbn zeta.
  rewrite (finish_session_config self
             (set_sessions (dict_remove (sessions self)
                              (st_session_id message)) self))
    by reflexivity.
  reflexivity.
Qed.

(** [stop_listening] for a session that is not in the registry. *)
Lemma stop_listening_absent self (message : AsrStopListening) n :
  dict_get (sessions self) (st_session_id message) = None ->
  stop_listening self message n = ([], self).
Proof. intros Hr. unfold stop_listening. rewrite Hr. reflexivity. Qed.

(** After [stop_listening] the session is not in the registry, the other
    sessions are. *)
Lemma stop_listening_sessions self (message : AsrStopListening) n :
  sessions (snd (stop_listening self message n))
  = dict_remove (sessions self) (st_session_id message).
Proof.
  destruct (dict_get (sessions self) (st_session_id message)) as [r|] eqn:Hr.
  - rewrite (stop_listening_registered self message n r Hr). cbn zeta.
    destruct (finish_session self (deref self r) _ _ n)
      as [[results info] [e|]]; cbn; [reflexivity|].
    destruct (Info.reuse info && bool_decide (Info.transcriber info <> None));
      reflexivity.
  - rewrite (stop_listening_absent self message n Hr). cbn.
    clear n. induction (sessions self) as [|[k v] d IH]; cbn in *;
      [reflexivity|].
    destruct (key_eqb k (st_session_id message)); [discriminate|].
    cbn. f_equal. exact (IH Hr).
Qed.

(** A second stop of the same session yields nothing. *)
Lemma stop_listening_twice self (message : AsrStopListening) n n' :
  fst (stop_listening (snd (stop_listening self message n)) message n') = [].
Proof.
  rewrite stop_listening_absent; [reflexivity|].
  rewrite stop_listening_sessions. apply dict_get_remove.
Qed.

End RegistryFacts.

Section FinalizeClaims.
Context {T R : Type} `{Transcriber T} `{VoiceCommandRecorder R}.
Implicit Type self : AsrHermesMqtt T R.
Implicit Type info : TranscriberInfo T R.

(** C2. [finish_session] yields the recording-finished message and the
    text-captured message at most once, under the guard of [result_sent]:
    a call that finds the flag unset and does not raise yields each of them
    once and sets the flag; a call that finds it set yields nothing and
    leaves it set. Over the life of a session, whatever the order of the
    frames (with their finalize on silence), the steps of the worker and the
    finalize of [stop_listening], each of the two messages is yielded at
    most once; and a second [stop_listening] for the session yields
    nothing. *)
Theorem finish_session_at_most_once self :
  (forall info site_id session_id n,
      let '(results, info', ex) :=
        finish_session self info site_id session_id n in
      (Info.result_sent info = false -> ex = None ->
       count is_recording_finished results = 1%nat /\
       count is_text_captured results = 1%nat /\
       Info.result_sent info' = true) /\
      (Info.result_sent info = true ->
       results = [] /\ Info.result_sent info' = true) /\
      (count is_recording_finished results <= 1)%nat /\
      (count is_text_captured results <= 1)%nat)
  /\ (forall session_id evs info,
        let results := fst (session_run self session_id evs info) in
        (count is_recording_finished results <= 1)%nat /\
        (count is_text_captured results <= 1)%nat)
  /\ (forall (message : AsrStopListening) n n',
        fst (stop_listening (snd (stop_listening self message n)) message n')
        = []).
Proof.
  split; [|split].
  - intros info site_id session_id n.
    pose proof (finish_session_counts self info site_id session_id n) as C.
    destruct (finish_session self info site_id session_id n)
      as [[results info'] ex].
    tauto.
  - intros session_id evs info.
    pose proof (session_run_once self session_id evs info) as C.
    destruct (session_run self session_id evs info) as [results info'].
    cbn. tauto.
  - intros message n n'. apply stop_listening_twice.
Qed.

Lemma session_step_reuse self session_id ev info :
  Info.reuse info = false ->
  Info.reuse (snd (session_step self session_id ev info)) = false.
Proof.
  intros Hr.
  destruct ev as [audio_data site_id n| |site_id n]; cbn [session_step].
  - unfold route_frame_caught.
    destruct (route_frame_cases self info audio_data site_id session_id n)
      as [(info1 & E1 & E2 & _ & E4 & _)|(info1 & E1 & _ & E3 & _)].
    + destruct (route_frame self info audio_data site_id session_id n)
        as [[results info'] ex].
      cbn in *. congruence.
    + rewrite E1.
      pose proof (finish_session_cases self info1 site_id session_id n) as C.
      destruct (finish_session self info1 site_id session_id n)
        as [[results info'] ex].
      cbn. apply C. congruence.
  - cbn. apply transcribe_proc_step_mono, Hr.
  - pose proof (finish_session_cases self info site_id session_id n) as C.
    destruct (finish_session self info site_id session_id n)
      as [[results info'] ex].
    cbn. apply C, Hr.
Qed.

Lemma session_run_reuse self session_id evs :
  forall info,
    Info.reuse info = false ->
    Info.reuse (snd (session_run self session_id evs info)) = false.
Proof.
  induction evs as [|ev evs IH]; intros info Hr; cbn; [exact Hr|].
  pose proof (session_step_reuse self session_id ev info Hr) as S.
  destruct (session_step self session_id ev info) as [results info1].
  specialize (IH info1 S).
  destruct (session_run self session_id evs info1) as [more info2].
  exact IH.
Qed.

(** C3. When the result event is still not set as the wait of
    [finish_session] ends (the wait has timed out; the timeout of a new
    service is 20 seconds), the worker is marked not reusable and the call
    goes on without raising: it yields the recording-finished message, then
    the text-captured message made from the result that is there (the empty
    one when there is none), then the captured audio if asked for, and no
    error message. A [stop_listening] whose finalize timed out leaves the
    pool as it was; so does a [stop_listening] for a session whose worker is
    marked not reusable, and nothing in the life of a session makes a worker
    reusable again. *)
Theorem timeout_marks_not_reusable self :
  (forall info site_id session_id n sl audio_data,
      Info.result_sent info = false ->
      Info.start_listening info = Some sl ->
      session_audio info = Returns audio_data ->
      let '(results, info', ex) :=
        finish_session self info site_id session_id n in
      Info.result_event info' = false ->
      Info.reuse info' = false /\
      ex = None /\
      results =
        [AsrRecordingFinished site_id session_id;
         text_captured self (Info.result info') sl site_id session_id]
        ++ audio_captured self sl audio_data site_id session_id /\
      count is_error results = 0%nat /\
      (Info.result info' = None ->
       text_captured self (Info.result info') sl site_id session_id
       = AsrTextCaptured "" 0%Q 0%Q site_id session_id None
           (or_str (sl_lang sl) (lang self))))
  /\ (forall (message : AsrStopListening) n r,
        dict_get (sessions self) (st_session_id message) = Some r ->
        Info.result_sent (deref self r) = false ->
        Info.result_event
          (snd (fst (finish_session self (deref self r)
                       (st_site_id message) (st_session_id message) n)))
        = false ->
        free_transcribers (snd (stop_listening self message n))
        = free_transcribers self)
  /\ (forall (message : AsrStopListening) n r,
        dict_get (sessions self) (st_session_id message) = Some r ->
        Info.reuse (deref self r) = false ->
        free_transcribers (snd (stop_listening self message n))
        = free_transcribers self)
  /\ (forall session_id evs info,
        Info.reuse info = false ->
        Info.reuse (snd (session_run self session_id evs info)) = false)
  /\ (forall tf rf cv wv reuse port sr sw ch lg en,
        session_result_timeout
          (init (T := T) (R := R) tf rf cv wv reuse port sr sw ch lg en) = 20).
Proof.
  assert (Pool : forall (message : AsrStopListening) n r,
    dict_get (sessions self) (st_session_id message) = Some r ->
    Info.reuse
      (snd (fst (finish_session self (deref self r)
                   (st_site_id message) (st_session_id message) n)))
    = false ->
    free_transcribers (snd (stop_listening self message n))
    = free_transcribers self).
  { intros message n r Hr Hre.
    rewrite (stop_listening_registered self message n r Hr). cbn zeta.
    destruct (finish_session self (deref self r) _ _ n)
      as [[results info'] [e|]]; cbn in *; [reflexivity|].
    rewrite Hre. reflexivity. }
  split; [|split; [|split; [|split]]].
  - intros info site_id session_id n sl audio_data Hs Hsl Ha.
    pose proof (finish_session_cases self info site_id session_id n) as C.
    pose proof (finish_session_counts self info site_id session_id n) as K.
    destruct (finish_session self info site_id session_id n)
      as [[results info'] ex].
    rewrite Ha, Hs, Hsl in C.
    destruct C as (_ & _ & _ & _ & C1 & C2 & C3 & C4).
    destruct K as (_ & _ & _ & _ & _ & K).
    intros Hev. repeat split; auto.
    intros Hn. rewrite Hn. reflexivity.
  - intros message n r Hr Hs Hev.
    rewrite (stop_listening_registered self message n r Hr). cbn zeta.
    pose proof (finish_session_cases self (deref self r)
                  (st_site_id message) (st_session_id message) n) as C.
    destruct (finish_session self (deref self r) _ _ n)
      as [[results info'] [e|]]; cbn in *; [reflexivity|].
    rewrite Hs in C. destruct C as (_ & _ & _ & _ & C).
    destruct (session_audio (deref self r)) as [audio_data|e].
    + destruct C as (_ & C & _). rewrite (C Hev). reflexivity.
    + destruct C as (_ & C & _). discriminate C.
  - intros message n r Hr Hre. apply (Pool message n r Hr).
    pose proof (finish_session_cases self (deref self r)
                  (st_site_id message) (st_session_id message) n) as C.
    destruct (finish_session self (deref self r) _ _ n)
      as [[results info'] ex].
    cbn. apply C, Hre.
  - intros session_id evs info. apply session_run_reuse.
  - reflexivity.
Qed.

End FinalizeClaims.

(** The session of the demo service is finalized while its worker has time
    to construct the recognizer and to decode: each message once. *)
Lemma finish_session_at_most_once_witness :
  let results :=
    fst (fst (finish_session Demo.listening (deref Demo.listening 0)
                "kitchen" (Some "s1") 2)) in
  count is_recording_finished results = 1%nat /\
  count is_text_captured results = 1%nat.
Proof.
  cbn zeta.
  generalize (proj1 (finish_session_at_most_once Demo.listening)
                (deref Demo.listening 0) "kitchen" (Some "s1") 2%nat).
  destruct (finish_session Demo.listening (deref Demo.listening 0)
              "kitchen" (Some "s1") 2) as [[results info'] ex] eqn:E.
  vm_compute in E. injection E as <- <- <-.
  intros (P & _). destruct P as (P1 & P2 & _); [reflexivity..|].
  split; assumption.
Defined.

(** The session of the demo service is finalized while its worker gets no
    time at all: the wait times out, the transcript is empty, the captured
    audio is sent, and the worker is not reusable. *)
Lemma timeout_marks_not_reusable_witness :
  let '(results, info', ex) :=
    finish_session Demo.listening (deref Demo.listening 0)
      "kitchen" (Some "s1") 0 in
  Info.reuse info' = false /\
  ex = None /\
  results =
    [AsrRecordingFinished "kitchen" (Some "s1");
     AsrTextCaptured "" 0%Q 0%Q "kitchen" (Some "s1") None None;
     AsrAudioCaptured Demo.speech1 "kitchen" (Some "s1")].
Proof.
  generalize (proj1 (timeout_marks_not_reusable Demo.listening)
                (deref Demo.listening 0) "kitchen" (Some "s1") 0%nat
                (Demo.start "kitchen" "s1" false true) Demo.speech1
                eq_refl eq_refl eq_refl).
  destruct (finish_session Demo.listening (deref Demo.listening 0)
              "kitchen" (Some "s1") 0) as [[results info'] ex] eqn:E.
  vm_compute in E. injection E as <- <- <-.
  intros P. destruct (P eq_refl) as (P1 & P2 & P3 & _).
  split; [exact P1 | split; [exact P2 | exact P3]].
Defined.

(** ** Acquisition of a worker *)

Section AcquireFacts.
Context {T R : Type} `{Transcriber T} `{VoiceCommandRecorder R}.
Implicit Type self : AsrHermesMqtt T R.
Implicit Type info : TranscriberInfo T R.

Lemma pop_nil {A} (l : list A) : pop l = None <-> l = [].
Proof.
  destruct l as [|x l]; cbn; [tauto|].
  destruct (pop l) as [[rest y]|]; split; discriminate.
Qed.

Lemma pop_snoc {A} (l : list A) (x : A) : pop (l ++ [x]) = Some (l, x).
Proof.
  induction l as [|y l IH]; cbn; [reflexivity|]. rewrite IH. reflexivity.
Qed.

Lemma pop_some {A} (l rest : list A) (x : A) :
  pop l = Some (rest, x) -> l = rest ++ [x].
Proof.
  revert rest. induction l as [|y l IH]; intros rest; cbn; [discriminate|].
  destruct (pop l) as [[rest' z]|] eqn:E.
  - intros [= <- <-]. rewrite (IH rest' eq_refl). reflexivity.
  - intros [= <- <-]. apply pop_nil in E. subst l. reflexivity.
Qed.

Lemma store_length self r info :
  length (heap (store self r info)) = length (heap self).
Proof. unfold store. cbn. apply length_insert. Qed.

(** [stop_listening] creates no object, and takes nothing from the pool. *)
Lemma stop_listening_heap self (message : AsrStopListening) n :
  length (heap (snd (stop_listening self message n))) = length (heap self) /\
  exists more,
    free_transcribers (snd (stop_listening self message n))
    = free_transcribers self ++ more.
Proof.
  destruct (dict_get (sessions self) (st_session_id message)) as [r|] eqn:Hr.
  - rewrite (stop_listening_registered self message n r Hr). cbn zeta.
    destruct (finish_session self (deref self r) _ _ n)
      as [[results info] [e|]]; cbn.
    + rewrite length_insert. split; [reflexivity|].
      exists []. rewrite app_nil_r. reflexivity.
    + destruct (Info.reuse info && bool_decide (Info.transcriber info <> None));
        cbn; rewrite length_insert; (split; [reflexivity|]).
      * exists [r]. reflexivity.
      * exists []. rewrite app_nil_r. reflexivity.
  - rewrite (stop_listening_absent self message n Hr). cbn.
    split; [reflexivity|]. exists []. rewrite app_nil_r. reflexivity.
Qed.

Lemma stop_existing_heap self (message : AsrStartListening) n :
  length (heap (snd (stop_existing self message n))) = length (heap self) /\
  exists more,
    free_transcribers (snd (stop_existing self message n))
    = free_transcribers self ++ more.
Proof.
  unfold stop_existing.
  destruct (dict_get (sessions self) (sl_session_id message)).
  - apply stop_listening_heap.
  - cbn. split; [reflexivity|]. exists []. rewrite app_nil_r. reflexivity.
Qed.

(** [start_listening], after the stop of an existing session and the
    acquisition of the worker [r]. *)
Lemma start_listening_acquired self (message : AsrStartListening) n :
  let self1 := snd (stop_existing self message n) in
  let '(r, self2) := acquire self1 in
  length (heap (snd (start_listening self message n))) = length (heap self2)
  /\ free_transcribers (snd (start_listening self message n))
     = free_transcribers self2.
Proof.
  cbn zeta. unfold start_listening.
  destruct (stop_existing self message n) as [stopped self1]. cbn [snd].
  destruct (acquire self1) as [r self2].
  destruct (begin_recording self2 message _) as [info [e|]]; cbn;
    rewrite length_insert; auto.
Qed.

End AcquireFacts.

Section ThreadFacts.
Context {T R : Type} `{Transcriber T} `{VoiceCommandRecorder R}.
Implicit Type self : AsrHermesMqtt T R.
Implicit Type info : TranscriberInfo T R.

(** No step of a worker starts or removes a thread. *)
Lemma transcribe_proc_step_has_thread self info :
  has_thread (fst (transcribe_proc_step self info)) = has_thread info.
Proof.
  unfold transcribe_proc_step, has_thread.
  destruct (Info.thread info) as [[| |]|] eqn:Et; cbn; rewrite ?Et; auto.
  - destruct (transcriber_factory self (kaldi_port self)) as [[t|]|e];
      cbn; auto.
  - destruct (Info.ready_event info); cbn; rewrite ?Et; auto.
    destruct (Info.transcriber info) as [t|]; cbn; auto.
    destruct (audio_stream (Info.frame_queue info)) as [[frames rest]|];
      cbn; rewrite ?Et; auto.
    unfold transcribe_cycle.
    destruct (transcribe_stream _ _ _ _ _) as [t' [[res|]|e]]; cbn; auto.
    destruct (str_truthy (text res)); cbn; auto.
    destruct (reuse_transcribers self); cbn; rewrite ?Et; auto.
    destruct (transcriber_stop t'); cbn; auto.
Qed.

Lemma wait_result_event_has_thread self n :
  forall info,
    has_thread (snd (wait_result_event self n info)) = has_thread info.
Proof.
  induction n as [|n IH]; intros info; cbn.
  - destruct (Info.result_event info); reflexivity.
  - destruct (Info.result_event info); [reflexivity|].
    rewrite IH. apply transcribe_proc_step_has_thread.
Qed.

Lemma finish_session_has_thread self info site_id session_id n :
  has_thread (snd (fst (finish_session self info site_id session_id n)))
  = has_thread info.
Proof.
  unfold finish_session.
  destruct (Info.recorder info) as [r|].
  - destruct (recorder_stop r) as [r' [audio_data|e]]; cbn; [|reflexivity].
    destruct (Info.result_sent info); cbn; [reflexivity|].
    match goal with |- context [wait_result_event self n ?i] =>
      pose proof (wait_result_event_has_thread self n i) as W;
      destruct (wait_result_event self n i) as [b info1]
    end.
    destruct b; cbn in *; destruct (Info.start_listening info1); exact W.
  - destruct (Info.audio_buffer info) as [buf|]; cbn; [|reflexivity].
    destruct (Info.result_sent info); cbn; [reflexivity|].
    match goal with |- context [wait_result_event self n ?i] =>
      pose proof (wait_result_event_has_thread self n i) as W;
      destruct (wait_result_event self n i) as [b info1]
    end.
    destruct b; cbn in *; destruct (Info.start_listening info1); exact W.
Qed.

Lemma begin_recording_has_thread self (message : AsrStartListening) info :
  has_thread (fst (begin_recording self message info)) = has_thread info.
Proof.
  unfold begin_recording. destruct (stop_on_silence message); [|reflexivity].
  destruct (match Info.recorder info with
            | Some r => Returns r
            | None => recorder_factory self
            end) as [r|e]; [|reflexivity].
  destruct (recorder_start r) as [r' o]. reflexivity.
Qed.

(** Writing back an object that has a thread iff the object it replaces has
    one leaves the threads as they are. *)
Lemma store_threads self r info :
  has_thread info = has_thread (deref self r) ->
  threads (store self r info) = threads self.
Proof.
  unfold deref.
  destruct (heap self !! r) as [i0|] eqn:Hl; cbn [default from_option];
    intros E.
  - unfold threads, store. cbn [heap set_heap].
    change (map has_thread) with (fmap (M := list) (has_thread (T := T) (R := R))).
    rewrite list_fmap_insert, E. apply list_insert_id.
    rewrite list_lookup_fmap, Hl. reflexivity.
  - unfold threads, store. cbn [heap set_heap].
    rewrite list_insert_ge; [reflexivity|].
    apply lookup_ge_None. exact Hl.
Qed.

Lemma stop_listening_threads self (message : AsrStopListening) n :
  threads (snd (stop_listening self message n)) = threads self.
Proof.
  destruct (dict_get (sessions self) (st_session_id message)) as [r|] eqn:Hr.
  - rewrite (stop_listening_registered self message n r Hr). cbn zeta.
    pose proof (finish_session_has_thread self (deref self r)
                  (st_site_id message) (st_session_id message) n) as F.
    destruct (finish_session self (deref self r) _ _ n)
      as [[results info] [e|]]; cbn [fst snd] in *.
    + apply (store_threads (set_sessions _ self)). exact F.
    + destruct (Info.reuse info && bool_decide (Info.transcriber info <> None));
        cbn [snd].
      * apply (store_threads (set_sessions _ self)). exact F.
      * apply (store_threads (set_sessions _ self)). exact F.
  - rewrite (stop_listening_absent self message n Hr). reflexivity.
Qed.

Lemma stop_existing_threads self (message : AsrStartListening) n :
  threads (snd (stop_existing self message n)) = threads self.
Proof.
  unfold stop_existing.
  destruct (dict_get (sessions self) (sl_session_id message)).
  - apply stop_listening_threads.
  - reflexivity.
Qed.

End ThreadFacts.

Section AcquireClaims.
Context {T R : Type} `{Transcriber T} `{VoiceCommandRecorder R}.
Implicit Type self : AsrHermesMqtt T R.
Implicit Type info : TranscriberInfo T R.

(** What [begin_recording] leaves alone. *)
Lemma begin_recording_frame self (message : AsrStartListening) info :
  let info' := fst (begin_recording self message info) in
  Info.thread info' = Info.thread info /\
  Info.transcriber info' = Info.transcriber info /\
  Info.reuse info' = Info.reuse info /\
  Info.start_listening info' = Info.start_listening info.
Proof.
  unfold begin_recording. destruct (stop_on_silence message); [|cbn; auto].
  destruct (match Info.recorder info with
            | Some r => Returns r
            | None => recorder_factory self
            end) as [r|e]; [|cbn; auto].
  destruct (recorder_start r) as [r' o]. cbn. auto.
Qed.

(** [start_listening] writes the acquired object back, and nothing else in
    the heap or the pool. *)
Lemma start_listening_stored self (message : AsrStartListening) n :
  let self1 := snd (stop_existing self message n) in
  let '(r, self2) := acquire self1 in
  exists info,
    heap (snd (start_listening self message n)) = <[r := info]> (heap self2) /\
    free_transcribers (snd (start_listening self message n))
    = free_transcribers self2 /\
    Info.thread info = Info.thread (deref self2 r) /\
    Info.transcriber info = Info.transcriber (deref self2 r) /\
    Info.reuse info = Info.reuse (deref self2 r).
Proof.
  cbn zeta. unfold start_listening.
  destruct (stop_existing self message n) as [stopped self1]. cbn [snd].
  destruct (acquire self1) as [r self2].
  match goal with |- context [begin_recording self2 message ?i] =>
    pose proof (begin_recording_frame self2 message i) as B;
    destruct (begin_recording self2 message i) as [info ex]
  end.
  cbn in B. destruct B as (B1 & B2 & B3 & _).
  exists info. destruct ex; cbn; repeat split; auto.
Qed.

End AcquireClaims.

(** ** Routing of audio frames *)

Section RouteFacts.
Context {T R : Type} `{Transcriber T} `{VoiceCommandRecorder R}.
Implicit Type self : AsrHermesMqtt T R.
Implicit Type info : TranscriberInfo T R.

(** The messages of [finish_session] are for the site and session it is
    called with, and none is an error message. *)
Lemma finish_session_scoped self info site_id session_id n :
  Forall (fun m => message_site m = site_id /\
                   message_session m = session_id /\
                   is_error m = false)
    (fst (fst (finish_session self info site_id session_id n))).
Proof.
  pose proof (finish_session_cases self info site_id session_id n) as C.
  destruct (finish_session self info site_id session_id n)
    as [[results info'] ex].
  cbn. destruct C as (_ & _ & _ & _ & C).
  destruct (session_audio info) as [audio_data|e].
  - destruct (Info.result_sent info).
    + destruct C as (-> & _). constructor.
    + destruct C as (_ & _ & C).
      destruct (Info.start_listening info) as [sl|].
      * destruct C as (-> & _). unfold audio_captured, text_captured.
        destruct (send_audio_captured sl), (Info.result info'); cbn;
          repeat constructor.
      * destruct C as (-> & _). repeat constructor.
  - destruct C as (-> & _). constructor.
Qed.

(** The body of the loop reads the configuration of the service only. *)
Lemma route_frame_config self self' info audio_data site_id target_id n :
  transcriber_factory self' = transcriber_factory self ->
  kaldi_port self' = kaldi_port self ->
  reuse_transcribers self' = reuse_transcribers self ->
  sample_rate self' = sample_rate self ->
  sample_width self' = sample_width self ->
  channels self' = channels self ->
  lang self' = lang self ->
  to_wav_bytes self' = to_wav_bytes self ->
  route_frame self' info audio_data site_id target_id n
  = route_frame self info audio_data site_id target_id n.
Proof.
  intros E1 E2 E3 E4 E5 E6 E7 E8. unfold route_frame.
  destruct (Info.start_listening info) as [sl|]; [|reflexivity].
  destruct (negb (String.eqb (sl_site_id sl) site_id)); [reflexivity|].
  cbn zeta. destruct (Info.recorder _) as [r|]; [|reflexivity].
  destruct (process_chunk r audio_data) as [r' [[c|]|e]]; try reflexivity.
  apply finish_session_config; assumption.
Qed.

(** When the body raises, the frame is from the site of the session. *)
Lemma route_frame_raises_site self info audio_data site_id target_id n
  results info' e sl :
  route_frame self info audio_data site_id target_id n
  = (results, info', Some e) ->
  Info.start_listening info = Some sl ->
  sl_site_id sl = site_id.
Proof.
  unfold route_frame. intros E Hsl. rewrite Hsl in E.
  destruct (String.eqb (sl_site_id sl) site_id) eqn:Es.
  - apply String.eqb_eq, Es.
  - cbn in E. discriminate E.
Qed.

(** The body of the loop yields no error message. *)
Lemma route_frame_no_error self info audio_data site_id target_id n :
  count is_error
    (fst (fst (route_frame self info audio_data site_id target_id n)))
  = 0%nat.
Proof.
  assert (F : Forall (fun m : Message T =>
                        message_site m = site_id /\
                        message_session m = target_id /\ is_error m = false)
                (fst (fst (route_frame self info audio_data site_id
                             target_id n)))).
  { destruct (route_frame_cases self info audio_data site_id target_id n)
      as [(info1 & E1 & _)|(info1 & E1 & _)].
    - rewrite E1. constructor.
    - rewrite E1. apply finish_session_scoped. }
  induction F as [|m l (_ & _ & Hm) _ IH]; [reflexivity|].
  unfold count in *. cbn. rewrite Hm. exact IH.
Qed.

(** The messages of one iteration are for the site of the frame and for the
    target session; at most one of them is an error message, the last. *)
Lemma route_frame_caught_scoped self info audio_data site_id target_id n :
  let results :=
    fst (route_frame_caught self info audio_data site_id target_id n) in
  Forall (fun m => message_site m = site_id /\
                   message_session m = target_id) results /\
  (count is_error results <= 1)%nat.
Proof.
  cbn zeta. unfold route_frame_caught.
  assert (F : Forall (fun m : Message T =>
                        message_site m = site_id /\
                        message_session m = target_id /\ is_error m = false)
                (fst (fst (route_frame self info audio_data site_id
                             target_id n)))).
  { destruct (route_frame_cases self info audio_data site_id target_id n)
      as [(info1 & E1 & _)|(info1 & E1 & _)].
    - rewrite E1. constructor.
    - rewrite E1. apply finish_session_scoped. }
  destruct (route_frame self info audio_data site_id target_id n)
    as [[results info'] ex].
  cbn [fst snd] in *.
  assert (Hc : count is_error results = 0%nat).
  { clear -F. induction F as [|m l (_ & _ & Hm) _ IH]; [reflexivity|].
    unfold count in *. cbn. rewrite Hm. exact IH. }
  destruct ex as [e|].
  - split.
    + apply Forall_app. split.
      * eapply Forall_impl; [exact F|]. cbn. tauto.
      * repeat constructor.
    + rewrite count_app, Hc. cbn. lia.
  - split.
    + eapply Forall_impl; [exact F|]. cbn. tauto.
    + rewrite Hc. lia.
Qed.

(** The loop over a list of targets in two parts. *)
Lemma route_targets_app self targets1 targets2 audio_data site_id sched :
  route_targets self (targets1 ++ targets2) audio_data site_id sched =
    let '(m1, self1) := route_targets self targets1 audio_data site_id sched in
    let '(m2, self2) :=
      route_targets self1 targets2 audio_data site_id sched in
    (m1 ++ m2, self2).
Proof.
  revert self. induction targets1 as [|t targets1 IH]; intros self; cbn.
  - destruct (route_targets self targets2 audio_data site_id sched).
    reflexivity.
  - destruct (route_target self t audio_data site_id sched) as [m0 self0].
    rewrite IH.
    destruct (route_targets self0 targets1 audio_data site_id sched)
      as [m1 self1].
    destruct (route_targets self1 targets2 audio_data site_id sched)
      as [m2 self2].
    rewrite app_assoc. reflexivity.
Qed.

(** One iteration writes the object of its target, and no other. *)
Lemma route_target_other self target_id r r' audio_data site_id sched :
  r' <> r ->
  deref (snd (route_target self (target_id, r) audio_data site_id sched)) r'
  = deref self r'.
Proof.
  intros Hne. unfold route_target.
  destruct (route_frame_caught self (deref self r) audio_data site_id
              target_id (sched target_id)) as [results info].
  unfold deref, store. cbn.
  rewrite list_lookup_insert_ne by congruence. reflexivity.
Qed.

(** What one iteration yields depends on the object of its target and on
    the configuration only. *)
Lemma route_target_messages self self' target_id r audio_data site_id sched :
  transcriber_factory self' = transcriber_factory self ->
  kaldi_port self' = kaldi_port self ->
  reuse_transcribers self' = reuse_transcribers self ->
  sample_rate self' = sample_rate self ->
  sample_width self' = sample_width self ->
  channels self' = channels self ->
  lang self' = lang self ->
  to_wav_bytes self' = to_wav_bytes self ->
  deref self' r = deref self r ->
  fst (route_target self' (target_id, r) audio_data site_id sched)
  = fst (route_target self (target_id, r) audio_data site_id sched).
Proof.
  intros E1 E2 E3 E4 E5 E6 E7 E8 Ed. unfold route_target, route_frame_caught.
  rewrite Ed.
  rewrite (route_frame_config self self' _ _ _ _ _ E1 E2 E3 E4 E5 E6 E7 E8).
  destruct (route_frame self (deref self r) audio_data site_id target_id
              (sched target_id)) as [[results info] ex].
  reflexivity.
Qed.

End RouteFacts.

Section RouteClaims.
Context {T R : Type} `{Transcriber T} `{VoiceCommandRecorder R}.
Implicit Type self : AsrHermesMqtt T R.
Implicit Type info : TranscriberInfo T R.

(** C6. When the body of the loop of [handle_audio_frame] raises for one
    target session, the messages of the frame are those of the targets
    before it, then what the body had yielded for the target followed by one
    error message that carries the site of the frame (which is the site the
    session was started for) and the id of the target session, then those of
    the targets after it: the loop goes on from the state the failed
    iteration leaves. That state differs from the one before in the object
    of the failed target only, so each later target with another object
    yields what it would have yielded had the failure not happened. The call
    itself does not raise. *)
Theorem frame_error_is_scoped self (audio_data : bytes) (site_id : string)
  (sched : option string -> nat) :
  (forall before target_id r after results info' e,
      let self1 :=
        snd (route_targets self before audio_data site_id sched) in
      route_frame self1 (deref self1 r) audio_data site_id target_id
        (sched target_id) = (results, info', Some e) ->
      let failed :=
        results ++
          [AsrError (str_exn e) (ReprTranscriber (Info.transcriber info'))
             site_id target_id] in
      let self2 := store self1 r info' in
      route_targets self (before ++ (target_id, r) :: after)
        audio_data site_id sched
      = (fst (route_targets self before audio_data site_id sched)
           ++ failed
           ++ fst (route_targets self2 after audio_data site_id sched),
         snd (route_targets self2 after audio_data site_id sched))
      /\ count is_error failed = 1%nat
      /\ Forall (fun m => message_site m = site_id /\
                          message_session m = target_id) failed
      /\ (forall sl,
             Info.start_listening (deref self1 r) = Some sl ->
             sl_site_id sl = site_id)
      /\ (forall target_id' r',
             r' <> r ->
             deref self2 r' = deref self1 r' /\
             fst (route_target self2 (target_id', r') audio_data site_id
                    sched)
             = fst (route_target self1 (target_id', r') audio_data site_id
                      sched)))
  /\ (forall frame_wav_bytes,
        maybe_convert_wav self frame_wav_bytes = Returns audio_data ->
        handle_audio_frame self frame_wav_bytes site_id None sched
        = (route_targets self (sessions self) audio_data site_id sched,
           None)).
Proof.
  split.
  - intros before target_id r after results info' e self1 E failed self2.
    assert (Et : route_target self1 (target_id, r) audio_data site_id sched
                 = (failed, self2)).
    { unfold route_target, route_frame_caught. rewrite E. reflexivity. }
    split; [|split; [|split; [|split]]].
    + rewrite route_targets_app. fold self1.
      destruct (route_targets self before audio_data site_id sched)
        as [m1 s1] eqn:E1.
      cbn [fst snd] in *. subst self1.
      cbn [route_targets]. rewrite Et.
      destruct (route_targets self2 after audio_data site_id sched)
        as [m3 s3].
      reflexivity.
    + subst failed. rewrite count_app.
      pose proof (route_frame_no_error self1 (deref self1 r) audio_data
                    site_id target_id (sched target_id)) as N.
      rewrite E in N. cbn [fst] in N. rewrite N. reflexivity.
    + pose proof (route_frame_caught_scoped self1 (deref self1 r) audio_data
                    site_id target_id (sched target_id)) as (S & _).
      unfold route_frame_caught in S. rewrite E in S. exact S.
    + intros sl Hsl. eapply route_frame_raises_site; eauto.
    + intros target_id' r' Hne.
      assert (Hd : deref self2 r' = deref self1 r').
      { unfold self2, deref, store. cbn.
        rewrite list_lookup_insert_ne by congruence. reflexivity. }
      split; [exact Hd|].
      apply route_target_messages; auto.
  - intros frame_wav_bytes Ec. unfold handle_audio_frame. rewrite Ec.
    destruct (sessions self); reflexivity.
Qed.

End RouteClaims.

(** A frame that the silence detector of session "a" rejects: session "a"
    gets the error message, session "b" gets the frame. *)
Lemma frame_error_is_scoped_witness :
  fst (fst (handle_audio_frame Demo.two_sessions Demo.noise "kitchen" None
              (fun _ => 0%nat)))
  = [AsrError "bad chunk" (ReprTranscriber None) "kitchen" (Some "a")] /\
  Info.audio_buffer
    (deref (snd (fst (handle_audio_frame Demo.two_sessions Demo.noise
                        "kitchen" None (fun _ => 0%nat)))) 1)
  = Some Demo.noise.
Proof.
  pose proof (frame_error_is_scoped Demo.two_sessions Demo.noise "kitchen"
                (fun _ => 0%nat)) as (P & Q).
  rewrite (Q Demo.noise eq_refl). cbn [fst snd].
  destruct (P [] (Some "a") 0%nat [(Some "b", 1%nat)] []
              (Info.set_frame_queue [Some Demo.noise]
                 (deref Demo.two_sessions 0))
              (Error "bad chunk") eq_refl) as (P1 & _).
  change (sessions Demo.two_sessions)
    with ([] ++ [(Some "a", 0%nat); (Some "b", 1%nat)]).
  rewrite P1. split; reflexivity.
Defined.

(** ** The merge of the base dictionaries *)

Lemma extend_all_prons (acc base : PronunciationsType) (word : string) :
  prons (extend_all acc base) word = prons acc word ++ prons base word.
Proof.
  unfold extend_all, prons.
  revert word.
  apply (map_fold_weak_ind
           (fun (r : PronunciationsType) (m : PronunciationsType) =>
              forall word,
                default [] (r !! word)
                = default [] (acc !! word) ++ default [] (m !! word))).
  - intros word. rewrite lookup_empty. cbn. rewrite app_nil_r. reflexivity.
  - intros i x m r Hi IH word. unfold extend_word.
    destruct (decide (i = word)) as [->|Hne].
    + rewrite !lookup_insert_eq. cbn. rewrite IH, Hi. cbn.
      rewrite app_nil_r. reflexivity.
    + rewrite !lookup_insert_ne by exact Hne. apply IH.
Qed.

Section TrainClaims.
Context {F : Type}.
Variable read_pronunciations :
  F -> PronunciationsType -> PronunciationsType * option exn.
Variable fs : string -> option (Z * F).

Lemma load_base_dictionaries_spec (base_dictionaries : list PronunciationDictionary) :
  forall acc,
    let '(dicts', merged, ex) :=
      load_base_dictionaries read_pronunciations fs base_dictionaries acc in
    ex = None ->
    Forall2 (loaded read_pronunciations fs) base_dictionaries dicts' /\
    forall word,
      prons merged word =
        prons acc word ++
        concat (map (fun d => prons (pronunciations d) word)
                  (List.filter (on_disk fs) dicts')).
Proof.
  induction base_dictionaries as [|d rest IH]; intros acc;
    cbn [load_base_dictionaries].
  - intros _. split; [constructor|]. intros word. cbn. rewrite app_nil_r.
    reflexivity.
  - destruct (fs (path d)) as [[dict_mtime_ns file]|] eqn:Ef.
    + destruct (changed d dict_mtime_ns) eqn:Ec.
      * destruct (read_pronunciations file (pronunciations d)) as [p ex1]
          eqn:Er.
        destruct ex1 as [e|]; [discriminate|].
        cbn [pronunciations].
        specialize (IH (extend_all acc p)).
        destruct (load_base_dictionaries read_pronunciations fs rest
                    (extend_all acc p)) as [[rest' acc'] ex].
        intros Hex. destruct (IH Hex) as (IH1 & IH2). split.
        -- constructor; [|exact IH1].
           unfold loaded. rewrite Ef, Ec, Er. reflexivity.
        -- intros word. rewrite IH2. cbn [List.filter].
           assert (Hon : on_disk fs {| path := path d; pronunciations := p;
                                       mtime_ns := Some dict_mtime_ns |}
                         = true)
             by (unfold on_disk; cbn [path]; rewrite Ef; reflexivity).
           rewrite Hon. cbn [map concat pronunciations].
           rewrite extend_all_prons, app_assoc. reflexivity.
      * specialize (IH (extend_all acc (pronunciations d))).
        destruct (load_base_dictionaries read_pronunciations fs rest
                    (extend_all acc (pronunciations d)))
          as [[rest' acc'] ex].
        intros Hex. destruct (IH Hex) as (IH1 & IH2). split.
        -- constructor; [|exact IH1].
           unfold loaded. rewrite Ef, Ec. reflexivity.
        -- intros word. rewrite IH2. cbn [List.filter].
           assert (Hon : on_disk fs d = true)
             by (unfold on_disk; rewrite Ef; reflexivity).
           rewrite Hon. cbn [map concat].
           rewrite extend_all_prons, app_assoc. reflexivity.
    + specialize (IH acc).
      destruct (load_base_dictionaries read_pronunciations fs rest acc)
        as [[rest' acc'] ex].
      intros Hex. destruct (IH Hex) as (IH1 & IH2). split.
      * constructor; [|exact IH1]. unfold loaded. rewrite Ef. reflexivity.
      * intros word. rewrite IH2. cbn [List.filter].
        assert (Hon : on_disk fs d = false)
          by (unfold on_disk; rewrite Ef; reflexivity).
        rewrite Hon. reflexivity.
Qed.

(** C9. When [handle_train] has read the base dictionaries without an
    exception, the pronunciations of a word in the merged map are the
    pronunciations the word has in each base dictionary whose file exists,
    one dictionary after the other in the order of the list: every
    pronunciation of every such dictionary is in the merged entry, not only
    those of the last one. (A base dictionary whose file does not exist is
    skipped; a file that changed is read into the cache of its dictionary
    first.) *)
Theorem base_dictionaries_merged_by_union
  (base_dictionaries : list PronunciationDictionary) :
  let '(dicts', merged, ex) :=
    handle_train_pronunciations read_pronunciations fs true
      base_dictionaries in
  ex = None ->
  Forall2 (loaded read_pronunciations fs) base_dictionaries dicts' /\
  (forall word,
      prons merged word =
        concat (map (fun d => prons (pronunciations d) word)
                  (List.filter (on_disk fs) dicts'))) /\
  (forall d word p,
      In d dicts' -> on_disk fs d = true ->
      In p (prons (pronunciations d) word) ->
      In p (prons merged word)).
Proof.
  unfold handle_train_pronunciations.
  pose proof (load_base_dictionaries_spec base_dictionaries ∅) as L.
  destruct (load_base_dictionaries read_pronunciations fs base_dictionaries ∅)
    as [[dicts' merged] ex].
  intros Hex. destruct (L Hex) as (L1 & L2).
  assert (M : forall word,
    prons merged word =
      concat (map (fun d => prons (pronunciations d) word)
                (List.filter (on_disk fs) dicts'))).
  { intros word. rewrite L2. unfold prons at 1. rewrite lookup_empty.
    reflexivity. }
  split; [exact L1|]. split; [exact M|].
  intros d word p Hd Hon Hp. rewrite M.
  apply in_concat. exists (prons (pronunciations d) word). split; [|exact Hp].
  apply in_map_iff. exists d. split; [reflexivity|].
  apply List.filter_In. split; assumption.
Qed.

End TrainClaims.

(** The two dictionary files of the demo both have "cat": the merged entry
    has both pronunciations, in the order of the dictionaries. *)
Lemma base_dictionaries_merged_by_union_witness :
  prons
    (snd (fst (handle_train_pronunciations Demo.read_pronunciations Demo.fs
                 true Demo.base_dictionaries))) "cat"
  = [["k"; "ae"; "t"]; ["k"; "a"; "t"]].
Proof.
  generalize (base_dictionaries_merged_by_union Demo.read_pronunciations
                Demo.fs Demo.base_dictionaries).
  destruct (handle_train_pronunciations Demo.read_pronunciations Demo.fs
              true Demo.base_dictionaries) as [[dicts' merged] ex] eqn:E.
  vm_compute in E. injection E as <- <- <-.
  intros P. destruct (P eq_refl) as (_ & P2 & _).
  cbn [fst snd]. rewrite P2. reflexivity.
Defined.

(** ** Audio buffer and recorder of a session *)

Section RecordingFacts.
Context {T R : Type} `{Transcriber T} `{VoiceCommandRecorder R}.
Implicit Type self : AsrHermesMqtt T R.
Implicit Type info : TranscriberInfo T R.

(** What [start_listening] does to the recorder and the audio buffer of the
    worker it has acquired: with silence detection the worker has a recorder
    and its buffer is untouched; without, its buffer is empty and its
    recorder is untouched, so a recorder left by an earlier session stays. *)
Lemma begin_recording_cases self (message : AsrStartListening) info :
  let '(info', ex) := begin_recording self message info in
  if stop_on_silence message then
    Info.audio_buffer info' = Info.audio_buffer info /\
    (ex = None -> Info.recorder info' <> None)
  else
    ex = None /\
    Info.audio_buffer info' = Some [] /\
    Info.recorder info' = Info.recorder info.
Proof.
  unfold begin_recording. destruct (stop_on_silence message); [|cbn; auto].
  destruct (match Info.recorder info with
            | Some r => Returns r
            | None => recorder_factory self
            end) as [r|e]; cbn.
  - destruct (recorder_start r) as [r' [u|e]]; cbn; split; auto; discriminate.
  - split; auto; discriminate.
Qed.

(** The reset of a worker that goes back to the pool clears its audio
    buffer and keeps its recorder. *)
Lemma reset_state_recording info :
  Info.audio_buffer (reset_state info) = None /\
  Info.recorder (reset_state info) = Info.recorder info.
Proof. split; reflexivity. Qed.

(** A worker without recorder and without buffer, such as a new one, gets
    exactly one of the two. *)
Lemma begin_recording_exclusive self (message : AsrStartListening) info :
  Info.recorder info = None ->
  Info.audio_buffer info = None ->
  let '(info', ex) := begin_recording self message info in
  ex = None ->
  if stop_on_silence message
  then Info.recorder info' <> None /\ Info.audio_buffer info' = None
  else Info.recorder info' = None /\ Info.audio_buffer info' <> None.
Proof.
  intros Hr Hb.
  pose proof (begin_recording_cases self message info) as C.
  destruct (begin_recording self message info) as [info' ex].
  destruct (stop_on_silence message).
  - destruct C as (C1 & C2). intros Hex. split; [auto|congruence].
  - destruct C as (_ & C2 & C3). intros _. split; congruence.
Qed.

(** A frame for a session without recorder. *)
Lemma route_frame_buffer self info audio_data site_id target_id n sl b :
  Info.recorder info = None ->
  Info.audio_buffer info = Some b ->
  Info.start_listening info = Some sl ->
  route_frame self info audio_data site_id target_id n =
    if String.eqb (sl_site_id sl) site_id then
      ([],
       Info.set_audio_buffer (Some (b ++ audio_data))
         (Info.set_frame_queue (Info.frame_queue info ++ [Some audio_data])
            info),
       None)
    else ([], info, None).
Proof.
  intros Hr Hb Hsl. unfold route_frame. rewrite Hsl.
  destruct (String.eqb (sl_site_id sl) site_id); cbn; [|reflexivity].
  rewrite Hr, Hb. reflexivity.
Qed.

(** A session without recorder: the frames of its site go to its audio
    buffer, in order of arrival, and nothing is yielded before the
    finalize. *)
Lemma session_run_buffers self session_id evs :
  forall info sl b,
    Info.recorder info = None ->
    Info.audio_buffer info = Some b ->
    Info.start_listening info = Some sl ->
    forallb (fun ev => negb (is_finalize ev)) evs = true ->
    let '(results, info') := session_run self session_id evs info in
    results = [] /\
    Info.recorder info' = None /\
    Info.audio_buffer info' = Some (b ++ routed_audio (sl_site_id sl) evs) /\
    Info.start_listening info' = Some sl /\
    Info.result_sent info' = Info.result_sent info.
Proof.
  induction evs as [|ev evs IH]; intros info sl b Hr Hb Hsl Hev;
    cbn [session_run routed_audio].
  - rewrite app_nil_r. auto.
  - cbn in Hev. apply andb_prop in Hev as (Hev1 & Hev2).
    destruct ev as [audio_data site_id n| |site_id n]; [| |discriminate].
    + cbn [session_step]. unfold route_frame_caught.
      rewrite (route_frame_buffer self info audio_data site_id session_id n
                 sl b Hr Hb Hsl).
      destruct (String.eqb (sl_site_id sl) site_id) eqn:Es.
      * match goal with |- context [session_run self session_id evs ?i] =>
          specialize (IH i sl (b ++ audio_data) Hr eq_refl Hsl Hev2);
          destruct (session_run self session_id evs i) as [more info2]
        end.
        destruct IH as (-> & I2 & I3 & I4 & I5).
        rewrite <- app_assoc in I3. auto.
      * specialize (IH info sl b Hr Hb Hsl Hev2).
        destruct (session_run self session_id evs info) as [more info2].
        destruct IH as (-> & I2 & I3 & I4 & I5). auto.
    + cbn [session_step].
      pose proof (transcribe_proc_step_frame self info) as (F1 & F2 & F3 & F4).
      specialize (IH (fst (transcribe_proc_step self info)) sl b).
      destruct (session_run self session_id evs
                  (fst (transcribe_proc_step self info))) as [more info2].
      destruct IH as (-> & I2 & I3 & I4 & I5); try congruence.
      repeat split; auto; congruence.
Qed.

(** For a session without recorder whose start message asks for the captured
    audio, the finalize yields, last, the clip made of the audio of all the
    frames of its site that were routed to it since its start. *)
Lemma captured_audio_without_recorder self session_id evs site_id n info sl :
  Info.recorder info = None ->
  Info.audio_buffer info = Some [] ->
  Info.start_listening info = Some sl ->
  send_audio_captured sl = true ->
  Info.result_sent info = false ->
  forallb (fun ev => negb (is_finalize ev)) evs = true ->
  exists text_message,
    fst (session_run self session_id (evs ++ [Finalize site_id n]) info)
    = [AsrRecordingFinished site_id session_id;
       text_message;
       AsrAudioCaptured
         (to_wav_bytes self (routed_audio (sl_site_id sl) evs))
         site_id session_id].
Proof.
  intros Hr Hb Hsl Hsend Hsent Hev.
  assert (A : forall evs1 evs2 i,
    session_run self session_id (evs1 ++ evs2) i =
      let '(m1, i1) := session_run self session_id evs1 i in
      let '(m2, i2) := session_run self session_id evs2 i1 in
      (m1 ++ m2, i2)).
  { clear. induction evs1 as [|ev evs1 IH]; intros evs2 i; cbn.
    - destruct (session_run self session_id evs2 i). reflexivity.
    - destruct (session_step self session_id ev i) as [m0 i0].
      rewrite IH.
      destruct (session_run self session_id evs1 i0) as [m1 i1].
      destruct (session_run self session_id evs2 i1) as [m2 i2].
      rewrite app_assoc. reflexivity. }
  rewrite A.
  pose proof (session_run_buffers self session_id evs info sl [] Hr Hb Hsl Hev)
    as B.
  destruct (session_run self session_id evs info) as [m1 info1].
  destruct B as (-> & B2 & B3 & B4 & B5). cbn [app] in B3.
  cbn [session_run session_step].
  pose proof (finish_session_cases self info1 site_id session_id n) as C.
  destruct (finish_session self info1 site_id session_id n)
    as [[results info'] ex].
  unfold session_audio in C. rewrite B2, B3, B4, B5, Hsent in C.
  destruct C as (_ & _ & _ & _ & _ & _ & -> & ->).
  unfold audio_captured. rewrite Hsend.
  eexists. cbn. reflexivity.
Qed.

End RecordingFacts.

(** C1, on a worker taken from the pool. The demo service reuses
    transcribers; session "s1" is started with silence detection, gets
    speech and is stopped, and its worker goes back to the pool with its
    recorder; session "s2" is then started without silence detection and
    gets that worker: its object has both a recorder and an audio buffer. *)
Theorem pooled_worker_has_recorder_and_buffer :
  let info := deref Demo.second_session_started 0 in
  free_transcribers Demo.after_first_session = [0%nat] /\
  dict_get (sessions Demo.second_session_started) (Some "s2") = Some 0%nat /\
  Info.start_listening info = Some (Demo.start "kitchen" "s2" false true) /\
  Info.recorder info = Some [] /\
  Info.audio_buffer info = Some [].
Proof. vm_compute. repeat split; reflexivity. Qed.

(** C7, on a worker taken from the pool. Session "s2" of the demo service,
    started without silence detection and with the captured audio asked for,
    gets speech, then silence, then speech, and is stopped. Its frames go to
    the recorder its worker has kept, not to its audio buffer: the silence
    finalizes the session, and the clip is the audio the recorder returns,
    which is not the audio of the frames routed to the session until then. *)
Theorem pooled_worker_clip_is_not_the_frames :
  Demo.second_session_messages =
    [ [];
      [AsrRecordingFinished "kitchen" (Some "s2");
       AsrTextCaptured "go home" 1%Q 0%Q "kitchen" (Some "s2")
         (asr_tokens_of Demo.go_home) None;
       AsrAudioCaptured Demo.speech1 "kitchen" (Some "s2")];
      [];
      [] ] /\
  to_wav_bytes Demo.second_session_started Demo.second_session_audio
  <> Demo.speech1.
Proof. split; [vm_compute; reflexivity | vm_compute; discriminate]. Qed.

(** ** Invariants of the heap and the pool *)

Section Stable.
Context {T R : Type} `{Transcriber T} `{VoiceCommandRecorder R}.
Implicit Type self : AsrHermesMqtt T R.
Implicit Type info : TranscriberInfo T R.

(** A property of thread and transcriber that the steps of a worker keep. *)
Variable P : option Thread -> option T -> Prop.
Hypothesis P_step :
  forall self info,
    on_worker P info -> on_worker P (fst (transcribe_proc_step self info)).

Lemma wait_stable self n :
  forall info,
    on_worker P info -> on_worker P (snd (wait_result_event self n info)).
Proof using P_step.
  induction n as [|n IH]; intros info Hp; cbn.
  - destruct (Info.result_event info); exact Hp.
  - destruct (Info.result_event info); [exact Hp|].
    apply IH, P_step, Hp.
Qed.

Lemma finish_session_stable self info site_id session_id n :
  on_worker P info ->
  on_worker P (snd (fst (finish_session self info site_id session_id n))).
Proof using P_step.
  intros Hp. unfold finish_session.
  destruct (Info.recorder info) as [r|].
  - destruct (recorder_stop r) as [r' [audio_data|e]]; cbn; [|exact Hp].
    destruct (Info.result_sent info); cbn; [exact Hp|].
    match goal with |- context [wait_result_event self n ?i] =>
      pose proof (wait_stable self n i Hp) as W;
      destruct (wait_result_event self n i) as [b info1]
    end.
    destruct b; cbn in *; destruct (Info.start_listening info1); exact W.
  - destruct (Info.audio_buffer info) as [buf|]; cbn; [|exact Hp].
    destruct (Info.result_sent info); cbn; [exact Hp|].
    match goal with |- context [wait_result_event self n ?i] =>
      pose proof (wait_stable self n i Hp) as W;
      destruct (wait_result_event self n i) as [b info1]
    end.
    destruct b; cbn in *; destruct (Info.start_listening info1); exact W.
Qed.

Lemma route_frame_stable self info audio_data site_id target_id n :
  on_worker P info ->
  on_worker P
    (snd (fst (route_frame self info audio_data site_id target_id n))).
Proof using P_step.
  intros Hp. unfold route_frame.
  destruct (Info.start_listening info) as [sl|]; [|exact Hp].
  destruct (negb (String.eqb (sl_site_id sl) site_id)); [exact Hp|].
  cbn zeta. cbn [Info.recorder Info.audio_buffer Info.set_frame_queue].
  destruct (Info.recorder info) as [r|].
  - destruct (process_chunk r audio_data) as [r' [[c|]|e]]; try exact Hp.
    apply finish_session_stable. exact Hp.
  - destruct (Info.audio_buffer info) as [b|]; exact Hp.
Qed.

Lemma route_frame_caught_stable self info audio_data site_id target_id n :
  on_worker P info ->
  on_worker P
    (snd (route_frame_caught self info audio_data site_id target_id n)).
Proof using P_step.
  intros Hp. unfold route_frame_caught.
  pose proof (route_frame_stable self info audio_data site_id target_id n Hp)
    as S.
  destruct (route_frame self info audio_data site_id target_id n)
    as [[results info'] ex].
  exact S.
Qed.

(** [evolves] is a preorder, kept by a write and by an allocation. *)
Lemma evolves_refl (h : list (TranscriberInfo T R)) : evolves P h h.
Proof.
  split.
  - intros r info' Hl. rewrite Hl. auto.
  - intros r info Hl. rewrite Hl. eauto.
Qed.

Lemma evolves_trans (h1 h2 h3 : list (TranscriberInfo T R)) :
  evolves P h1 h2 -> evolves P h2 h3 -> evolves P h1 h3.
Proof.
  intros (A1 & B1) (A2 & B2). split.
  - intros r info3 H3. specialize (A2 r info3 H3).
    destruct (h2 !! r) as [info2|] eqn:H2.
    + specialize (A1 r info2 H2).
      destruct (h1 !! r) as [info1|]; auto.
    + destruct (h1 !! r) as [info1|] eqn:H1; [|exact A2].
      destruct (B1 r info1 H1) as [x Hx]. congruence.
  - intros r info1 H1. destruct (B1 r info1 H1) as [info2 H2].
    exact (B2 r info2 H2).
Qed.

Lemma evolves_insert (h : list (TranscriberInfo T R)) (r : ref) x :
  (forall info, h !! r = Some info -> on_worker P info -> on_worker P x) ->
  evolves P h (<[r := x]> h).
Proof.
  intros Hx. split.
  - intros r0 info' Hl. apply list_lookup_insert_Some in Hl.
    destruct Hl as [(<- & <- & Hlt)|(Hne & Hl)].
    + destruct (h !! r) as [info|] eqn:Hr.
      * exact (Hx info eq_refl).
      * apply lookup_ge_None in Hr. lia.
    + rewrite Hl. auto.
  - intros r0 info Hl. apply lookup_lt_is_Some. rewrite length_insert.
    apply lookup_lt_Some in Hl. exact Hl.
Qed.

Lemma evolves_app (h : list (TranscriberInfo T R)) x :
  (P (Some Starting) None -> on_worker P x) ->
  evolves P h (h ++ [x]).
Proof.
  intros Hx. split.
  - intros r info' Hl. destruct (h !! r) as [info|] eqn:Hr.
    + rewrite (lookup_app_l_Some _ _ _ _ Hr) in Hl. congruence.
    + apply lookup_ge_None in Hr.
      rewrite lookup_app_r in Hl by exact Hr.
      destruct (r - length h)%nat; cbn in Hl; [|discriminate].
      injection Hl as <-. exact Hx.
  - intros r info Hl. rewrite (lookup_app_l_Some _ _ _ _ Hl). eauto.
Qed.

Lemma deref_lookup self r info :
  heap self !! r = Some info -> deref self r = info.
Proof. intros Hl. unfold deref. rewrite Hl. reflexivity. Qed.

Lemma stop_listening_evolves self (message : AsrStopListening) n :
  evolves P (heap self) (heap (snd (stop_listening self message n))).
Proof using P_step.
  destruct (dict_get (sessions self) (st_session_id message)) as [r|] eqn:Hr.
  - rewrite (stop_listening_registered self message n r Hr). cbn zeta.
    pose proof (finish_session_stable self (deref self r)
                  (st_site_id message) (st_session_id message) n) as F.
    destruct (finish_session self (deref self r) _ _ n)
      as [[results info'] ex].
    cbn [fst snd] in F.
    assert (E : forall x,
      on_worker P x = on_worker P info' ->
      evolves P (heap self) (<[r := x]> (heap self))).
    { intros x Ex. apply evolves_insert. intros info Hl Hp. rewrite Ex.
      apply F. rewrite (deref_lookup self r info Hl). exact Hp. }
    destruct ex as [e|]; cbn.
    + apply E. reflexivity.
    + destruct (Info.reuse info' && bool_decide (Info.transcriber info' <> None));
        cbn; apply E; reflexivity.
  - rewrite (stop_listening_absent self message n Hr). apply evolves_refl.
Qed.

Lemma stop_existing_evolves self (message : AsrStartListening) n :
  evolves P (heap self) (heap (snd (stop_existing self message n))).
Proof using P_step.
  unfold stop_existing.
  destruct (dict_get (sessions self) (sl_session_id message)).
  - apply stop_listening_evolves.
  - apply evolves_refl.
Qed.

Lemma start_listening_evolves self (message : AsrStartListening) n :
  evolves P (heap self) (heap (snd (start_listening self message n))).
Proof using P_step.
  pose proof (start_listening_stored self message n) as S. cbn zeta in S.
  eapply evolves_trans; [apply (stop_existing_evolves self message n)|].
  set (self1 := snd (stop_existing self message n)) in *.
  unfold acquire in S.
  destruct (pop (free_transcribers self1)) as [[rest r]|].
  - destruct S as (info & S1 & _ & S3 & S4 & _). rewrite S1. cbn.
    apply evolves_insert. intros info0 Hl Hp.
    unfold on_worker. rewrite S3, S4.
    rewrite (deref_lookup (set_free_transcribers rest self1) r info0 Hl).
    exact Hp.
  - destruct S as (info & S1 & _ & S3 & S4 & _). rewrite S1.
    cbn [heap set_heap] in *.
    eapply evolves_trans; [apply evolves_app|apply evolves_insert].
    + intros Hp. exact Hp.
    + intros info0 Hl Hp. unfold on_worker. rewrite S3, S4.
      unfold deref. cbn [heap set_heap]. rewrite Hl. exact Hp.
Qed.

Lemma route_target_evolves self target audio_data site_id sched :
  evolves P (heap self)
    (heap (snd (route_target self target audio_data site_id sched))).
Proof using P_step.
  destruct target as [target_id r]. unfold route_target.
  pose proof (route_frame_caught_stable self (deref self r) audio_data
                site_id target_id (sched target_id)) as S.
  destruct (route_frame_caught self (deref self r) audio_data site_id
              target_id (sched target_id)) as [results info].
  cbn in *. apply evolves_insert. intros info0 Hl Hp. apply S.
  rewrite (deref_lookup self r info0 Hl). exact Hp.
Qed.

Lemma route_targets_evolves targets audio_data site_id sched :
  forall self,
    evolves P (heap self)
      (heap (snd (route_targets self targets audio_data site_id sched))).
Proof using P_step.
  induction targets as [|target targets IH]; intros self; cbn.
  - apply evolves_refl.
  - pose proof (route_target_evolves self target audio_data site_id sched)
      as E.
    destruct (route_target self target audio_data site_id sched)
      as [results self1].
    specialize (IH self1).
    destruct (route_targets self1 targets audio_data site_id sched)
      as [more self2].
    cbn in *. eapply evolves_trans; eauto.
Qed.

Lemma handle_audio_frame_evolves self frame_wav_bytes site_id session_id
  sched :
  evolves P (heap self)
    (heap (snd (fst (handle_audio_frame self frame_wav_bytes site_id
                       session_id sched)))).
Proof using P_step.
  unfold handle_audio_frame.
  destruct (sessions self) as [|s0 l] eqn:Es; [apply evolves_refl|].
  destruct (maybe_convert_wav self frame_wav_bytes) as [audio_data|e];
    [|apply evolves_refl].
  destruct session_id as [sid|].
  - destruct (dict_get (s0 :: l) (Some sid)) as [r|]; [|apply evolves_refl].
    apply route_targets_evolves.
  - apply route_targets_evolves.
Qed.

Lemma on_message_blocking_evolves self (message : incoming) site_id
  session_id n sched :
  evolves P (heap self)
    (heap (snd (fst (on_message_blocking self message site_id session_id n
                       sched)))).
Proof using P_step.
  destruct message as [reason|reason|wav|wav|message|message|]; cbn.
  - destruct (match reason with
              | UNKNOWN => []
              | _ => set_discard reason (disabled_reasons self)
              end); apply evolves_refl.
  - apply evolves_refl.
  - destruct (enabled self); [|apply evolves_refl].
    destruct (first_audio self).
    + apply (handle_audio_frame_evolves (set_first_audio false self)).
    + apply handle_audio_frame_evolves.
  - destruct (enabled self); [|apply evolves_refl].
    destruct (dict_get (sessions self) session_id); [|apply evolves_refl].
    destruct (first_audio self).
    + apply (handle_audio_frame_evolves (set_first_audio false self)).
    + apply handle_audio_frame_evolves.
  - apply start_listening_evolves.
  - apply stop_listening_evolves.
  - apply evolves_refl.
Qed.

Lemma step_evolves self (ev : event) :
  evolves P (heap self) (heap (snd (step self ev))).
Proof using P_step.
  destruct ev as [message site_id session_id n sched|r]; cbn.
  - apply on_message_blocking_evolves.
  - destruct (heap self !! r) as [info|] eqn:Hl; [|apply evolves_refl].
    cbn. apply evolves_insert. intros info0 Hl0 Hp.
    apply P_step. congruence.
Qed.

(** What [evolves] gives: the property stays on every object that had it,
    and stays on the whole heap when a new worker has it. *)
Lemma evolves_lookup (h h' : list (TranscriberInfo T R)) r info :
  evolves P h h' ->
  h !! r = Some info -> on_worker P info ->
  exists info', h' !! r = Some info' /\ on_worker P info'.
Proof.
  intros (A & B) Hl Hp. destruct (B r info Hl) as [info' Hl'].
  exists info'. split; [exact Hl'|].
  specialize (A r info' Hl'). rewrite Hl in A. auto.
Qed.

Lemma evolves_Forall (h h' : list (TranscriberInfo T R)) :
  evolves P h h' ->
  P (Some Starting) None ->
  Forall (on_worker P) h -> Forall (on_worker P) h'.
Proof.
  intros (A & B) P0 Hall. apply Forall_lookup. intros r info' Hl'.
  specialize (A r info' Hl').
  destruct (h !! r) as [info|] eqn:Hl; [|auto].
  apply A. eapply Forall_lookup_1; eauto.
Qed.

End Stable.

Section PoolInvariant.
Context {T R : Type} `{Transcriber T} `{VoiceCommandRecorder R}.
Implicit Type self : AsrHermesMqtt T R.
Implicit Type info : TranscriberInfo T R.

Lemma worker_ok_step self info :
  on_worker worker_ok info ->
  on_worker worker_ok (fst (transcribe_proc_step self info)).
Proof.
  unfold on_worker, worker_ok, transcribe_proc_step.
  destruct (Info.thread info) as [[| |]|] eqn:Et; cbn; rewrite ?Et; auto.
  - intros _.
    destruct (transcriber_factory self (kaldi_port self)) as [[t|]|e];
      cbn; split; congruence.
  - intros (Hn & Hs).
    destruct (Info.ready_event info); cbn; rewrite ?Et; auto.
    destruct (Info.transcriber info) as [t|] eqn:En; cbn;
      [|split; congruence].
    destruct (audio_stream (Info.frame_queue info)) as [[frames rest]|];
      cbn; rewrite ?Et; [|split; congruence].
    unfold transcribe_cycle.
    destruct (transcribe_stream _ _ _ _ _) as [t' [[res|]|e]]; cbn;
      try (split; congruence).
    destruct (str_truthy (text res)); cbn; [|split; congruence].
    destruct (reuse_transcribers self); cbn; rewrite ?Et;
      [split; congruence|].
    destruct (transcriber_stop t'); cbn. split; congruence.
Qed.

Lemma past_start_step self info :
  on_worker past_start info ->
  on_worker past_start (fst (transcribe_proc_step self info)).
Proof.
  unfold on_worker, past_start, transcribe_proc_step.
  destruct (Info.thread info) as [[| |]|] eqn:Et; cbn; rewrite ?Et; auto.
  - intros [?|?]; discriminate.
  - intros _.
    destruct (Info.ready_event info); cbn; rewrite ?Et; auto.
    destruct (Info.transcriber info) as [t|]; cbn; auto.
    destruct (audio_stream (Info.frame_queue info)) as [[frames rest]|];
      cbn; rewrite ?Et; auto.
    unfold transcribe_cycle.
    destruct (transcribe_stream _ _ _ _ _) as [t' [[res|]|e]]; cbn; auto.
    destruct (str_truthy (text res)); cbn; auto.
    destruct (reuse_transcribers self); cbn; rewrite ?Et; auto.
    destruct (transcriber_stop t'); cbn. auto.
Qed.

(** The factory is called by a thread at its start only. *)
Lemma factory_only_at_start self info :
  In CallFactory (snd (transcribe_proc_step self info)) ->
  Info.thread info = Some Starting.
Proof.
  assert (N : forall calls : list (worker_call T),
    Forall (fun c => c <> CallFactory) calls -> ~ In CallFactory calls).
  { intros calls Hall Hin. rewrite List.Forall_forall in Hall.
    exact (Hall _ Hin eq_refl). }
  unfold transcribe_proc_step.
  destruct (Info.thread info) as [[| |]|] eqn:Et; [reflexivity| | |];
    intros Hin; exfalso; revert Hin; apply N.
  - destruct (Info.ready_event info); [|constructor].
    destruct (Info.transcriber info) as [t|] eqn:En;
      [|cbn; rewrite En; constructor].
    + destruct (audio_stream (Info.frame_queue info)) as [[frames rest]|];
        [|constructor].
      unfold transcribe_cycle.
      destruct (transcribe_stream _ _ _ _ _) as [t' [[res|]|e]]; cbn;
        try (repeat constructor; discriminate).
      destruct (str_truthy (text res)); cbn;
        [|repeat constructor; discriminate].
      destruct (reuse_transcribers self); cbn;
        [repeat constructor; discriminate|].
      destruct (transcriber_stop t'); cbn.
      repeat constructor; discriminate.
  - constructor.
  - constructor.
Qed.

(** A worker that is past its start never calls the factory again. *)
Lemma past_start_no_factory self n :
  forall info,
    on_worker past_start info ->
    ~ In CallFactory (snd (transcribe_proc_run self n info)).
Proof.
  induction n as [|n IH]; intros info Hp; cbn; [tauto|].
  pose proof (past_start_step self info Hp) as Hp1.
  pose proof (factory_only_at_start self info) as F.
  destruct (transcribe_proc_step self info) as [info1 c1].
  specialize (IH info1 Hp1).
  destruct (transcribe_proc_run self n info1) as [info2 c2].
  cbn in *. intros Hin. apply in_app_or in Hin as [Hin|Hin]; [|tauto].
  specialize (F Hin). destruct Hp as [Hp|Hp]; congruence.
Qed.

(** The handlers other than [stop_listening] add nothing to the pool. *)
Lemma route_targets_free targets audio_data site_id sched :
  forall self,
    free_transcribers
      (snd (route_targets self targets audio_data site_id sched))
    = free_transcribers self.
Proof.
  induction targets as [|[target_id r] targets IH]; intros self; cbn;
    [reflexivity|].
  destruct (route_frame_caught self (deref self r) audio_data site_id
              target_id (sched target_id)) as [results info].
  specialize (IH (store self r info)).
  destruct (route_targets (store self r info) targets audio_data site_id sched)
    as [more self2].
  cbn in *. exact IH.
Qed.

Lemma handle_audio_frame_free self frame_wav_bytes site_id session_id sched :
  free_transcribers
    (snd (fst (handle_audio_frame self frame_wav_bytes site_id session_id
                 sched)))
  = free_transcribers self.
Proof.
  unfold handle_audio_frame.
  destruct (sessions self) as [|s0 l] eqn:Es; [reflexivity|].
  destruct (maybe_convert_wav self frame_wav_bytes) as [audio_data|e];
    [|reflexivity].
  destruct session_id as [sid|].
  - destruct (dict_get (s0 :: l) (Some sid)) as [r|]; [|reflexivity].
    apply route_targets_free.
  - apply route_targets_free.
Qed.

(** A worker that [stop_listening] adds to the pool is past its start. *)
Lemma stop_listening_pooled self (message : AsrStopListening) n :
  Forall (on_worker worker_ok) (heap self) ->
  let self' := snd (stop_listening self message n) in
  forall r,
    In r (free_transcribers self') ->
    In r (free_transcribers self) \/
    exists info, heap self' !! r = Some info /\ on_worker past_start info.
Proof.
  intros Hall. cbn zeta.
  destruct (dict_get (sessions self) (st_session_id message)) as [r|] eqn:Hr.
  - rewrite (stop_listening_registered self message n r Hr). cbn zeta.
    pose proof (finish_session_stable worker_ok worker_ok_step self
                  (deref self r) (st_site_id message)
                  (st_session_id message) n) as F.
    pose proof (finish_session_cases self (deref self r)
                  (st_site_id message) (st_session_id message) n) as C.
    destruct (finish_session self (deref self r) _ _ n)
      as [[results info'] ex].
    cbn [fst snd] in F. destruct C as (_ & _ & Cre & _).
    destruct ex as [e|]; cbn; [auto|].
    destruct (Info.reuse info') eqn:Ere; cbn; [|auto].
    destruct (bool_decide (Info.transcriber info' <> None)) eqn:Etr; cbn;
      [|auto].
    apply bool_decide_eq_true in Etr.
    intros r' Hin. apply in_app_or in Hin as [Hin|[<-|[]]]; [auto|].
    right.
    destruct (heap self !! r) as [info0|] eqn:Hl.
    + exists (reset_state info'). split.
      * apply list_lookup_insert_eq. eapply lookup_lt_Some; eauto.
      * assert (Hok : on_worker worker_ok info').
        { apply F. rewrite (deref_lookup self r info0 Hl).
          eapply Forall_lookup_1; eauto. }
        unfold on_worker, worker_ok, past_start in *. cbn.
        destruct Hok as (Hn & Hs).
        destruct (Info.thread info') as [[| |]|]; auto.
        -- exfalso. apply Etr. auto.
        -- congruence.
    + exfalso. unfold deref in Cre. rewrite Hl in Cre. cbn in Cre.
      specialize (Cre eq_refl). congruence.
  - rewrite (stop_listening_absent self message n Hr). auto.
Qed.

(** The invariant is kept by every event. *)
Lemma pool_constructed_evolves self self' :
  evolves worker_ok (heap self) (heap self') ->
  evolves past_start (heap self) (heap self') ->
  (forall r,
      In r (free_transcribers self') ->
      In r (free_transcribers self) \/
      exists info, heap self' !! r = Some info /\ on_worker past_start info) ->
  pool_constructed self -> pool_constructed self'.
Proof.
  intros E1 E2 Hfree (I1 & I2). split.
  - apply (evolves_Forall worker_ok _ _ E1); [|exact I1].
    split; congruence.
  - apply List.Forall_forall. intros r Hin.
    destruct (Hfree r Hin) as [Hold|Hnew]; [|exact Hnew].
    rewrite List.Forall_forall in I2.
    destruct (I2 r Hold) as (info & Hl & Hp).
    eapply evolves_lookup; eauto.
Qed.

Lemma stop_listening_pool self (message : AsrStopListening) n :
  pool_constructed self ->
  pool_constructed (snd (stop_listening self message n)).
Proof.
  intros I. apply (pool_constructed_evolves self); auto.
  - apply stop_listening_evolves, worker_ok_step.
  - apply stop_listening_evolves, past_start_step.
  - apply stop_listening_pooled. apply I.
Qed.

Lemma stop_existing_pool self (message : AsrStartListening) n :
  pool_constructed self ->
  pool_constructed (snd (stop_existing self message n)).
Proof.
  intros I. unfold stop_existing.
  destruct (dict_get (sessions self) (sl_session_id message));
    [apply stop_listening_pool, I | exact I].
Qed.

Lemma start_listening_pool self (message : AsrStartListening) n :
  pool_constructed self ->
  pool_constructed (snd (start_listening self message n)).
Proof.
  intros I.
  pose proof (stop_existing_pool self message n I) as I1.
  pose proof (start_listening_stored self message n) as S. cbn zeta in S.
  pose proof (start_listening_evolves worker_ok worker_ok_step self message n)
    as E1.
  pose proof (start_listening_evolves past_start past_start_step self message n)
    as E2.
  set (self1 := snd (stop_existing self message n)) in *.
  split.
  - apply (evolves_Forall worker_ok _ _ E1); [split; congruence|apply I].
  - apply List.Forall_forall. intros r Hin.
    assert (Hin1 : In r (free_transcribers self1)).
    { unfold acquire in S.
      destruct (pop (free_transcribers self1)) as [[rest r0]|] eqn:Ep.
      - destruct S as (info & _ & S2 & _). rewrite S2 in Hin. cbn in Hin.
        rewrite (pop_some _ _ _ Ep). apply in_or_app. auto.
      - destruct S as (info & _ & S2 & _). rewrite S2 in Hin. exact Hin. }
    destruct I1 as (_ & I1). rewrite List.Forall_forall in I1.
    destruct (I1 r Hin1) as (info1 & Hl1 & Hp1).
    assert (E : evolves past_start (heap self1)
                  (heap (snd (start_listening self message n)))).
    { unfold acquire in S.
      destruct (pop (free_transcribers self1)) as [[rest r0]|].
      - destruct S as (info & S1 & _ & S3 & S4 & _). rewrite S1. cbn.
        apply evolves_insert. intros info0 Hl Hp.
        unfold on_worker. rewrite S3, S4.
        rewrite (deref_lookup (set_free_transcribers rest self1) r0 info0 Hl).
        exact Hp.
      - destruct S as (info & S1 & _ & S3 & S4 & _). rewrite S1.
        cbn [heap set_heap] in *.
        eapply evolves_trans; [apply evolves_app|apply evolves_insert].
        + intros Hp. exact Hp.
        + intros info0 Hl Hp. unfold on_worker. rewrite S3, S4.
          unfold deref. cbn [heap set_heap]. rewrite Hl. exact Hp. }
    eapply evolves_lookup; eauto.
Qed.

Lemma handle_audio_frame_pool self frame_wav_bytes site_id session_id sched :
  pool_constructed self ->
  pool_constructed
    (snd (fst (handle_audio_frame self frame_wav_bytes site_id session_id
                 sched))).
Proof.
  intros I. apply (pool_constructed_evolves self); auto.
  - apply handle_audio_frame_evolves, worker_ok_step.
  - apply handle_audio_frame_evolves, past_start_step.
  - intros r0 Hin. left.
    rewrite handle_audio_frame_free in Hin. exact Hin.
Qed.

Lemma on_message_blocking_pool self (message : incoming) site_id session_id
  n sched :
  pool_constructed self ->
  pool_constructed
    (snd (fst (on_message_blocking self message site_id session_id n sched))).
Proof.
  intros I.
  destruct message as [reason|reason|wav|wav|message|message|]; cbn.
  - destruct (match reason with
              | UNKNOWN => []
              | _ => set_discard reason (disabled_reasons self)
              end); exact I.
  - exact I.
  - destruct (enabled self); [|exact I].
    destruct (first_audio self).
    + apply (handle_audio_frame_pool (set_first_audio false self)). exact I.
    + apply handle_audio_frame_pool, I.
  - destruct (enabled self); [|exact I].
    destruct (dict_get (sessions self) session_id); [|exact I].
    destruct (first_audio self).
    + apply (handle_audio_frame_pool (set_first_audio false self)). exact I.
    + apply handle_audio_frame_pool, I.
  - apply start_listening_pool, I.
  - apply stop_listening_pool, I.
  - exact I.
Qed.

Lemma step_pool self (ev : event) :
  pool_constructed self -> pool_constructed (snd (step self ev)).
Proof.
  intros I.
  destruct ev as [message site_id session_id n sched|r].
  - apply on_message_blocking_pool, I.
  - apply (pool_constructed_evolves self); auto.
    + apply (step_evolves worker_ok worker_ok_step self (WorkerStep r)).
    + apply (step_evolves past_start past_start_step self (WorkerStep r)).
    + intros r0 Hin. left. cbn in Hin.
      destruct (heap self !! r); exact Hin.
Qed.

(** In every state the service reaches, the workers in the pool are past
    the construction of their transcriber. *)
Lemma run_pool evs :
  forall self,
    pool_constructed self -> pool_constructed (snd (run self evs)).
Proof.
  induction evs as [|ev evs IH]; intros self I; cbn; [exact I|].
  pose proof (step_pool self ev I) as I1.
  destruct (step self ev) as [results self1].
  specialize (IH self1 I1).
  destruct (run self1 evs) as [more self2]. exact IH.
Qed.

Lemma init_pool tf rf cv wv reuse port sr sw ch lg en :
  pool_constructed (init (T := T) (R := R) tf rf cv wv reuse port sr sw ch lg en).
Proof. split; constructor. Qed.

End PoolInvariant.

Section PoolClaims.
Context {T R : Type} `{Transcriber T} `{VoiceCommandRecorder R}.
Implicit Type self : AsrHermesMqtt T R.
Implicit Type info : TranscriberInfo T R.

(** C5. In [start_listening], once an existing session of the same id has
    been stopped: when the pool is not empty, its last worker is taken from
    it, no [TranscriberInfo] is created and no thread is started; when the
    pool is empty, one [TranscriberInfo] is created, with its thread started
    and its transcriber still to be constructed by that thread. A pool that
    is not empty when [start_listening] is called is not empty at that
    point, so a worker is created only if the pool was empty. In every state
    the service reaches, the workers in the pool are past the construction
    of their transcriber: the thread of the worker taken from the pool never
    calls the factory again. *)
Theorem start_listening_reuses_pool self (message : AsrStartListening) n :
  let self1 := snd (stop_existing self message n) in
  let self' := snd (start_listening self message n) in
  (free_transcribers self1 <> [] ->
   exists rest r,
     free_transcribers self1 = rest ++ [r] /\
     fst (acquire self1) = r /\
     free_transcribers self' = rest /\
     length (heap self') = length (heap self) /\
     threads self' = threads self)
  /\ (free_transcribers self <> [] -> free_transcribers self1 <> [])
  /\ (free_transcribers self1 = [] ->
      fst (acquire self1) = length (heap self) /\
      length (heap self') = S (length (heap self)) /\
      threads self' = threads self ++ [true] /\
      exists info,
        heap self' !! length (heap self) = Some info /\
        Info.thread info = Some Starting /\
        Info.transcriber info = None /\
        Info.reuse info = reuse_transcribers self)
  /\ (length (heap self') <> length (heap self) ->
      free_transcribers self1 = [] /\ free_transcribers self = [])
  /\ (pool_constructed self ->
      free_transcribers self1 <> [] ->
      let info := deref self' (fst (acquire self1)) in
      on_worker past_start info /\
      forall k, ~ In CallFactory (snd (transcribe_proc_run self' k info)))
  /\ (forall tf rf cv wv reuse port sr sw ch lg en evs,
        pool_constructed
          (snd (run (init (T := T) (R := R) tf rf cv wv reuse port sr sw ch lg en)
                  evs))).
Proof.
  cbn zeta.
  assert (Built : pool_constructed self ->
    free_transcribers (snd (stop_existing self message n)) <> [] ->
    on_worker past_start
      (deref (snd (start_listening self message n))
         (fst (acquire (snd (stop_existing self message n)))))).
  { intros I Hne.
    pose proof (stop_existing_pool self message n I) as (_ & I1).
    pose proof (start_listening_stored self message n) as S. cbn zeta in S.
    unfold acquire in *.
    destruct (pop (free_transcribers (snd (stop_existing self message n))))
      as [[rest r]|] eqn:Ep.
    - destruct S as (info & S1 & _ & S3 & _). cbn [fst].
      rewrite List.Forall_forall in I1.
      destruct (I1 r) as (info1 & Hl1 & Hp1).
      { rewrite (pop_some _ _ _ Ep). apply in_or_app. right. left.
        reflexivity. }
      cbn [heap set_free_transcribers] in S1.
      assert (Hd : deref (snd (start_listening self message n)) r = info).
      { unfold deref. rewrite S1.
        rewrite list_lookup_insert_eq by (eapply lookup_lt_Some; eauto).
        reflexivity. }
      rewrite Hd. unfold on_worker, past_start in *. rewrite S3.
      unfold deref. cbn [heap set_free_transcribers]. rewrite Hl1.
      exact Hp1.
    - apply pop_nil in Ep. contradiction. }
  pose proof (stop_existing_heap self message n) as (L1 & more & F1).
  pose proof (stop_existing_threads self message n) as T1.
  pose proof (start_listening_stored self message n) as S.
  cbn zeta in S.
  assert (Rt : reuse_transcribers (snd (stop_existing self message n))
               = reuse_transcribers self).
  { unfold stop_existing.
    destruct (dict_get (sessions self) (sl_session_id message)) as [r|] eqn:E;
      [|reflexivity].
    rewrite (stop_listening_registered self
               {| st_site_id := sl_site_id message;
                  st_session_id := sl_session_id message |} n r E).
    cbn zeta.
    destruct (finish_session self (deref self r) _ _ n)
      as [[results info] [e|]]; cbn; [reflexivity|].
    destruct (Info.reuse info && bool_decide (Info.transcriber info <> None));
      reflexivity. }
  set (self1 := snd (stop_existing self message n)) in *.
  set (self' := snd (start_listening self message n)) in *.
  assert (Pooled : free_transcribers self1 <> [] ->
    exists rest r,
      free_transcribers self1 = rest ++ [r] /\
      fst (acquire self1) = r /\
      free_transcribers self' = rest /\
      length (heap self') = length (heap self) /\
      threads self' = threads self).
  { intros Hne. unfold acquire in *.
    destruct (pop (free_transcribers self1)) as [[rest r]|] eqn:Ep.
    - destruct S as (info & S1 & S2 & S3 & _).
      exists rest, r. split; [apply pop_some, Ep|]. cbn in *.
      repeat split; auto.
      + rewrite S1, length_insert. exact L1.
      + rewrite <- T1. unfold threads. rewrite S1.
        change (map has_thread)
          with (fmap (M := list) (has_thread (T := T) (R := R))).
        rewrite list_fmap_insert.
        destruct (heap self1 !! r) as [i0|] eqn:Hl.
        * apply list_insert_id. rewrite list_lookup_fmap, Hl. cbn.
          unfold has_thread. rewrite S3. unfold deref. cbn. rewrite Hl.
          reflexivity.
        * apply list_insert_ge. rewrite length_fmap.
          apply lookup_ge_None, Hl.
    - apply pop_nil in Ep. contradiction. }
  split; [exact Pooled|]. split; [|split; [|split; [|split]]].
  - intros Hne E. rewrite F1 in E. apply app_eq_nil in E. tauto.
  - intros Hnil. unfold acquire in *.
    assert (Ep : pop (free_transcribers self1) = None)
      by (apply pop_nil, Hnil).
    rewrite Ep in *. cbn in S |- *.
    destruct S as (info & S1 & S2 & S3 & S4 & S5). rewrite L1 in *.
    assert (Hd : deref (set_heap
                   (heap self1 ++
                      [Info.set_thread (Some Starting)
                         (Info.new (reuse_transcribers self1))]) self1)
                   (length (heap self))
                 = Info.set_thread (Some Starting)
                     (Info.new (reuse_transcribers self1))).
    { unfold deref. cbn [heap set_heap]. rewrite <- L1.
      rewrite list_lookup_middle by reflexivity. reflexivity. }
    rewrite Hd in S3, S4, S5. cbn in S3, S4, S5.
    assert (Hh : heap self' = heap self1 ++ [info]).
    { rewrite S1. rewrite <- L1.
      replace (length (heap self1)) with (length (heap self1) + 0)%nat by lia.
      rewrite insert_app_r. reflexivity. }
    split; [reflexivity|]. split; [|split].
    + rewrite Hh, length_app, L1. cbn. lia.
    + unfold threads in *. rewrite Hh, map_app, T1. cbn.
      unfold has_thread. rewrite S3. reflexivity.
    + exists info. rewrite Hh, <- L1.
      rewrite list_lookup_middle by reflexivity.
      repeat split; auto. congruence.
  - intros Hlen.
    destruct (free_transcribers self1) as [|x l] eqn:E1.
    + split; [reflexivity|].
      symmetry in F1. apply app_eq_nil in F1. tauto.
    + destruct Pooled as (rest & r & _ & _ & _ & P & _); [discriminate|].
      contradiction.
  - intros I Hne. split; [exact (Built I Hne)|].
    intros k. apply past_start_no_factory. exact (Built I Hne).
  - intros. apply run_pool, init_pool.
Qed.

End PoolClaims.

(** In the demo service a worker is in the pool after the first session:
    the second session takes it, and the heap still has one object. *)
Lemma start_listening_reuses_pool_witness :
  free_transcribers Demo.after_first_session = [0%nat] /\
  free_transcribers Demo.second_session_started = [] /\
  length (heap Demo.second_session_started) = 1%nat /\
  threads Demo.second_session_started = [true].
Proof.
  destruct (proj1 (start_listening_reuses_pool Demo.after_first_session
                     (Demo.start "kitchen" "s2" false true) 0%nat))
    as (rest & r & E1 & E2 & E3 & E4 & E5).
  { vm_compute. discriminate. }
  split; [reflexivity|].
  assert (Hr : rest = []).
  { vm_compute in E1. destruct rest as [|x [|y l]]; [reflexivity| |];
      discriminate E1. }
  rewrite Hr in E3.
  split; [exact E3|]. split.
  - etransitivity; [exact E4|]. reflexivity.
  - etransitivity; [exact E5|]. reflexivity.
Defined.

(** * Further properties *)

(** ** The stream of frames *)

(** X1. [audio_stream] yields exactly the frames queued before the first
    entry that is [None] or an empty frame; that entry is pulled from the
    queue too and the entries behind it stay queued. When the queue has no
    such entry, the stream does not end: it blocks in [frame_queue.get()]. *)
Theorem audio_stream_until_end_marker (q : list (option bytes)) :
  (forall frames rest,
      audio_stream q = Some (frames, rest) <->
      exists marker,
        q = map Some frames ++ marker :: rest /\
        falsy_frame marker = true /\
        Forall (fun f => bytes_truthy f = true) frames)
  /\ (audio_stream q = None <->
      Forall (fun f => falsy_frame f = false) q).
Proof.
  induction q as [|x q (IH1 & IH2)].
  - split.
    + intros frames rest. split; [discriminate|].
      intros (marker & E & _). destruct frames; discriminate E.
    + split; [constructor | reflexivity].
  - destruct x as [b|]; cbn [audio_stream].
    + destruct (bytes_truthy b) eqn:Eb.
      * split.
        -- intros frames rest. split.
           ++ destruct (audio_stream q) as [[fs rs]|] eqn:Eq; [|discriminate].
              intros [= <- <-].
              destruct (proj1 (IH1 fs rs) eq_refl) as (marker & E & Hm & Hf).
              exists marker. subst q. repeat split; auto.
           ++ intros (marker & E & Hm & Hf).
              destruct frames as [|f frames]; cbn in E.
              ** injection E as <- _. cbn in Hm. rewrite Eb in Hm.
                 discriminate Hm.
              ** injection E as <- E. inversion Hf as [|? ? Hf1 Hf2]; subst.
                 rewrite (proj2 (IH1 frames rest)); [reflexivity|].
                 exists marker. auto.
        -- split.
           ++ destruct (audio_stream q) as [[fs rs]|] eqn:Eq; [discriminate|].
              intros _. constructor; [cbn; rewrite Eb; reflexivity|].
              apply IH2. reflexivity.
           ++ intros Hall. inversion Hall as [|? ? _ Hq]; subst.
              rewrite (proj2 IH2 Hq). reflexivity.
      * split.
        -- intros frames rest. split.
           ++ intros [= <- <-]. exists (Some b). cbn. rewrite Eb. auto.
           ++ intros (marker & E & Hm & Hf).
              destruct frames as [|f frames]; cbn in E.
              ** injection E as _ <-. reflexivity.
              ** injection E as <- _. inversion Hf as [|? ? Hf1 _]; subst.
                 congruence.
        -- split; [discriminate|].
           intros Hall. inversion Hall as [|? ? Hx _]; subst.
           cbn in Hx. rewrite Eb in Hx. discriminate Hx.
    + split.
      * intros frames rest. split.
        -- intros [= <- <-]. exists None. cbn. auto.
        -- intros (marker & E & Hm & Hf).
           destruct frames as [|f frames]; cbn in E.
           ++ injection E as _ <-. reflexivity.
           ++ discriminate E.
      * split; [discriminate|].
        intros Hall. inversion Hall as [|? ? Hx _]; subst. discriminate Hx.
Qed.

(** Two frames and the end of the utterance, then a frame of the next
    utterance. *)
Lemma audio_stream_until_end_marker_witness :
  audio_stream [Some Demo.speech1; Some Demo.speech2; None; Some Demo.speech1]
  = Some ([Demo.speech1; Demo.speech2], [Some Demo.speech1]).
Proof.
  apply (proj2 (proj1 (audio_stream_until_end_marker _) _ _)).
  exists None. repeat split. repeat constructor.
Defined.

(** ** The calls of a worker to the recognizer *)

Section WorkerCalls.
Context {T R : Type} `{Transcriber T}.
Implicit Type self : AsrHermesMqtt T R.
Implicit Type info : TranscriberInfo T R.

Lemma count_cons {A} (p : A -> bool) (x : A) (l : list A) :
  count p (x :: l) = ((if p x then 1 else 0) + count p l)%nat.
Proof. unfold count. cbn. destruct (p x); reflexivity. Qed.

(** A thread that is not at its start does not call the factory, and does
    not go back to its start. *)
Lemma step_not_starting self info :
  Info.thread info <> Some Starting ->
  count is_factory_call (snd (transcribe_proc_step self info)) = 0%nat /\
  Info.thread (fst (transcribe_proc_step self info)) <> Some Starting.
Proof.
  intros Hns. unfold transcribe_proc_step.
  destruct (Info.thread info) as [[| |]|] eqn:Et; cbn; rewrite ?Et;
    try (split; [reflexivity|congruence]).
  - congruence.
  - destruct (Info.ready_event info); cbn; rewrite ?Et;
      [|split; [reflexivity|congruence]].
    destruct (Info.transcriber info) as [t|] eqn:En; cbn; rewrite ?En.
    + destruct (audio_stream (Info.frame_queue info)) as [[frames rest]|];
        cbn; rewrite ?Et; [|split; [reflexivity|congruence]].
      unfold transcribe_cycle.
      destruct (transcribe_stream _ _ _ _ _) as [t' [[res|]|e]]; cbn;
        try (split; [reflexivity|congruence]).
      destruct (str_truthy (text res)); cbn;
        [|split; [reflexivity|congruence]].
      destruct (reuse_transcribers self); cbn; rewrite ?Et;
        [split; [reflexivity|congruence]|].
      destruct (transcriber_stop t'); cbn. split; [reflexivity|congruence].
    + split; [reflexivity|congruence].
Qed.

Lemma run_not_starting self n :
  forall info,
    Info.thread info <> Some Starting ->
    count is_factory_call (snd (transcribe_proc_run self n info)) = 0%nat.
Proof.
  induction n as [|n IH]; intros info Hns; cbn; [reflexivity|].
  pose proof (step_not_starting self info Hns) as (S1 & S2).
  destruct (transcribe_proc_step self info) as [info1 c1].
  specialize (IH info1 S2).
  destruct (transcribe_proc_run self n info1) as [info2 c2].
  cbn [fst snd] in *. rewrite count_app, S1, IH. reflexivity.
Qed.

(** The first step of a thread calls the factory once and leaves the
    start. *)
Lemma step_starting self info :
  Info.thread info = Some Starting ->
  count is_factory_call (snd (transcribe_proc_step self info)) = 1%nat /\
  count is_transcribe_call (snd (transcribe_proc_step self info)) = 0%nat /\
  Info.thread (fst (transcribe_proc_step self info)) <> Some Starting.
Proof.
  intros Et. unfold transcribe_proc_step. rewrite Et.
  destruct (transcriber_factory self (kaldi_port self)) as [[t|]|e]; cbn.
  - repeat split; congruence.
  - repeat split; congruence.
  - destruct (Info.transcriber info); cbn; repeat split; congruence.
Qed.

(** Without reuse of transcribers, a step that decodes stops the transcriber
    and ends the thread. *)
Lemma step_single_decode self info :
  reuse_transcribers self = false ->
  let '(info', calls) := transcribe_proc_step self info in
  count is_transcribe_call calls = 0%nat \/
  (Info.thread info' = Some Exited /\
   exists t frames t', calls = [CallTranscribe t frames; CallStop t']).
Proof.
  intros Hre. unfold transcribe_proc_step.
  destruct (Info.thread info) as [[| |]|] eqn:Et;
    try (left; reflexivity).
  - destruct (transcriber_factory self (kaldi_port self)) as [[t|]|e];
      cbn; try (left; reflexivity).
    destruct (Info.transcriber info); left; reflexivity.
  - destruct (Info.ready_event info); [|left; reflexivity].
    destruct (Info.transcriber info) as [t|] eqn:En.
    + destruct (audio_stream (Info.frame_queue info)) as [[frames rest]|];
        [|left; reflexivity].
      unfold transcribe_cycle. rewrite Hre.
      destruct (transcribe_stream _ _ _ _ _) as [t' [[res|]|e]]; cbn;
        try (right; split; [reflexivity|eauto]).
      destruct (str_truthy (text res)); cbn.
      * destruct (transcriber_stop t'); cbn.
        right. split; [reflexivity|eauto].
      * right. split; [reflexivity|eauto].
    + cbn. rewrite En. left. reflexivity.
Qed.

(** X2. In any run of a worker thread the factory is called at most once.
    When transcribers are not reused, the thread decodes at most one
    utterance, and when it has decoded one, the call that follows is the
    stop of the transcriber, it is the last call, and the thread has
    returned. *)
Theorem worker_calls_bounded self n :
  forall info,
    let '(info', calls) := transcribe_proc_run self n info in
    (count is_factory_call calls <= 1)%nat /\
    (reuse_transcribers self = false ->
     (count is_transcribe_call calls <= 1)%nat /\
     (count is_transcribe_call calls = 1%nat ->
      Info.thread info' = Some Exited /\
      exists before t frames t',
        calls = before ++ [CallTranscribe t frames; CallStop t'])).
Proof.
  induction n as [|n IH]; intros info; cbn.
  - split; [unfold count; cbn; lia|]. intros _. split; [unfold count; cbn; lia|].
    unfold count. cbn. discriminate.
  - pose proof (step_single_decode self info) as D.
    destruct (decide (Info.thread info = Some Starting)) as [Es|Ens].
    + pose proof (step_starting self info Es) as (S1 & S2 & S3).
      destruct (transcribe_proc_step self info) as [info1 c1].
      pose proof (run_not_starting self n info1 S3) as N.
      specialize (IH info1).
      destruct (transcribe_proc_run self n info1) as [info2 c2].
      cbn [fst snd] in *. rewrite !count_app, S1, S2, N.
      destruct IH as (_ & IH). split; [lia|].
      intros Hre. destruct (IH Hre) as (I1 & I2). split; [lia|].
      intros E1. destruct (I2 E1) as (Hx & before & t & frames & t' & ->).
      split; [exact Hx|]. exists (c1 ++ before), t, frames, t'.
      rewrite app_assoc. reflexivity.
    + pose proof (step_not_starting self info Ens) as (S1 & S3).
      destruct (transcribe_proc_step self info) as [info1 c1].
      pose proof (run_not_starting self n info1 S3) as N.
      pose proof (transcribe_proc_run_exited self n info1) as X.
      specialize (IH info1).
      destruct (transcribe_proc_run self n info1) as [info2 c2].
      cbn [fst snd] in *. rewrite !count_app, S1, N.
      destruct IH as (_ & IH). split; [lia|].
      intros Hre.
      destruct (D Hre) as [D0|(Dx & t & frames & t' & ->)].
      * destruct (IH Hre) as (I1 & I2). rewrite D0. split; [lia|].
        intros E1. destruct (I2 E1) as (Hx & before & t & frames & t' & ->).
        split; [exact Hx|]. exists (c1 ++ before), t, frames, t'.
        rewrite app_assoc. reflexivity.
      * specialize (X Dx). injection X as -> ->.
        rewrite app_nil_r. split; [unfold count; cbn; lia|].
        intros _. split; [exact Dx|].
        exists [], t, frames, t'. reflexivity.
Qed.

End WorkerCalls.

(** The demo worker, without reuse, with two utterances queued: it decodes
    the first one only. *)
Lemma worker_calls_bounded_witness :
  snd (transcribe_proc_run (Demo.service false) 5
         (Demo.worker [Some Demo.speech1; None; Some Demo.speech2; None]))
  = [CallFactory; CallTranscribe tt [Demo.speech1]; CallStop tt].
Proof.
  generalize (worker_calls_bounded (Demo.service false) 5
                (Demo.worker
                   [Some Demo.speech1; None; Some Demo.speech2; None])).
  destruct (transcribe_proc_run _ _ _) as [info' calls] eqn:E.
  vm_compute in E. injection E as <- <-.
  intros (_ & P). destruct (P eq_refl) as (_ & P2).
  destruct (P2 eq_refl) as (_ & before & t & frames & t' & E).
  reflexivity.
Defined.

(** ** From the frames to the transcript *)

Section Delivery.
Context {T R : Type} `{Transcriber T} `{VoiceCommandRecorder R}.
Implicit Type self : AsrHermesMqtt T R.
Implicit Type info : TranscriberInfo T R.

Lemma wait_result_event_set self n info :
  Info.result_event info = true ->
  wait_result_event self n info = (true, info).
Proof. intros E. destruct n; cbn; rewrite E; reflexivity. Qed.

(** X3. A session is finalized while its worker waits for it with a
    transcriber, and the worker gets time to decode. The recognizer is given
    the frames queued for the session up to the end marker that
    [finish_session] queues; when it returns a transcription with text, the
    messages are the recording-finished message, then the text-captured
    message with the text, likelihood, seconds and token ranges of that
    transcription and the language of the session (or of the service), then
    the captured audio if asked for. The worker stays as reusable as it
    was. *)
Theorem finish_session_delivers_transcription self info
  (site_id : string) (session_id : option string) (n : nat)
  (t t' : T) (frames : list bytes) (rest : list (option bytes))
  (res : Transcription) (sl : AsrStartListening) (audio_data : bytes) :
  Info.result_sent info = false ->
  Info.result_event info = false ->
  Info.thread info = Some WaitingReady ->
  Info.ready_event info = true ->
  Info.transcriber info = Some t ->
  Info.start_listening info = Some sl ->
  session_audio info = Returns audio_data ->
  audio_stream (Info.frame_queue info ++ [None]) = Some (frames, rest) ->
  transcribe_stream t frames (sample_rate self) (sample_width self)
    (channels self) = (t', Returns (Some res)) ->
  str_truthy (text res) = true ->
  (0 < n)%nat ->
  let '(results, info', ex) :=
    finish_session self info site_id session_id n in
  ex = None /\
  results =
    [AsrRecordingFinished site_id session_id;
     AsrTextCaptured (text res) (likelihood res) (transcribe_seconds res)
       site_id session_id (asr_tokens_of res)
       (or_str (sl_lang sl) (lang self))]
    ++ audio_captured self sl audio_data site_id session_id /\
  Info.result info' = Some res /\
  Info.result_sent info' = true /\
  Info.frame_queue info' = rest /\
  Info.reuse info' = Info.reuse info.
Proof.
  intros Hs He Ht Hr Htr Hsl Ha Hq Hd Htx Hn.
  destruct n as [|n]; [lia|].
  assert (W : forall i,
    Info.result_event i = false ->
    Info.thread i = Some WaitingReady ->
    Info.ready_event i = true ->
    Info.transcriber i = Some t ->
    Info.frame_queue i = Info.frame_queue info ++ [None] ->
    exists i',
      wait_result_event self (S n) i = (true, i') /\
      Info.result i' = Some res /\
      Info.frame_queue i' = rest /\
      Info.reuse i' = Info.reuse i /\
      Info.start_listening i' = Info.start_listening i /\
      Info.result_sent i' = Info.result_sent i).
  { intros i E1 E2 E3 E4 E5. cbn [wait_result_event]. rewrite E1.
    unfold transcribe_proc_step. rewrite E2, E3, E4, E5, Hq.
    unfold transcribe_cycle. rewrite Hd, Htx.
    destruct (reuse_transcribers self); cbn.
    - eexists. rewrite wait_result_event_set by reflexivity.
      repeat split.
    - destruct (transcriber_stop t') as [t'' o]. cbn.
      eexists. rewrite wait_result_event_set by reflexivity.
      repeat split. }
  unfold finish_session. unfold session_audio in Ha.
  destruct (Info.recorder info) as [r|].
  - destruct (recorder_stop r) as [r' o]. cbn in Ha. subst o.
    cbn [Info.result_sent Info.set_recorder]. rewrite Hs.
    match goal with |- context [wait_result_event self (S n) ?i] =>
      destruct (W i) as (i' & -> & W1 & W2 & W3 & W4 & W5);
        [exact He|exact Ht|exact Hr|exact Htr|reflexivity|]
    end.
    cbn in W3, W4, W5. rewrite W4, Hsl.
    unfold text_captured, audio_captured. rewrite W1.
    repeat split; auto.
  - destruct (Info.audio_buffer info) as [b|]; [|discriminate Ha].
    injection Ha as ->. rewrite Hs.
    match goal with |- context [wait_result_event self (S n) ?i] =>
      destruct (W i) as (i' & -> & W1 & W2 & W3 & W4 & W5);
        [exact He|exact Ht|exact Hr|exact Htr|reflexivity|]
    end.
    cbn in W3, W4, W5. rewrite W4, Hsl.
    unfold text_captured, audio_captured. rewrite W1.
    repeat split; auto.
Qed.

End Delivery.

(** The session of the demo service that has got one frame of speech is
    finalized, and its worker gets one step. *)
Lemma finish_session_delivers_transcription_witness :
  fst (fst (finish_session Demo.listening
              (Info.set_thread (Some WaitingReady)
                 (Info.set_transcriber (Some tt) (deref Demo.listening 0)))
              "kitchen" (Some "s1") 1))
  = [AsrRecordingFinished "kitchen" (Some "s1");
     AsrTextCaptured "go home" 1%Q 0%Q "kitchen" (Some "s1")
       (asr_tokens_of Demo.go_home) None;
     AsrAudioCaptured Demo.speech1 "kitchen" (Some "s1")].
Proof.
  generalize (finish_session_delivers_transcription Demo.listening
                (Info.set_thread (Some WaitingReady)
                   (Info.set_transcriber (Some tt) (deref Demo.listening 0)))
                "kitchen" (Some "s1") 1%nat tt tt [Demo.speech1] []
                Demo.go_home (Demo.start "kitchen" "s1" false true)
                Demo.speech1
                eq_refl eq_refl eq_refl eq_refl eq_refl eq_refl eq_refl
                eq_refl eq_refl eq_refl (Nat.lt_0_succ 0)).
  destruct (finish_session _ _ _ _ _) as [[results info'] ex].
  intros (_ & P & _). exact P.
Defined.

(** ** Configuration and switch *)

Section Switch.
Context {T R : Type} `{Transcriber T} `{VoiceCommandRecorder R}.
Implicit Type self : AsrHermesMqtt T R.
Implicit Type info : TranscriberInfo T R.

Lemma same_config_refl self : same_config self self.
Proof. unfold same_config. tauto. Qed.

Lemma same_config_trans self1 self2 self3 :
  same_config self1 self2 -> same_config self2 self3 ->
  same_config self1 self3.
Proof. unfold same_config. intuition congruence. Qed.

Lemma stop_listening_config self (message : AsrStopListening) n :
  same_config self (snd (stop_listening self message n)).
Proof.
  unfold stop_listening.
  destruct (dict_get (sessions self) (st_session_id message)) as [r|];
    [|apply same_config_refl].
  cbn zeta.
  destruct (finish_session _ _ _ _ _) as [[results info] [e|]];
    [unfold same_config; cbn; tauto|].
  destruct (Info.reuse info && bool_decide (Info.transcriber info <> None));
    unfold same_config; cbn; tauto.
Qed.

Lemma start_listening_config self (message : AsrStartListening) n :
  same_config self (snd (start_listening self message n)).
Proof.
  unfold start_listening.
  assert (S : same_config self (snd (stop_existing self message n))).
  { unfold stop_existing.
    destruct (dict_get (sessions self) (sl_session_id message));
      [apply stop_listening_config | apply same_config_refl]. }
  destruct (stop_existing self message n) as [stopped self1]. cbn [snd] in S.
  eapply same_config_trans; [exact S|].
  unfold acquire.
  destruct (pop (free_transcribers self1)) as [[rest r]|];
    destruct (begin_recording _ message _) as [info [e|]];
    unfold same_config; cbn; tauto.
Qed.

Lemma route_targets_config targets audio_data site_id sched :
  forall self,
    same_config self
      (snd (route_targets self targets audio_data site_id sched)).
Proof.
  induction targets as [|[target_id r] targets IH]; intros self; cbn.
  - apply same_config_refl.
  - destruct (route_frame_caught self (deref self r) audio_data site_id
                target_id (sched target_id)) as [results info].
    specialize (IH (store self r info)).
    destruct (route_targets (store self r info) targets audio_data site_id
                sched) as [more self2].
    cbn [snd] in *. eapply same_config_trans; [|exact IH].
    unfold same_config; cbn; tauto.
Qed.

Lemma handle_audio_frame_config self frame_wav_bytes site_id session_id
  sched :
  same_config self
    (snd (fst (handle_audio_frame self frame_wav_bytes site_id session_id
                 sched))).
Proof.
  unfold handle_audio_frame.
  destruct (sessions self) as [|s0 l]; [apply same_config_refl|].
  destruct (maybe_convert_wav self frame_wav_bytes) as [audio_data|e];
    [|apply same_config_refl].
  destruct session_id as [sid|].
  - destruct (dict_get (s0 :: l) (Some sid)) as [r|];
      [|apply same_config_refl].
    apply route_targets_config.
  - apply route_targets_config.
Qed.

Lemma set_discard_NoDup (x : AsrToggleReason) (s : list AsrToggleReason) :
  NoDup s -> NoDup (set_discard x s).
Proof.
  intros Hs. unfold set_discard.
  induction Hs as [|y l Hy Hl IH]; cbn; [constructor|].
  destruct (negb (bool_decide (y = x))); [|exact IH].
  constructor; [|exact IH].
  intros Hin. apply Hy. apply list_elem_of_In in Hin.
  apply List.filter_In in Hin. apply list_elem_of_In. tauto.
Qed.

Lemma set_discard_In (x y : AsrToggleReason) (s : list AsrToggleReason) :
  In y (set_discard x s) <-> In y s /\ y <> x.
Proof.
  unfold set_discard. rewrite List.filter_In.
  destruct (bool_decide (y = x)) eqn:E.
  - apply bool_decide_eq_true in E. cbn. split; [intros (_ & D)|tauto].
    discriminate D.
  - apply bool_decide_eq_false in E. cbn. tauto.
Qed.

Lemma set_add_NoDup (x : AsrToggleReason) (s : list AsrToggleReason) :
  NoDup s -> NoDup (set_add x s).
Proof.
  intros Hs. unfold set_add.
  destruct (existsb (fun y => bool_decide (y = x)) s) eqn:E; [exact Hs|].
  apply NoDup_app. split; [exact Hs|]. split; [|apply NoDup_singleton].
  intros y Hy Hx. apply list_elem_of_singleton in Hx. subst y.
  apply list_elem_of_In in Hy.
  assert (Ht : existsb (fun y => bool_decide (y = x)) s = true).
  { apply existsb_exists. exists x. split; [exact Hy|].
    apply bool_decide_eq_true. reflexivity. }
  congruence.
Qed.

Lemma set_add_In (x : AsrToggleReason) (s : list AsrToggleReason) :
  In x (set_add x s).
Proof.
  unfold set_add.
  destruct (existsb (fun y => bool_decide (y = x)) s) eqn:E.
  - apply existsb_exists in E as (y & Hy & Ey).
    apply bool_decide_eq_true in Ey. subst y. exact Hy.
  - apply in_or_app. right. left. reflexivity.
Qed.

Lemma on_message_blocking_switch self (message : incoming) site_id
  session_id n sched :
  switch_ok self ->
  switch_ok
    (snd (fst (on_message_blocking self message site_id session_id n sched))).
Proof.
  intros I. pose proof I as (I1 & I2).
  assert (K : forall self', same_config self self' -> switch_ok self').
  { intros self' C. unfold same_config in C. unfold switch_ok.
    destruct C as (_ & _ & _ & _ & _ & _ & _ & _ & _ & _ & _ & C1 & C2).
    rewrite C1, C2. auto. }
  destruct message as [reason|reason|wav|wav|message|message|];
    cbn [on_message_blocking].
  - destruct (match reason with
              | UNKNOWN => []
              | _ => set_discard reason (disabled_reasons self)
              end) as [|x l] eqn:E; cbn.
    + split; [reflexivity|constructor].
    + split.
      * intros He. specialize (I1 He). rewrite I1 in E.
        destruct reason; discriminate E.
      * rewrite <- E. destruct reason; [constructor|..];
          apply set_discard_NoDup, I2.
  - cbn. split; [discriminate|].
    apply set_add_NoDup, I2.
  - destruct (enabled self); [|exact I].
    destruct (first_audio self).
    + apply K.
      eapply same_config_trans;
        [|apply (handle_audio_frame_config (set_first_audio false self))].
      unfold same_config; cbn; tauto.
    + apply K, handle_audio_frame_config.
  - destruct (enabled self); [|exact I].
    destruct (dict_get (sessions self) session_id); [|exact I].
    destruct (first_audio self).
    + apply K.
      eapply same_config_trans;
        [|apply (handle_audio_frame_config (set_first_audio false self))].
      unfold same_config; cbn; tauto.
    + apply K, handle_audio_frame_config.
  - apply K, start_listening_config.
  - apply K, stop_listening_config.
  - exact I.
Qed.

Lemma step_switch self (ev : event) :
  switch_ok self -> switch_ok (snd (step self ev)).
Proof.
  intros I. destruct ev as [message site_id session_id n sched|r]; cbn.
  - apply on_message_blocking_switch, I.
  - destruct (heap self !! r); exact I.
Qed.

Lemma run_switch evs :
  forall self, switch_ok self -> switch_ok (snd (run self evs)).
Proof.
  induction evs as [|ev evs IH]; intros self I; cbn; [exact I|].
  pose proof (step_switch self ev I) as I1.
  destruct (step self ev) as [results self1].
  specialize (IH self1 I1).
  destruct (run self1 evs) as [more self2]. exact IH.
Qed.

(** X4. In every state the service reaches, it is enabled only when no
    reason to be disabled is left (and no reason is recorded twice). A
    toggle-on for one reason does not enable a service that is disabled for
    another reason too, and leaves that other reason; the toggle-on for the
    unknown reason drops all reasons and enables the service. A toggle-off
    followed by the toggle-on for the same reason brings an enabled service
    back to enabled, with [first_audio] set. *)
Theorem enabled_only_without_reason self :
  (forall tf rf cv wv reuse port sr sw ch lg en evs,
      switch_ok
        (snd (run (init (T := T) (R := R) tf rf cv wv reuse port sr sw ch lg
                     en) evs)))
  /\ (forall reason other site_id session_id n sched,
        enabled self = false ->
        In other (disabled_reasons self) ->
        other <> reason -> reason <> UNKNOWN ->
        let self' :=
          snd (fst (on_message_blocking self (AsrToggleOn reason) site_id
                      session_id n sched)) in
        enabled self' = false /\ In other (disabled_reasons self'))
  /\ (forall site_id session_id n sched,
        let self' :=
          snd (fst (on_message_blocking self (AsrToggleOn UNKNOWN) site_id
                      session_id n sched)) in
        enabled self' = true /\ disabled_reasons self' = [] /\
        first_audio self' = true)
  /\ (forall reason site_id session_id n sched,
        switch_ok self -> enabled self = true ->
        let self1 :=
          snd (fst (on_message_blocking self (AsrToggleOff reason) site_id
                      session_id n sched)) in
        let self2 :=
          snd (fst (on_message_blocking self1 (AsrToggleOn reason) site_id
                      session_id n sched)) in
        enabled self1 = false /\ In reason (disabled_reasons self1) /\
        enabled self2 = true /\ disabled_reasons self2 = [] /\
        first_audio self2 = true).
Proof.
  split; [|split; [|split]].
  - intros. apply run_switch. split; [reflexivity|constructor].
  - intros reason other site_id session_id n sched He Hin Hne Hu. cbn.
    assert (Hin' : In other (set_discard reason (disabled_reasons self)))
      by (apply set_discard_In; auto).
    destruct reason; [congruence|..];
      (destruct (set_discard _ (disabled_reasons self)) as [|x l] eqn:E;
       rewrite ?E in Hin'; [destruct Hin'|];
       cbn; split; [exact He | exact Hin']).
  - intros. cbn. auto.
  - intros reason site_id session_id n sched (I1 & I2) He. cbn zeta.
    specialize (I1 He).
    assert (E1 : disabled_reasons
                   (snd (fst (on_message_blocking self (AsrToggleOff reason)
                                site_id session_id n sched))) = [reason]).
    { cbn. rewrite I1. reflexivity. }
    split; [reflexivity|]. split; [rewrite E1; left; reflexivity|].
    cbn [on_message_blocking fst snd] in *.
    cbn [disabled_reasons set_disabled_reasons set_enabled] in *.
    rewrite I1. cbn [set_add existsb app].
    assert (Ed : set_discard reason [reason] = []).
    { unfold set_discard. cbn. rewrite bool_decide_eq_true_2 by reflexivity.
      reflexivity. }
    destruct reason; cbn [disabled_reasons set_disabled_reasons];
      rewrite ?Ed; cbn; auto.
Qed.

End Switch.

(** The demo service is toggled off for the playing of audio and for the
    speaking of text, then on for the playing of audio: it is still
    disabled. *)
Lemma enabled_only_without_reason_witness :
  let self :=
    snd (run (Demo.service false)
           [Receive (AsrToggleOff PLAY_AUDIO) "kitchen" None 0 (fun _ => 0%nat);
            Receive (AsrToggleOff TTS_SAY) "kitchen" None 0 (fun _ => 0%nat)])
  in
  let self' :=
    snd (fst (on_message_blocking self (AsrToggleOn PLAY_AUDIO) "kitchen"
                None 0 (fun _ => 0%nat))) in
  enabled self' = false /\ In TTS_SAY (disabled_reasons self').
Proof.
  cbn zeta.
  apply (proj1 (proj2 (enabled_only_without_reason _))).
  - reflexivity.
  - vm_compute. auto.
  - discriminate.
  - discriminate.
Defined.

(** ** Audio while disabled, and the exceptions of the dispatch *)

Section Dispatch.
Context {T R : Type} `{Transcriber T} `{VoiceCommandRecorder R}.
Implicit Type self : AsrHermesMqtt T R.
Implicit Type info : TranscriberInfo T R.

(** X5. While the service is disabled, audio messages (for all sessions or
    for one) are dropped: whatever their number, nothing is yielded and the
    state, with every queue and buffer, stays as it is. *)
Theorem disabled_drops_audio self (evs : list event) :
  enabled self = false ->
  forallb is_audio_event evs = true ->
  run self evs = ([], self).
Proof.
  intros He. induction evs as [|ev evs IH]; cbn; [reflexivity|].
  intros Hall. apply andb_prop in Hall as (Hev & Hall).
  destruct ev as [message site_id session_id n sched|r]; [|discriminate].
  destruct message as [reason|reason|wav|wav|message|message|];
    try discriminate; cbn; rewrite He; cbn; rewrite (IH Hall); reflexivity.
Qed.

(** X6. The dispatch raises only what the conversion of the frame raises,
    and then it yields nothing and leaves registry, pool and heap as they
    are: a frame for a session that is not registered is dropped before
    [handle_audio_frame] can fail on the missing key. Called directly,
    [handle_audio_frame] raises [KeyError] for a session id that is not
    registered while other sessions are; and when no session is registered
    it returns before the conversion, whatever the frame. *)
Theorem dispatch_raises_conversion_errors_only self :
  (forall message site_id session_id n sched results self' e,
      on_message_blocking self message site_id session_id n sched
      = (results, self', Some e) ->
      exists wav_bytes,
        (message = AudioFrame wav_bytes \/
         message = AudioSessionFrame wav_bytes) /\
        maybe_convert_wav self wav_bytes = Raises e /\
        results = [] /\
        sessions self' = sessions self /\
        free_transcribers self' = free_transcribers self /\
        heap self' = heap self)
  /\ (forall frame_wav_bytes audio_data site_id sid sched,
        sessions self <> [] ->
        maybe_convert_wav self frame_wav_bytes = Returns audio_data ->
        dict_get (sessions self) (Some sid) = None ->
        handle_audio_frame self frame_wav_bytes site_id (Some sid) sched
        = ([], self, Some (KeyError sid)))
  /\ (forall frame_wav_bytes site_id session_id sched,
        sessions self = [] ->
        handle_audio_frame self frame_wav_bytes site_id session_id sched
        = ([], self, None)).
Proof.
  assert (F : forall self0 wav site_id session_id sched results self' e,
    (forall sid, session_id = Some sid ->
                 dict_get (sessions self0) (Some sid) <> None) ->
    handle_audio_frame self0 wav site_id session_id sched
    = (results, self', Some e) ->
    maybe_convert_wav self0 wav = Raises e /\ results = [] /\ self' = self0).
  { intros self0 wav site_id session_id sched results self' e Hreg.
    unfold handle_audio_frame.
    destruct (sessions self0) as [|s0 l] eqn:Es; [discriminate|].
    destruct (maybe_convert_wav self0 wav) as [audio_data|e0].
    - destruct session_id as [sid|]; [|discriminate].
      specialize (Hreg sid eq_refl).
      destruct (dict_get (s0 :: l) (Some sid)) as [r|]; [discriminate|].
      contradiction.
    - intros [= <- <- <-]. auto. }
  split; [|split].
  - intros message site_id session_id n sched results self' e.
    destruct message as [reason|reason|wav|wav|message|message|];
      cbn [on_message_blocking].
    + destruct (match reason with
                | UNKNOWN => []
                | _ => set_discard reason (disabled_reasons self)
                end); discriminate.
    + discriminate.
    + destruct (enabled self); [|discriminate].
      intros E. exists wav. split; [auto|].
      destruct (first_audio self);
        apply F in E; try discriminate;
        destruct E as (E1 & -> & ->); auto.
    + destruct (enabled self); [|discriminate].
      destruct (dict_get (sessions self) session_id) as [r|] eqn:Er;
        [|discriminate].
      intros E. exists wav. split; [auto|].
      destruct (first_audio self);
        apply F in E;
        try (intros sid ->; cbn; congruence);
        destruct E as (E1 & -> & ->); auto.
    + discriminate.
    + discriminate.
    + discriminate.
  - intros frame_wav_bytes audio_data site_id sid sched Hne Hc Hd.
    unfold handle_audio_frame.
    destruct (sessions self) as [|s0 l]; [contradiction|].
    rewrite Hc, Hd. reflexivity.
  - intros frame_wav_bytes site_id session_id sched Hs.
    unfold handle_audio_frame. rewrite Hs. reflexivity.
Qed.

End Dispatch.

(** The demo service is toggled off: three frames leave it as it is. *)
Lemma disabled_drops_audio_witness :
  let self :=
    snd (fst (on_message_blocking Demo.listening (AsrToggleOff TTS_SAY)
                "kitchen" None 0 (fun _ => 0%nat))) in
  run self
    [Receive (AudioFrame Demo.speech1) "kitchen" None 0 (fun _ => 0%nat);
     Receive (AudioSessionFrame Demo.speech2) "kitchen" (Some "s1") 0
       (fun _ => 0%nat);
     Receive (AudioFrame Demo.silence) "kitchen" None 0 (fun _ => 0%nat)]
  = ([], self).
Proof.
  cbn zeta. apply disabled_drops_audio; reflexivity.
Defined.

(** In the demo service with sessions "a" and "b", a frame for the session
    "c" makes [handle_audio_frame] raise; the dispatch drops it. *)
Lemma dispatch_raises_conversion_errors_only_witness :
  handle_audio_frame Demo.two_sessions Demo.speech1 "kitchen" (Some "c")
    (fun _ => 0%nat)
  = ([], Demo.two_sessions, Some (KeyError "c")).
Proof.
  apply (proj1 (proj2 (dispatch_raises_conversion_errors_only
                         Demo.two_sessions))
           Demo.speech1 Demo.speech1).
  - vm_compute. discriminate.
  - reflexivity.
  - reflexivity.
Defined.

(** ** What a stop and a frame leave alone *)

Section Isolation.
Context {T R : Type} `{Transcriber T} `{VoiceCommandRecorder R}.
Implicit Type self : AsrHermesMqtt T R.
Implicit Type info : TranscriberInfo T R.

Lemma deref_store_ne self r r' info :
  r' <> r -> deref (store self r info) r' = deref self r'.
Proof.
  intros Hne. unfold deref, store. cbn.
  rewrite list_lookup_insert_ne by congruence. reflexivity.
Qed.

Lemma deref_store_same self r :
  deref (store self r (deref self r)) r = deref self r.
Proof.
  unfold deref, store. cbn.
  destruct (heap self !! r) as [info|] eqn:Hl; cbn.
  - rewrite list_lookup_insert_eq by (eapply lookup_lt_Some; eauto).
    reflexivity.
  - rewrite list_insert_ge by (apply lookup_ge_None; exact Hl).
    rewrite Hl. reflexivity.
Qed.

(** X7. [stop_listening] ends the session of its message and no other: the
    session is no longer registered, every other session id is bound as
    before, every object other than the one of the session is untouched, the
    messages are for the site and session of the stop message, and the pool
    is as before or has the worker of the session appended. *)
Theorem stop_listening_ends_one_session self (message : AsrStopListening) n :
  let '(results, self') := stop_listening self message n in
  dict_get (sessions self') (st_session_id message) = None /\
  (forall session_id,
      session_id <> st_session_id message ->
      dict_get (sessions self') session_id
      = dict_get (sessions self) session_id) /\
  (forall r,
      dict_get (sessions self) (st_session_id message) <> Some r ->
      deref self' r = deref self r) /\
  Forall (fun m => message_site m = st_site_id message /\
                   message_session m = st_session_id message) results /\
  (free_transcribers self' = free_transcribers self \/
   exists r,
     dict_get (sessions self) (st_session_id message) = Some r /\
     free_transcribers self' = free_transcribers self ++ [r]).
Proof.
  pose proof (stop_listening_sessions self message n) as S.
  destruct (dict_get (sessions self) (st_session_id message)) as [r|] eqn:Hr.
  - rewrite (stop_listening_registered self message n r Hr) in *.
    cbn zeta in *.
    pose proof (finish_session_scoped self (deref self r)
                  (st_site_id message) (st_session_id message) n) as F.
    destruct (finish_session self (deref self r) _ _ n)
      as [[results info] ex].
    cbn [fst] in F.
    assert (Fm : Forall (fun m : Message T =>
                           message_site m = st_site_id message /\
                           message_session m = st_session_id message)
                   results).
    { eapply Forall_impl; [exact F|]. cbn. tauto. }
    destruct ex as [e|].
    + cbn [snd] in S. rewrite S.
      split; [apply dict_get_remove|].
      split; [intros sid Hne; apply dict_get_remove_ne; congruence|].
      split; [intros r' Hne; unfold deref, store; cbn;
               rewrite list_lookup_insert_ne by congruence; reflexivity|].
      split; [|left; reflexivity].
      apply Forall_app. split; [exact Fm|]. repeat constructor.
    + destruct (Info.reuse info && bool_decide (Info.transcriber info <> None));
        cbn [snd] in S; rewrite S.
      * split; [apply dict_get_remove|].
        split; [intros sid Hne; apply dict_get_remove_ne; congruence|].
        split; [intros r' Hne; unfold deref, store; cbn;
               rewrite list_lookup_insert_ne by congruence; reflexivity|].
        split; [exact Fm|]. right. exists r. split; reflexivity.
      * split; [apply dict_get_remove|].
        split; [intros sid Hne; apply dict_get_remove_ne; congruence|].
        split; [intros r' Hne; unfold deref, store; cbn;
               rewrite list_lookup_insert_ne by congruence; reflexivity|].
        split; [exact Fm|]. left. reflexivity.
  - rewrite (stop_listening_absent self message n Hr).
    split; [exact Hr|]. split; [reflexivity|]. split; [reflexivity|].
    split; [constructor|]. left. reflexivity.
Qed.

(** A frame does nothing to a session that was started for another site. *)
Lemma route_frame_other_site self info audio_data site_id target_id n :
  (forall sl, Info.start_listening info = Some sl ->
              sl_site_id sl <> site_id) ->
  snd (fst (route_frame self info audio_data site_id target_id n)) = info /\
  fst (fst (route_frame self info audio_data site_id target_id n)) = [].
Proof.
  intros Hsite. unfold route_frame.
  destruct (Info.start_listening info) as [sl|]; [|auto].
  destruct (String.eqb (sl_site_id sl) site_id) eqn:E; [|auto].
  apply String.eqb_eq in E. exfalso. exact (Hsite sl eq_refl E).
Qed.

Lemma route_targets_other_site targets audio_data site_id sched r :
  forall self,
    (forall sl, Info.start_listening (deref self r) = Some sl ->
                sl_site_id sl <> site_id) ->
    deref (snd (route_targets self targets audio_data site_id sched)) r
    = deref self r.
Proof.
  induction targets as [|[target_id r0] targets IH]; intros self Hsite;
    cbn [route_targets]; [reflexivity|].
  unfold route_target, route_frame_caught.
  assert (E : deref (store self r0
                       (snd (fst (route_frame self (deref self r0) audio_data
                                    site_id target_id (sched target_id))))) r
              = deref self r).
  { destruct (decide (r = r0)) as [->|Hne].
    - rewrite (proj1 (route_frame_other_site self (deref self r0) audio_data
                        site_id target_id (sched target_id) Hsite)).
      apply deref_store_same.
    - apply deref_store_ne. exact Hne. }
  destruct (route_frame self (deref self r0) audio_data site_id target_id
              (sched target_id)) as [[results info] ex].
  cbn [fst snd] in E.
  specialize (IH (store self r0 info)). rewrite E in IH.
  specialize (IH Hsite).
  destruct (route_targets (store self r0 info) targets audio_data site_id
              sched) as [more self2].
  cbn [snd] in *. congruence.
Qed.

(** X9. A frame from one site changes nothing in the sessions that were
    started for another site: whatever the other sessions that get the
    frame, and whether the frame is for all sessions or for one, the object
    of such a session (its queue, its buffer, its recorder, its flags) is as
    before, and a frame whose target is such a session yields nothing. *)
Theorem frame_leaves_other_sites self frame_wav_bytes site_id session_id
  sched r :
  (forall sl, Info.start_listening (deref self r) = Some sl ->
              sl_site_id sl <> site_id) ->
  deref (snd (fst (handle_audio_frame self frame_wav_bytes site_id
                     session_id sched))) r
  = deref self r /\
  (forall sid,
      session_id = Some sid ->
      dict_get (sessions self) (Some sid) = Some r ->
      Info.start_listening (deref self r) <> None ->
      fst (fst (handle_audio_frame self frame_wav_bytes site_id session_id
                  sched)) = []).
Proof.
  intros Hsite. split.
  - unfold handle_audio_frame.
    destruct (sessions self) as [|s0 l]; [reflexivity|].
    destruct (maybe_convert_wav self frame_wav_bytes) as [audio_data|e];
      [|reflexivity].
    destruct session_id as [sid|].
    + destruct (dict_get (s0 :: l) (Some sid)) as [r0|]; [|reflexivity].
      apply route_targets_other_site, Hsite.
    + apply route_targets_other_site, Hsite.
  - intros sid -> Hd Hsl. unfold handle_audio_frame.
    destruct (sessions self) as [|s0 l]; [reflexivity|].
    destruct (maybe_convert_wav self frame_wav_bytes) as [audio_data|e];
      [|reflexivity].
    rewrite Hd. cbn [route_targets route_target].
    unfold route_frame_caught, route_frame.
    destruct (Info.start_listening (deref self r)) as [sl|] eqn:E;
      [|congruence].
    destruct (String.eqb (sl_site_id sl) site_id) eqn:Es.
    + apply String.eqb_eq in Es. exfalso. exact (Hsite sl eq_refl Es).
    + reflexivity.
Qed.

End Isolation.

(** In the demo service with sessions "a" and "b", the stop of "a" leaves
    "b" registered with its object. *)
Lemma stop_listening_ends_one_session_witness :
  let self' :=
    snd (stop_listening Demo.two_sessions (Demo.stop "kitchen" "a") 0) in
  dict_get (sessions self') (Some "a") = None /\
  dict_get (sessions self') (Some "b") = Some 1%nat /\
  deref self' 1 = deref Demo.two_sessions 1.
Proof.
  cbn zeta.
  generalize (stop_listening_ends_one_session Demo.two_sessions
                (Demo.stop "kitchen" "a") 0).
  destruct (stop_listening _ _ _) as [results self'].
  intros (P1 & P2 & P3 & _). cbn [snd].
  split; [exact P1|]. split.
  - rewrite P2 by discriminate. reflexivity.
  - apply P3. vm_compute. discriminate.
Defined.

(** A frame from the site "garden" leaves the session "b" of the site
    "kitchen" as it is. *)
Lemma frame_leaves_other_sites_witness :
  deref (snd (fst (handle_audio_frame Demo.two_sessions Demo.speech1
                     "garden" None (fun _ => 0%nat)))) 1
  = deref Demo.two_sessions 1.
Proof.
  apply (frame_leaves_other_sites Demo.two_sessions Demo.speech1 "garden"
           None (fun _ => 0%nat) 1%nat).
  vm_compute. intros sl [= <-]. discriminate.
Defined.

(** ** The registry and the pool in every state the service reaches *)

Section DictFacts.
Context {V : Type}.
Implicit Type d : list (option string * V).

Lemma dict_get_In d k v : dict_get d k = Some v -> In (k, v) d.
Proof.
  induction d as [|[k0 v0] d IH]; cbn; [discriminate|].
  destruct (key_eqb k0 k) eqn:E.
  - apply key_eqb_eq in E. intros [= <-]. subst k0. left. reflexivity.
  - intros Hd. right. exact (IH Hd).
Qed.

Lemma dict_get_None_keys d k :
  dict_get d k = None <-> ~ In k (map fst d).
Proof.
  induction d as [|[k0 v0] d IH]; cbn; [tauto|].
  destruct (key_eqb k0 k) eqn:E.
  - apply key_eqb_eq in E. split; [discriminate|]. intros Hn.
    exfalso. apply Hn. left. exact E.
  - assert (Hne : k0 <> k).
    { intros <-. rewrite key_eqb_refl in E. discriminate E. }
    rewrite IH. tauto.
Qed.

Lemma dict_set_absent d k v :
  dict_get d k = None -> dict_set d k v = d ++ [(k, v)].
Proof.
  induction d as [|[k0 v0] d IH]; cbn; [reflexivity|].
  destruct (key_eqb k0 k); [discriminate|].
  intros Hd. rewrite (IH Hd). reflexivity.
Qed.

Lemma dict_get_set_eq d k v : dict_get (dict_set d k v) k = Some v.
Proof.
  induction d as [|[k0 v0] d IH]; cbn.
  - rewrite key_eqb_refl. reflexivity.
  - destruct (key_eqb k0 k) eqn:E; cbn; rewrite E; [reflexivity|exact IH].
Qed.

Lemma dict_get_set_ne d k k' v :
  k <> k' -> dict_get (dict_set d k v) k' = dict_get d k'.
Proof.
  intros Hne. induction d as [|[k0 v0] d IH]; cbn.
  - destruct (key_eqb k k') eqn:E; [|reflexivity].
    apply key_eqb_eq in E. contradiction.
  - destruct (key_eqb k0 k) eqn:E; cbn.
    + apply key_eqb_eq in E. subst k0.
      destruct (key_eqb k k') eqn:E'; [|reflexivity].
      apply key_eqb_eq in E'. contradiction.
    + rewrite IH. reflexivity.
Qed.

Lemma dict_remove_absent d k : dict_get d k = None -> dict_remove d k = d.
Proof.
  unfold dict_remove. induction d as [|[k0 v0] d IH]; cbn; [reflexivity|].
  destruct (key_eqb k0 k); [discriminate|].
  intros Hd. cbn. rewrite (IH Hd). reflexivity.
Qed.

Lemma dict_remove_keys d k x :
  In x (map fst (dict_remove d k)) -> In x (map fst d).
Proof.
  unfold dict_remove. rewrite !in_map_iff.
  intros (e & E & Hin). apply List.filter_In in Hin. exists e. tauto.
Qed.

Lemma dict_remove_NoDup d k :
  NoDup (map fst d) -> NoDup (map fst (dict_remove d k)).
Proof.
  unfold dict_remove. induction d as [|[k0 v0] d IH]; cbn; [auto|].
  intros Hn. apply NoDup_cons in Hn as (Hk & Hn).
  destruct (key_eqb k0 k); cbn; [exact (IH Hn)|].
  apply NoDup_cons. split; [|exact (IH Hn)].
  intros Hin. apply Hk. apply list_elem_of_In in Hin.
  apply list_elem_of_In. exact (dict_remove_keys d k k0 Hin).
Qed.

(** The values of a dict are the value of a key and the values of the dict
    without the key. *)
Lemma dict_remove_values d k v :
  NoDup (map fst d) -> dict_get d k = Some v ->
  map snd d ≡ₚ v :: map snd (dict_remove d k).
Proof.
  induction d as [|[k0 v0] d IH]; cbn; [discriminate|].
  intros Hn. apply NoDup_cons in Hn as (Hk & Hn).
  destruct (key_eqb k0 k) eqn:E; cbn.
  - apply key_eqb_eq in E. subst k0. intros [= <-].
    fold (dict_remove d k). rewrite dict_remove_absent; [reflexivity|].
    apply dict_get_None_keys. intros Hin. apply Hk.
    apply list_elem_of_In. exact Hin.
  - intros Hd. fold (dict_remove d k). rewrite (IH Hn Hd). apply perm_swap.
Qed.

End DictFacts.

Section RegistryInvariant.
Context {T R : Type} `{Transcriber T} `{VoiceCommandRecorder R}.
Implicit Type self : AsrHermesMqtt T R.
Implicit Type info : TranscriberInfo T R.

(** The pool after [stop_listening]: as before, or with the worker of the
    session, reusable and with a transcriber, reset and appended. *)
Lemma stop_listening_free self (message : AsrStopListening) n :
  let self' := snd (stop_listening self message n) in
  free_transcribers self' = free_transcribers self \/
  exists r info,
    dict_get (sessions self) (st_session_id message) = Some r /\
    free_transcribers self' = free_transcribers self ++ [r] /\
    heap self' = <[r := reset_state info]> (heap self) /\
    Info.reuse info = true /\ Info.transcriber info <> None.
Proof.
  cbn zeta.
  destruct (dict_get (sessions self) (st_session_id message)) as [r|] eqn:Hr.
  - rewrite (stop_listening_registered self message n r Hr). cbn zeta.
    destruct (finish_session self (deref self r) _ _ n)
      as [[results info] [e|]]; cbn; [auto|].
    destruct (Info.reuse info) eqn:Ere; cbn; [|auto].
    destruct (bool_decide (Info.transcriber info <> None)) eqn:Etr; cbn;
      [|auto].
    apply bool_decide_eq_true in Etr.
    right. exists r, info. auto.
  - rewrite (stop_listening_absent self message n Hr). auto.
Qed.

Lemma stop_listening_registry self (message : AsrStopListening) n :
  registry_ok self -> registry_ok (snd (stop_listening self message n)).
Proof.
  intros (K & N & B).
  pose proof (stop_listening_sessions self message n) as S.
  pose proof (stop_listening_heap self message n) as (L & _).
  pose proof (stop_listening_free self message n) as F. cbn zeta in F.
  unfold registry_ok, session_refs in *. rewrite S, L.
  destruct (dict_get (sessions self) (st_session_id message)) as [r|] eqn:Hr.
  - pose proof (dict_remove_values (sessions self) _ r K Hr) as P.
    rewrite P in N, B. cbn [app] in N, B.
    apply NoDup_cons in N as (Nr & N). apply Forall_cons in B as (Br & B).
    split; [apply dict_remove_NoDup, K|].
    destruct F as [->|(r0 & info & [= <-] & -> & _)].
    + split; assumption.
    + rewrite app_assoc.
      rewrite <- (Permutation_cons_append _ r). split.
      * apply NoDup_cons. split; assumption.
      * apply Forall_cons. split; assumption.
  - rewrite (dict_remove_absent _ _ Hr).
    destruct F as [->|(r0 & info & D & _)]; [|discriminate D].
    repeat split; assumption.
Qed.

Lemma stop_existing_registry self (message : AsrStartListening) n :
  registry_ok self ->
  registry_ok (snd (stop_existing self message n)) /\
  dict_get (sessions (snd (stop_existing self message n)))
    (sl_session_id message) = None.
Proof.
  intros I. unfold stop_existing.
  destruct (dict_get (sessions self) (sl_session_id message)) as [r|] eqn:E.
  - split; [apply stop_listening_registry, I|].
    rewrite stop_listening_sessions. apply dict_get_remove.
  - split; assumption.
Qed.

Lemma start_listening_registry self (message : AsrStartListening) n :
  registry_ok self -> registry_ok (snd (start_listening self message n)).
Proof.
  intros I.
  pose proof (stop_existing_registry self message n I) as ((K & N & B) & D).
  unfold start_listening.
  destruct (stop_existing self message n) as [stopped self1].
  cbn [snd] in *.
  unfold registry_ok, session_refs in *. unfold acquire.
  destruct (pop (free_transcribers self1)) as [[rest r]|] eqn:Ep.
  - apply pop_some in Ep. rewrite Ep in N, B.
    destruct (begin_recording _ message _) as [info [e|]];
      cbn; rewrite ?length_insert.
    + split; [exact K|].
      rewrite app_assoc in N, B.
      apply NoDup_app in N as (N & _). apply Forall_app in B as (B & _).
      split; assumption.
    + rewrite (dict_set_absent _ _ _ D), !map_app. cbn [map fst snd].
      split.
      * apply NoDup_app. split; [exact K|]. split; [|apply NoDup_singleton].
        intros x Hx Hx'. apply list_elem_of_singleton in Hx'. subst x.
        apply list_elem_of_In in Hx.
        apply (proj1 (dict_get_None_keys _ _) D Hx).
      * assert (P : (map snd (sessions self1) ++ [r]) ++ rest
                    ≡ₚ map snd (sessions self1) ++ rest ++ [r]).
        { rewrite <- app_assoc. apply Permutation_app_head.
          apply Permutation_app_comm. }
        rewrite P. split; assumption.
  - apply pop_nil in Ep. rewrite Ep, app_nil_r in N, B.
    destruct (begin_recording _ message _) as [info [e|]];
      cbn; rewrite ?length_insert, ?length_app; cbn [length].
    + split; [exact K|]. rewrite Ep, app_nil_r. split; [exact N|].
      eapply Forall_impl; [exact B|]. cbn. intros; lia.
    + rewrite (dict_set_absent _ _ _ D), !map_app. cbn [map fst snd].
      rewrite Ep, app_nil_r. split; [|split].
      * apply NoDup_app. split; [exact K|]. split; [|apply NoDup_singleton].
        intros x Hx Hx'. apply list_elem_of_singleton in Hx'. subst x.
        apply list_elem_of_In in Hx.
        apply (proj1 (dict_get_None_keys _ _) D Hx).
      * apply NoDup_app. split; [exact N|]. split; [|apply NoDup_singleton].
        intros x Hx Hx'. apply list_elem_of_singleton in Hx'. subst x.
        rewrite Forall_forall in B. specialize (B _ Hx). lia.
      * apply Forall_app. split.
        -- eapply Forall_impl; [exact B|]. cbn. intros; lia.
        -- constructor; [lia|constructor].
Qed.

(** A frame leaves the registry, the pool and the size of the heap. *)
Lemma route_targets_shape targets audio_data site_id sched :
  forall self,
    let self' := snd (route_targets self targets audio_data site_id sched) in
    sessions self' = sessions self /\
    free_transcribers self' = free_transcribers self /\
    length (heap self') = length (heap self).
Proof.
  induction targets as [|[target_id r] targets IH]; intros self; cbn;
    [auto|].
  destruct (route_frame_caught self (deref self r) audio_data site_id
              target_id (sched target_id)) as [results info].
  specialize (IH (store self r info)).
  destruct (route_targets (store self r info) targets audio_data site_id sched)
    as [more self2].
  cbn in *. rewrite length_insert in IH. exact IH.
Qed.

Lemma handle_audio_frame_shape self frame_wav_bytes site_id session_id sched :
  let self' :=
    snd (fst (handle_audio_frame self frame_wav_bytes site_id session_id
                sched)) in
  sessions self' = sessions self /\
  free_transcribers self' = free_transcribers self /\
  length (heap self') = length (heap self).
Proof.
  cbn zeta. unfold handle_audio_frame.
  destruct (sessions self) as [|s0 l] eqn:Es; [cbn; auto|].
  destruct (maybe_convert_wav self frame_wav_bytes) as [audio_data|e];
    [|cbn; auto].
  rewrite <- Es.
  destruct session_id as [sid|].
  - destruct (dict_get (sessions self) (Some sid)) as [r|]; [|cbn; auto].
    apply route_targets_shape.
  - apply route_targets_shape.
Qed.

Lemma registry_ok_shape self self' :
  sessions self' = sessions self ->
  free_transcribers self' = free_transcribers self ->
  length (heap self') = length (heap self) ->
  registry_ok self -> registry_ok self'.
Proof.
  unfold registry_ok, session_refs. intros -> -> ->. auto.
Qed.

Lemma on_message_blocking_registry self (message : incoming) site_id
  session_id n sched :
  registry_ok self ->
  registry_ok
    (snd (fst (on_message_blocking self message site_id session_id n sched))).
Proof.
  intros I.
  destruct message as [reason|reason|wav|wav|message|message|];
    cbn [on_message_blocking fst snd].
  - destruct (match reason with
              | UNKNOWN => []
              | _ => set_discard reason (disabled_reasons self)
              end); exact I.
  - exact I.
  - destruct (enabled self); [|exact I].
    destruct (first_audio self).
    + pose proof (handle_audio_frame_shape (set_first_audio false self) wav
                    site_id None sched) as (S1 & S2 & S3).
      eapply registry_ok_shape; eauto.
    + pose proof (handle_audio_frame_shape self wav site_id None sched)
        as (S1 & S2 & S3).
      eapply registry_ok_shape; eauto.
  - destruct (enabled self); [|exact I].
    destruct (dict_get (sessions self) session_id); [|exact I].
    destruct (first_audio self).
    + pose proof (handle_audio_frame_shape (set_first_audio false self) wav
                    site_id session_id sched) as (S1 & S2 & S3).
      eapply registry_ok_shape; eauto.
    + pose proof (handle_audio_frame_shape self wav site_id session_id sched)
        as (S1 & S2 & S3).
      eapply registry_ok_shape; eauto.
  - apply start_listening_registry, I.
  - apply stop_listening_registry, I.
  - exact I.
Qed.

Lemma step_registry self (ev : event) :
  registry_ok self -> registry_ok (snd (step self ev)).
Proof.
  intros I. destruct ev as [message site_id session_id n sched|r]; cbn.
  - apply on_message_blocking_registry, I.
  - destruct (heap self !! r) as [info|]; [|exact I]. cbn [snd].
    apply (registry_ok_shape self);
      [reflexivity|reflexivity|apply length_insert|exact I].
Qed.

Lemma run_registry evs :
  forall self, registry_ok self -> registry_ok (snd (run self evs)).
Proof.
  induction evs as [|ev evs IH]; intros self I; cbn; [exact I|].
  pose proof (step_registry self ev I) as I1.
  destruct (step self ev) as [results self1].
  specialize (IH self1 I1).
  destruct (run self1 evs) as [more self2]. exact IH.
Qed.

End RegistryInvariant.

Section SettledInvariant.
Context {T R : Type} `{Transcriber T} `{VoiceCommandRecorder R}.
Implicit Type self : AsrHermesMqtt T R.
Implicit Type info : TranscriberInfo T R.

(** The thread clears the ready event before it sets the result event, or
    it marks the object as not reusable. *)
Lemma transcribe_proc_step_ready self info :
  let info' := fst (transcribe_proc_step self info) in
  (Info.reuse info = true -> Info.result_event info = true ->
   Info.ready_event info = false) ->
  Info.reuse info' = true -> Info.result_event info' = true ->
  Info.ready_event info' = false.
Proof.
  unfold transcribe_proc_step.
  destruct (Info.thread info) as [[| |]|]; cbn; auto.
  - destruct (transcriber_factory self (kaldi_port self)) as [[t|]|e];
      cbn; auto; discriminate.
  - destruct (Info.ready_event info) eqn:Eready; cbn; auto.
    destruct (Info.transcriber info) as [t|]; cbn; [|discriminate].
    destruct (audio_stream (Info.frame_queue info)) as [[frames rest]|];
      cbn; [|rewrite Eready; auto].
    unfold transcribe_cycle.
    destruct (transcribe_stream _ _ _ _ _) as [t' [[res|]|e]]; cbn; auto;
      try discriminate.
    destruct (str_truthy (text res)); cbn; [|discriminate].
    destruct (reuse_transcribers self); cbn; auto.
    destruct (transcriber_stop t'); cbn; auto.
Qed.

Lemma wait_result_event_ready self n :
  forall info,
    (Info.reuse info = true -> Info.result_event info = true ->
     Info.ready_event info = false) ->
    Info.reuse (snd (wait_result_event self n info)) = true ->
    Info.result_event (snd (wait_result_event self n info)) = true ->
    Info.ready_event (snd (wait_result_event self n info)) = false.
Proof.
  induction n as [|n IH]; intros info; cbn.
  - destruct (Info.result_event info) eqn:E; cbn; intros J Hre Hev;
      first [congruence | apply J; auto].
  - destruct (Info.result_event info) eqn:E; cbn; intros J.
    + intros Hre Hev. apply J; auto.
    + apply IH. apply transcribe_proc_step_ready. intros; congruence.
Qed.

Lemma transcribe_proc_step_settled self info :
  settled info -> settled (fst (transcribe_proc_step self info)).
Proof.
  intros S Hre.
  pose proof (transcribe_proc_step_frame self info) as (_ & _ & F3 & _).
  pose proof (transcribe_proc_step_mono self info) as (M1 & M2).
  pose proof (transcribe_proc_step_ready self info) as J.
  cbn zeta in *.
  assert (Er : Info.reuse info = true).
  { destruct (Info.reuse info); [reflexivity|].
    rewrite M1 in Hre; congruence. }
  destruct (S Er) as (S1 & S2). split.
  - rewrite F3. auto.
  - apply J; auto.
Qed.

(** [finish_session] keeps an object settled, and has set [result_sent]
    when it does not raise. *)
Lemma finish_session_settled self info site_id session_id n :
  settled info ->
  settled (snd (fst (finish_session self info site_id session_id n))) /\
  (snd (finish_session self info site_id session_id n) = None ->
   Info.result_sent
     (snd (fst (finish_session self info site_id session_id n))) = true).
Proof.
  intros S.
  assert (Tail : forall info0,
    settled info0 ->
    forall audio_data,
    let r :=
      if Info.result_sent info0 then
        ([] : list (Message T), info0, None : option exn)
      else
        let recording_finished := AsrRecordingFinished site_id session_id in
        let info := Info.set_result_sent true info0 in
        let info :=
          Info.set_frame_queue (Info.frame_queue info ++ [None]) info in
        let '(result_success, info) := wait_result_event self n info in
        let info :=
          if result_success then info else Info.set_reuse false info in
        let transcription := Info.result info in
        match Info.start_listening info with
        | None => ([recording_finished], info, Some (AssertionError ""))
        | Some sl =>
            ([recording_finished;
              text_captured self transcription sl site_id session_id]
             ++ (if send_audio_captured sl
                 then [AsrAudioCaptured (to_wav_bytes self audio_data)
                         site_id session_id]
                 else []),
             info, None)
        end in
    settled (snd (fst r)) /\
    (snd r = None -> Info.result_sent (snd (fst r)) = true)).
  { intros info0 S0 audio_data. cbn zeta.
    destruct (Info.result_sent info0) eqn:Ers; cbn [fst snd]; [auto|].
    match goal with |- context [wait_result_event self n ?i] =>
      pose proof (wait_result_event_spec self n i) as W;
      pose proof (wait_result_event_ready self n i) as J;
      destruct (wait_result_event self n i) as [b info1]
    end.
    cbn [fst snd] in *. destruct W as (W0 & _ & _ & W3 & _ & _).
    cbn in W3.
    assert (S1 : settled (if b then info1 else Info.set_reuse false info1)).
    { destruct b; [|intros Hre; discriminate Hre].
      intros Hre. split; [auto|]. intros Hev. apply J; auto.
      cbn. intros Hre0 Hev0. apply (S0 Hre0). exact Hev0. }
    assert (S2 : Info.result_sent
                   (if b then info1 else Info.set_reuse false info1) = true).
    { destruct b; exact W3. }
    destruct (Info.start_listening
                (if b then info1 else Info.set_reuse false info1));
      cbn [fst snd]; auto. }
  unfold finish_session.
  destruct (Info.recorder info) as [r|].
  - destruct (recorder_stop r) as [r' [audio_data|e]].
    + apply (Tail (Info.set_recorder (Some r') info) S audio_data).
    + cbn. split; [exact S|discriminate].
  - destruct (Info.audio_buffer info) as [b|].
    + apply (Tail info S b).
    + cbn. split; [exact S|discriminate].
Qed.

Lemma route_frame_settled self info audio_data site_id target_id n :
  settled info ->
  settled (snd (fst (route_frame self info audio_data site_id target_id n))).
Proof.
  intros S. unfold route_frame.
  destruct (Info.start_listening info) as [sl|]; [|exact S].
  destruct (negb (String.eqb (sl_site_id sl) site_id)); [exact S|].
  cbn zeta. cbn [Info.recorder Info.set_frame_queue Info.audio_buffer].
  destruct (Info.recorder info) as [r|].
  - destruct (process_chunk r audio_data) as [r' [[c|]|e]]; try exact S.
    apply finish_session_settled. exact S.
  - destruct (Info.audio_buffer info) as [b|]; exact S.
Qed.

Lemma route_frame_caught_settled self info audio_data site_id target_id n :
  settled info ->
  settled (snd (route_frame_caught self info audio_data site_id target_id n)).
Proof.
  intros S. unfold route_frame_caught.
  pose proof (route_frame_settled self info audio_data site_id target_id n S)
    as S1.
  destruct (route_frame self info audio_data site_id target_id n)
    as [[results info1] ex].
  exact S1.
Qed.

Lemma deref_settled self r :
  Forall settled (heap self) -> settled (deref self r).
Proof.
  intros F. unfold deref.
  destruct (heap self !! r) as [info|] eqn:E; cbn.
  - exact (Forall_lookup_1 _ _ _ _ F E).
  - intros Hre. discriminate Hre.
Qed.

Lemma route_targets_settled targets audio_data site_id sched :
  forall self,
    Forall settled (heap self) ->
    Forall settled
      (heap (snd (route_targets self targets audio_data site_id sched))).
Proof.
  induction targets as [|[target_id r] targets IH]; intros self F; cbn;
    [exact F|].
  pose proof (route_frame_caught_settled self (deref self r) audio_data
                site_id target_id (sched target_id) (deref_settled self r F))
    as S.
  destruct (route_frame_caught self (deref self r) audio_data site_id
              target_id (sched target_id)) as [results info].
  assert (F1 : Forall settled (heap (store self r info))).
  { unfold store. cbn. apply Forall_insert; assumption. }
  specialize (IH (store self r info) F1).
  destruct (route_targets (store self r info) targets audio_data site_id sched)
    as [more self2].
  exact IH.
Qed.

Lemma handle_audio_frame_settled self frame_wav_bytes site_id session_id
  sched :
  Forall settled (heap self) ->
  Forall settled
    (heap (snd (fst (handle_audio_frame self frame_wav_bytes site_id
                       session_id sched)))).
Proof.
  intros F. unfold handle_audio_frame.
  destruct (sessions self) as [|s0 l] eqn:Es; [exact F|].
  destruct (maybe_convert_wav self frame_wav_bytes) as [audio_data|e];
    [|exact F].
  rewrite <- Es.
  destruct session_id as [sid|].
  - destruct (dict_get (sessions self) (Some sid)) as [r|]; [|exact F].
    apply route_targets_settled, F.
  - apply route_targets_settled, F.
Qed.

Lemma reset_state_idle info :
  Info.ready_event info = false -> Info.reuse info = true ->
  Info.transcriber info <> None -> idle (reset_state info).
Proof. intros E1 E2 E3. unfold idle. cbn. repeat split; assumption. Qed.

Lemma stop_listening_settled self (message : AsrStopListening) n :
  Forall settled (heap self) ->
  Forall settled (heap (snd (stop_listening self message n))).
Proof.
  intros F. unfold stop_listening.
  destruct (dict_get (sessions self) (st_session_id message)) as [r|];
    [|exact F].
  cbn zeta.
  match goal with |- context [finish_session ?s ?i ?a ?b ?c] =>
    pose proof (finish_session_settled s i a b c (deref_settled self r F))
      as (S & _);
    destruct (finish_session s i a b c) as [[results info] [e|]]
  end; cbn [fst snd] in *.
  - unfold store. cbn. apply Forall_insert; assumption.
  - destruct (Info.reuse info && bool_decide (Info.transcriber info <> None));
      unfold store; cbn; apply Forall_insert; try assumption.
    intros _. cbn. split; discriminate.
Qed.

End SettledInvariant.

Section ServiceInvariant.
Context {T R : Type} `{Transcriber T} `{VoiceCommandRecorder R}.
Implicit Type self : AsrHermesMqtt T R.
Implicit Type info : TranscriberInfo T R.

(** The thread of an idle worker is blocked in [ready_event.wait()], or has
    returned: it does nothing when it is scheduled. *)
Lemma idle_step self info :
  idle info -> on_worker past_start info ->
  transcribe_proc_step self info = (info, []).
Proof.
  unfold idle, on_worker, past_start. intros (E1 & _) [E|E];
    unfold transcribe_proc_step; rewrite E; [rewrite E1|]; reflexivity.
Qed.

(** A frame touches the objects of its target sessions only. *)
Lemma route_targets_heap_other targets audio_data site_id sched r' :
  forall self,
    ~ In r' (map snd targets) ->
    heap (snd (route_targets self targets audio_data site_id sched)) !! r'
    = heap self !! r'.
Proof.
  induction targets as [|[target_id r] targets IH]; intros self Hn; cbn;
    [reflexivity|].
  destruct (route_frame_caught self (deref self r) audio_data site_id
              target_id (sched target_id)) as [results info].
  specialize (IH (store self r info)).
  destruct (route_targets (store self r info) targets audio_data site_id sched)
    as [more self2].
  cbn in *. rewrite IH by tauto.
  apply list_lookup_insert_ne. intros E. apply Hn. left. exact E.
Qed.

Lemma handle_audio_frame_heap_other self frame_wav_bytes site_id session_id
  sched r' :
  ~ In r' (session_refs self) ->
  heap (snd (fst (handle_audio_frame self frame_wav_bytes site_id session_id
                    sched))) !! r'
  = heap self !! r'.
Proof.
  intros Hn. unfold handle_audio_frame.
  destruct (sessions self) as [|s0 l] eqn:Es; [reflexivity|].
  destruct (maybe_convert_wav self frame_wav_bytes) as [audio_data|e];
    [|reflexivity].
  rewrite <- Es.
  destruct session_id as [sid|].
  - destruct (dict_get (sessions self) (Some sid)) as [r|] eqn:Er;
      [|reflexivity].
    apply route_targets_heap_other. cbn. intros [E|[]]. apply Hn.
    subst r'. apply dict_get_In in Er.
    apply (in_map snd) in Er. exact Er.
  - apply route_targets_heap_other. exact Hn.
Qed.

(** No object of the registry is in the pool. *)
Lemma registry_ok_disjoint self r :
  registry_ok self -> In r (session_refs self) ->
  ~ r ∈ free_transcribers self.
Proof.
  intros (_ & N & _) Hin. apply NoDup_app in N as (_ & N & _).
  apply N. apply list_elem_of_In. exact Hin.
Qed.

Lemma registry_ok_get self k r :
  registry_ok self -> dict_get (sessions self) k = Some r ->
  ~ r ∈ free_transcribers self /\ (r < length (heap self))%nat.
Proof.
  intros I Hr. apply dict_get_In in Hr. apply (in_map snd) in Hr.
  split; [apply registry_ok_disjoint; assumption|].
  destruct I as (_ & _ & B). apply Forall_app in B as (B & _).
  rewrite Forall_forall in B. apply B. apply list_elem_of_In. exact Hr.
Qed.

(** A store outside the pool leaves the pool idle. *)
Lemma pool_idle_store self r info :
  ~ r ∈ free_transcribers self ->
  pool_idle self -> pool_idle (store self r info).
Proof.
  unfold pool_idle. intros Hn P. apply Forall_forall. intros r' Hr'.
  rewrite Forall_forall in P. destruct (P r' Hr') as (info' & L & I).
  exists info'. split; [|exact I]. unfold store. cbn.
  rewrite list_lookup_insert_ne; [exact L|]. intros ->. contradiction.
Qed.

Lemma handle_audio_frame_service self frame_wav_bytes site_id session_id
  sched :
  service_ok self ->
  service_ok
    (snd (fst (handle_audio_frame self frame_wav_bytes site_id session_id
                 sched))).
Proof.
  intros (I1 & I2 & I3 & I4).
  pose proof (handle_audio_frame_shape self frame_wav_bytes site_id
                session_id sched) as (S1 & S2 & S3).
  split; [eapply registry_ok_shape; eauto|].
  split; [apply handle_audio_frame_pool, I2|].
  split; [|apply handle_audio_frame_settled, I4].
  unfold pool_idle in *. rewrite S2. apply Forall_forall. intros r Hr.
  rewrite Forall_forall in I3. destruct (I3 r Hr) as (info & L & I).
  exists info. split; [|exact I].
  rewrite handle_audio_frame_heap_other; [exact L|].
  intros Hin. exact (registry_ok_disjoint self r I1 Hin Hr).
Qed.

Lemma stop_listening_service self (message : AsrStopListening) n :
  service_ok self -> service_ok (snd (stop_listening self message n)).
Proof.
  intros (I1 & I2 & I3 & I4).
  split; [apply stop_listening_registry, I1|].
  split; [apply stop_listening_pool, I2|].
  split; [|apply stop_listening_settled, I4].
  unfold stop_listening.
  destruct (dict_get (sessions self) (st_session_id message)) as [r|] eqn:Er;
    [|exact I3].
  destruct (registry_ok_get self _ r I1 Er) as (Hn & Hlt).
  cbn zeta.
  match goal with |- context [finish_session ?s ?i ?a ?b ?c] =>
    pose proof (finish_session_settled s i a b c (deref_settled self r I4))
      as (S & Sent);
    destruct (finish_session s i a b c) as [[results info] [e|]]
  end; cbn [fst snd] in *.
  - apply (pool_idle_store self r info Hn I3).
  - destruct (Info.reuse info) eqn:Ere; cbn [andb];
      [|apply (pool_idle_store self r info Hn I3)].
    destruct (bool_decide (Info.transcriber info <> None)) eqn:Etr;
      [|apply (pool_idle_store self r info Hn I3)].
    apply bool_decide_eq_true in Etr.
    unfold pool_idle. cbn. apply Forall_app. split.
    + apply (pool_idle_store self r (reset_state info) Hn I3).
    + apply Forall_singleton. exists (reset_state info). split.
      * apply list_lookup_insert_eq. exact Hlt.
      * destruct (S Ere) as (S1 & S2).
        apply reset_state_idle; auto.
Qed.

Lemma stop_existing_service self (message : AsrStartListening) n :
  service_ok self -> service_ok (snd (stop_existing self message n)).
Proof.
  intros I. unfold stop_existing.
  destruct (dict_get (sessions self) (sl_session_id message));
    [apply stop_listening_service, I | exact I].
Qed.

(** What [start_listening] sets on a worker without result and without
    messages sent leaves it settled, with these two as they were. *)
Lemma begin_recording_settled self (message : AsrStartListening) info :
  Info.result_event info = false -> Info.result_sent info = false ->
  settled
    (fst (begin_recording self message
            (Info.set_ready_event true
               (Info.set_start_listening (Some message) info)))).
Proof.
  intros E1 E2. unfold begin_recording.
  destruct (stop_on_silence message); cbn.
  - destruct (Info.recorder info) as [r|]; cbn.
    + destruct (recorder_start r) as [r' o]; cbn.
      intros _. cbn. split; congruence.
    + destruct (recorder_factory self) as [r|e]; cbn.
      * destruct (recorder_start r) as [r' o]; cbn.
        intros _. cbn. split; congruence.
      * intros _. cbn. split; congruence.
  - intros _. cbn. split; congruence.
Qed.

Lemma start_listening_service self (message : AsrStartListening) n :
  service_ok self -> service_ok (snd (start_listening self message n)).
Proof.
  intros I.
  destruct I as (I1 & I2 & I3 & I4).
  split; [apply start_listening_registry, I1|].
  split; [apply start_listening_pool, I2|].
  pose proof (stop_existing_service self message n
                (conj I1 (conj I2 (conj I3 I4)))) as (J1 & J2 & J3 & J4).
  unfold start_listening.
  destruct (stop_existing self message n) as [stopped self1].
  cbn [snd] in *. unfold acquire.
  destruct (pop (free_transcribers self1)) as [[rest r]|] eqn:Ep.
  - apply pop_some in Ep.
    assert (Hr : exists info0, heap self1 !! r = Some info0 /\ idle info0).
    { unfold pool_idle in J3. rewrite Ep in J3.
      apply Forall_app in J3 as (_ & J3).
      exact (proj1 (Forall_singleton _ _) J3). }
    destruct Hr as (info0 & L & Id).
    assert (Hn : ~ r ∈ rest).
    { destruct J1 as (_ & N & _). rewrite Ep in N.
      apply NoDup_app in N as (_ & _ & N).
      apply NoDup_app in N as (_ & N & _).
      intros Hin. apply (N r Hin). apply list_elem_of_singleton.
      reflexivity. }
    assert (P : pool_idle (set_free_transcribers rest self1)).
    { unfold pool_idle in *. cbn. rewrite Ep in J3.
      apply Forall_app in J3 as (J3 & _). exact J3. }
    assert (D : deref (set_free_transcribers rest self1) r = info0).
    { unfold deref. cbn. rewrite L. reflexivity. }
    rewrite D.
    pose proof (begin_recording_settled (set_free_transcribers rest self1)
                  message info0) as S.
    destruct Id as (_ & _ & _ & Id1 & Id2 & _).
    specialize (S Id1 Id2).
    destruct (begin_recording _ message _) as [info [e|]]; cbn [fst] in S.
    + split.
      * apply (pool_idle_store (set_free_transcribers rest self1) r info
                 Hn P).
      * cbn. apply Forall_insert; assumption.
    + split.
      * apply (pool_idle_store (set_free_transcribers rest self1) r info
                 Hn P).
      * cbn. apply Forall_insert; assumption.
  - apply pop_nil in Ep.
    set (fresh := Info.set_thread (Some Starting)
                    (Info.new (reuse_transcribers self1))).
    assert (D : deref (set_heap (heap self1 ++ [fresh]) self1)
                  (length (heap self1)) = fresh).
    { unfold deref. cbn. rewrite lookup_app_r by lia.
      rewrite Nat.sub_diag. reflexivity. }
    rewrite D.
    pose proof (begin_recording_settled
                  (set_heap (heap self1 ++ [fresh]) self1) message fresh
                  eq_refl eq_refl) as S.
    destruct (begin_recording _ message _) as [info [e|]]; cbn [fst] in S.
    + split.
      * unfold pool_idle. cbn. rewrite Ep. constructor.
      * cbn. apply Forall_insert; [|exact S].
        apply Forall_app. split; [exact J4|].
        apply Forall_singleton. intros _. cbn. split; discriminate.
    + split.
      * unfold pool_idle. cbn. rewrite Ep. constructor.
      * cbn. apply Forall_insert; [|exact S].
        apply Forall_app. split; [exact J4|].
        apply Forall_singleton. intros _. cbn. split; discriminate.
Qed.

Lemma service_ok_first_audio self b :
  service_ok self -> service_ok (set_first_audio b self).
Proof. intros I. exact I. Qed.

Lemma on_message_blocking_service self (message : incoming) site_id
  session_id n sched :
  service_ok self ->
  service_ok
    (snd (fst (on_message_blocking self message site_id session_id n sched))).
Proof.
  intros I.
  destruct message as [reason|reason|wav|wav|message|message|];
    cbn [on_message_blocking fst snd].
  - destruct (match reason with
              | UNKNOWN => []
              | _ => set_discard reason (disabled_reasons self)
              end); exact I.
  - exact I.
  - destruct (enabled self); [|exact I].
    apply handle_audio_frame_service.
    destruct (first_audio self); [apply service_ok_first_audio|]; exact I.
  - destruct (enabled self); [|exact I].
    destruct (dict_get (sessions self) session_id); [|exact I].
    apply handle_audio_frame_service.
    destruct (first_audio self); [apply service_ok_first_audio|]; exact I.
  - apply start_listening_service, I.
  - apply stop_listening_service, I.
  - exact I.
Qed.

Lemma step_service self (ev : event) :
  service_ok self -> service_ok (snd (step self ev)).
Proof.
  intros I. destruct ev as [message site_id session_id n sched|r].
  - apply on_message_blocking_service, I.
  - destruct I as (I1 & I2 & I3 & I4).
    split; [apply step_registry, I1|].
    split; [apply step_pool, I2|].
    cbn. destruct (heap self !! r) as [info|] eqn:L; cbn; [|auto].
    split.
    + unfold pool_idle in *. apply Forall_forall. intros r' Hr'.
      rewrite Forall_forall in I3. destruct (I3 r' Hr') as (info' & L' & Id).
      exists info'. split; [|exact Id].
      destruct (decide (r = r')) as [<-|Hne].
      * assert (info' = info) as -> by congruence.
        destruct I2 as (_ & I2). rewrite Forall_forall in I2.
        destruct (I2 r Hr') as (info2 & L2 & Past).
        assert (info2 = info) as -> by congruence.
        rewrite (idle_step self info Id Past). cbn.
        apply list_lookup_insert_eq. eapply lookup_lt_Some, L.
      * unfold store. cbn.
        rewrite list_lookup_insert_ne by exact Hne. exact L'.
    + apply Forall_insert; [exact I4|].
      apply transcribe_proc_step_settled.
      exact (Forall_lookup_1 _ _ _ _ I4 L).
Qed.

Lemma run_service evs :
  forall self, service_ok self -> service_ok (snd (run self evs)).
Proof.
  induction evs as [|ev evs IH]; intros self I; cbn; [exact I|].
  pose proof (step_service self ev I) as I1.
  destruct (step self ev) as [results self1].
  specialize (IH self1 I1).
  destruct (run self1 evs) as [more self2]. exact IH.
Qed.

Lemma init_service tf rf cv wv reuse port sr sw ch lg en :
  service_ok (init (T := T) (R := R) tf rf cv wv reuse port sr sw ch lg en).
Proof.
  split; [|split; [apply init_pool|split; constructor]].
  split; [constructor|split; constructor].
Qed.

End ServiceInvariant.

Section ServiceClaims.
Context {T R : Type} `{Transcriber T} `{VoiceCommandRecorder R}.
Implicit Type self : AsrHermesMqtt T R.
Implicit Type info : TranscriberInfo T R.

(** The silence detection or the buffer of a new session leaves the other
    fields of the object alone, and fails only with silence detection. *)
Lemma begin_recording_session self (message : AsrStartListening) info :
  let '(info', ex) := begin_recording self message info in
  Info.start_listening info' = Info.start_listening info /\
  Info.ready_event info' = Info.ready_event info /\
  Info.frame_queue info' = Info.frame_queue info /\
  Info.result info' = Info.result info /\
  Info.result_event info' = Info.result_event info /\
  Info.result_sent info' = Info.result_sent info /\
  (ex <> None -> stop_on_silence message = true).
Proof.
  unfold begin_recording. destruct (stop_on_silence message); cbn.
  - destruct (match Info.recorder info with
              | Some r => Returns r
              | None => recorder_factory self
              end) as [r|e]; cbn.
    + destruct (recorder_start r) as [r' o]; cbn. repeat split; auto.
    + repeat split; auto.
  - repeat split; auto.
Qed.

(** X8. [start_listening] in a state the service reaches. Either the session
    is registered: the messages are those of the stop of an earlier session
    of the same id, the id is bound to an object of the heap that holds the
    start message, has its ready event set and has no frame queued, no
    result, no result event and no message sent, and [first_audio] is set.
    Or the silence detection could not be started: one error message with
    the start message as context follows those of the stop, the id is not
    registered, and the worker taken for the session, which holds the start
    message, is neither in the registry nor back in the pool. *)
Theorem start_listening_registers_fresh_session self
  (message : AsrStartListening) n :
  service_ok self ->
  let stopped := fst (stop_existing self message n) in
  let '(results, self') := start_listening self message n in
  (exists r info,
      results = stopped /\
      dict_get (sessions self') (sl_session_id message) = Some r /\
      heap self' !! r = Some info /\
      fresh_session message info /\
      first_audio self' = true)
  \/ (exists e r info,
      results = stopped ++
        [AsrError (str_exn e) (ReprMessage message)
           (sl_site_id message) (sl_session_id message)] /\
      stop_on_silence message = true /\
      dict_get (sessions self') (sl_session_id message) = None /\
      heap self' !! r = Some info /\
      Info.start_listening info = Some message /\
      ~ In r (session_refs self') /\
      ~ In r (free_transcribers self')).
Proof.
  intros I. cbn zeta.
  pose proof (stop_existing_service self message n I) as (J1 & J2 & J3 & J4).
  pose proof (stop_existing_registry self message n (proj1 I)) as (_ & D).
  unfold start_listening.
  destruct (stop_existing self message n) as [stopped self1].
  cbn [fst snd] in *. unfold acquire.
  destruct (pop (free_transcribers self1)) as [[rest r]|] eqn:Ep.
  - apply pop_some in Ep.
    assert (Hr : exists info0, heap self1 !! r = Some info0 /\ idle info0).
    { unfold pool_idle in J3. rewrite Ep in J3.
      apply Forall_app in J3 as (_ & J3).
      exact (proj1 (Forall_singleton _ _) J3). }
    destruct Hr as (info0 & L & Id).
    destruct J1 as (_ & N & _). rewrite Ep in N.
    apply NoDup_app in N as (_ & N1 & N2).
    apply NoDup_app in N2 as (_ & N2 & _).
    assert (D0 : deref (set_free_transcribers rest self1) r = info0).
    { unfold deref. cbn. rewrite L. reflexivity. }
    rewrite D0.
    pose proof (begin_recording_session (set_free_transcribers rest self1)
                  message
                  (Info.set_ready_event true
                     (Info.set_start_listening (Some message) info0))) as B.
    destruct (begin_recording _ message _) as [info ex].
    cbn in B. destruct B as (B1 & B2 & B3 & B4 & B5 & B6 & B7).
    destruct Id as (_ & Q1 & Q2 & Q3 & Q4 & _).
    assert (Lr : <[r := info]> (heap self1) !! r = Some info).
    { apply list_lookup_insert_eq. eapply lookup_lt_Some, L. }
    destruct ex as [e|]; cbn.
    + right. exists e, r, info.
      split; [reflexivity|]. split; [apply B7; discriminate|].
      split; [exact D|]. split; [exact Lr|]. split; [exact B1|]. split.
      * intros Hin. apply list_elem_of_In in Hin.
        apply (N1 r Hin). apply elem_of_app. right.
        apply list_elem_of_singleton. reflexivity.
      * intros Hin. apply list_elem_of_In in Hin.
        apply (N2 r Hin). apply list_elem_of_singleton. reflexivity.
    + left. exists r, info.
      split; [reflexivity|]. split; [apply dict_get_set_eq|].
      split; [exact Lr|]. split; [|reflexivity].
      unfold fresh_session. repeat split; congruence.
  - apply pop_nil in Ep.
    set (fresh := Info.set_thread (Some Starting)
                    (Info.new (reuse_transcribers self1))).
    assert (D0 : deref (set_heap (heap self1 ++ [fresh]) self1)
                   (length (heap self1)) = fresh).
    { unfold deref. cbn. rewrite lookup_app_r by lia.
      rewrite Nat.sub_diag. reflexivity. }
    rewrite D0.
    pose proof (begin_recording_session
                  (set_heap (heap self1 ++ [fresh]) self1) message
                  (Info.set_ready_event true
                     (Info.set_start_listening (Some message) fresh))) as B.
    destruct (begin_recording _ message _) as [info ex].
    cbn in B. destruct B as (B1 & B2 & B3 & B4 & B5 & B6 & B7).
    assert (Lr : <[length (heap self1) := info]> (heap self1 ++ [fresh])
                   !! length (heap self1) = Some info).
    { apply list_lookup_insert_eq. rewrite length_app. cbn. lia. }
    destruct ex as [e|]; cbn.
    + right. exists e, (length (heap self1)), info.
      split; [reflexivity|]. split; [apply B7; discriminate|].
      split; [exact D|]. split; [exact Lr|]. split; [exact B1|]. split.
      * intros Hin. destruct J1 as (_ & _ & Bd).
        apply Forall_app in Bd as (Bd & _). rewrite Forall_forall in Bd.
        apply list_elem_of_In in Hin. specialize (Bd _ Hin). lia.
      * rewrite Ep. intros [].
    + left. exists (length (heap self1)), info.
      split; [reflexivity|]. split; [apply dict_get_set_eq|].
      split; [exact Lr|]. split; [|reflexivity].
      unfold fresh_session. repeat split; congruence.
Qed.

(** X10. In every state the service reaches from its construction, by
    messages and by steps of the worker threads, a session id is registered
    once, no object is bound to two sessions, none is both bound to a
    session and in the pool, none is in the pool twice, and every reference
    of the registry and the pool points to an object of the heap. *)
Theorem registry_and_pool_do_not_alias tf rf cv wv reuse port sr sw ch lg en
  (evs : list event) :
  registry_ok
    (snd (run (init (T := T) (R := R) tf rf cv wv reuse port sr sw ch lg en)
            evs)).
Proof. apply run_registry. apply init_service. Qed.

(** X11. In every state the service reaches from its construction, every
    worker in the pool is reusable and has a transcriber, its ready event
    and its result event are not set, and it carries no frame, no result, no
    start message and no audio buffer of the session it served; its thread
    does nothing when it is scheduled. *)
Theorem pooled_workers_are_idle tf rf cv wv reuse port sr sw ch lg en
  (evs : list event) :
  let self :=
    snd (run (init (T := T) (R := R) tf rf cv wv reuse port sr sw ch lg en)
           evs) in
  Forall (fun r => exists info,
            heap self !! r = Some info /\ idle info /\
            transcribe_proc_step self info = (info, []))
    (free_transcribers self).
Proof.
  cbn zeta.
  pose proof (run_service evs _
                (init_service tf rf cv wv reuse port sr sw ch lg en))
    as (_ & (_ & I2) & I3 & _).
  apply Forall_forall. intros r Hr.
  unfold pool_idle in I3. rewrite Forall_forall in I2, I3.
  destruct (I3 r Hr) as (info & L & Id).
  destruct (I2 r Hr) as (info2 & L2 & Past).
  assert (info2 = info) as -> by congruence.
  exists info. split; [exact L|]. split; [exact Id|].
  apply idle_step; assumption.
Qed.

End ServiceClaims.

Lemma start_listening_registers_fresh_session_witness :
  exists worker : TranscriberInfo unit bytes,
    heap Demo.second_session_started !! 0%nat = Some worker /\
    fresh_session (Demo.start "kitchen" "s2" false true) worker.
Proof.
  assert (I : service_ok Demo.after_first_session).
  { unfold Demo.after_first_session, Demo.frame, Demo.receive.
    cbn zeta. repeat apply step_service. apply init_service. }
  pose proof (start_listening_registers_fresh_session
                Demo.after_first_session
                (Demo.start "kitchen" "s2" false true) 0%nat I) as S.
  cbn zeta in S.
  change (start_listening Demo.after_first_session
            (Demo.start "kitchen" "s2" false true) 0%nat)
    with (Demo.receive Demo.after_first_session
            (StartListening (Demo.start "kitchen" "s2" false true)) 0%nat)
    in S.
  destruct (Demo.receive Demo.after_first_session
              (StartListening (Demo.start "kitchen" "s2" false true)) 0%nat)
    as [results self'] eqn:E.
  assert (E' : self' = Demo.second_session_started).
  { unfold Demo.second_session_started. rewrite E. reflexivity. }
  rewrite E' in S.
  destruct S as [(r & worker & _ & S1 & S2 & S3 & _)
                |(e & r & worker & _ & S1 & _)]; [|discriminate S1].
  assert (Hr : r = 0%nat).
  { vm_compute in S1. congruence. }
  rewrite Hr in S2. exists worker. split; assumption.
Defined.

(** ** The cache of the base dictionaries *)

Section TrainCache.
Context {F : Type}.
Variable fs : string -> option (Z * F).
Implicit Type read : F -> PronunciationsType -> PronunciationsType * option exn.

(** A dictionary that is up to date is not read. *)
Lemma load_up_to_date_cons read d rest acc :
  up_to_date fs d ->
  load_base_dictionaries read fs (d :: rest) acc =
    let '(rest', acc', ex) :=
      load_base_dictionaries read fs rest
        (if on_disk fs d then extend_all acc (pronunciations d) else acc) in
    (d :: rest', acc', ex).
Proof.
  unfold up_to_date, on_disk. cbn [load_base_dictionaries].
  destruct (fs (path d)) as [[dict_mtime_ns file]|]; [|reflexivity].
  intros E. unfold changed. rewrite E, Z.eqb_refl. reflexivity.
Qed.

Lemma load_up_to_date read dicts :
  Forall (up_to_date fs) dicts ->
  forall acc,
    load_base_dictionaries read fs dicts acc
    = (dicts, merge_cached fs dicts acc, None).
Proof.
  induction 1 as [|d rest U _ IH]; intros acc; [reflexivity|].
  rewrite (load_up_to_date_cons read d rest acc U), IH. reflexivity.
Qed.

(** The dictionary as the loop leaves it after it has read its file,
    whether the reader raised or not, is up to date. *)
Lemma reloaded_up_to_date d dict_mtime_ns file p :
  fs (path d) = Some (dict_mtime_ns, file) ->
  up_to_date fs
    {| path := path d; pronunciations := p;
       mtime_ns := Some dict_mtime_ns |}.
Proof. intros E. unfold up_to_date. cbn. rewrite E. reflexivity. Qed.

Lemma unchanged_up_to_date d dict_mtime_ns file :
  fs (path d) = Some (dict_mtime_ns, file) ->
  changed d dict_mtime_ns = false -> up_to_date fs d.
Proof.
  intros E C. unfold up_to_date. rewrite E. unfold changed in C.
  destruct (mtime_ns d) as [m|]; [|discriminate].
  apply negb_false_iff, Z.eqb_eq in C. congruence.
Qed.

Lemma missing_up_to_date d : fs (path d) = None -> up_to_date fs d.
Proof. intros E. unfold up_to_date. rewrite E. exact I. Qed.

Lemma merge_cached_cons d rest acc :
  merge_cached fs (d :: rest) acc
  = merge_cached fs rest
      (if on_disk fs d then extend_all acc (pronunciations d) else acc).
Proof. reflexivity. Qed.

Lemma on_disk_path d d' : path d' = path d -> on_disk fs d' = on_disk fs d.
Proof. intros E. unfold on_disk. rewrite E. reflexivity. Qed.

Lemma on_disk_Some d dict_mtime_ns file :
  fs (path d) = Some (dict_mtime_ns, file) -> on_disk fs d = true.
Proof. intros E. unfold on_disk. rewrite E. reflexivity. Qed.

Lemma on_disk_None d : fs (path d) = None -> on_disk fs d = false.
Proof. intros E. unfold on_disk. rewrite E. reflexivity. Qed.

(** After a loop without exception every dictionary is up to date, and the
    merge is that of the caches. *)
Lemma load_leaves_up_to_date read dicts :
  forall acc dicts' merged,
    load_base_dictionaries read fs dicts acc = (dicts', merged, None) ->
    Forall (up_to_date fs) dicts' /\ merged = merge_cached fs dicts' acc.
Proof.
  induction dicts as [|d rest IH]; intros acc dicts' merged;
    cbn [load_base_dictionaries].
  - intros [= <- <-]. split; [constructor|reflexivity].
  - destruct (fs (path d)) as [[dict_mtime_ns file]|] eqn:Ef.
    + destruct (changed d dict_mtime_ns) eqn:Ec.
      * destruct (read file (pronunciations d)) as [p [e|]];
          [intros [=]|].
        cbn [pronunciations].
        destruct (load_base_dictionaries read fs rest (extend_all acc p))
          as [[rest' acc'] ex] eqn:El.
        intros [= <- <- ->]. destruct (IH _ _ _ El) as (IH1 & IH2).
        split.
        -- constructor; [eapply reloaded_up_to_date, Ef|exact IH1].
        -- rewrite merge_cached_cons, (on_disk_path d) by reflexivity.
           rewrite (on_disk_Some _ _ _ Ef). exact IH2.
      * destruct (load_base_dictionaries read fs rest
                    (extend_all acc (pronunciations d)))
          as [[rest' acc'] ex] eqn:El.
        intros [= <- <- ->]. destruct (IH _ _ _ El) as (IH1 & IH2).
        split.
        -- constructor; [eapply unchanged_up_to_date; eassumption|exact IH1].
        -- rewrite merge_cached_cons, (on_disk_Some _ _ _ Ef). exact IH2.
    + destruct (load_base_dictionaries read fs rest acc)
        as [[rest' acc'] ex] eqn:El.
      intros [= <- <- ->]. destruct (IH _ _ _ El) as (IH1 & IH2).
      split.
      * constructor; [apply missing_up_to_date, Ef|exact IH1].
      * rewrite merge_cached_cons, (on_disk_None _ Ef). exact IH2.
Qed.

(** X12. A second [handle_train] over files that have not changed reads no
    file: when the loop over the base dictionaries has ended without an
    exception, the loop over the dictionaries as it left them gives, with
    any reader, the same dictionaries and the same merged pronunciations,
    and raises nothing. *)
Theorem second_train_reads_no_file read
  (base_dictionaries : list PronunciationDictionary) :
  let '(dicts', merged, ex) :=
    handle_train_pronunciations read fs true base_dictionaries in
  ex = None ->
  forall read',
    handle_train_pronunciations read' fs true dicts' = (dicts', merged, None).
Proof.
  unfold handle_train_pronunciations.
  destruct (load_base_dictionaries read fs base_dictionaries ∅)
    as [[dicts' merged] ex] eqn:E.
  intros ->. intros read'.
  destruct (load_leaves_up_to_date read _ _ _ _ E) as (U & ->).
  apply load_up_to_date, U.
Qed.

(** X13. A read that raised is not tried again. When the loop over the base
    dictionaries ends with the exception of the reader, the dictionary it
    was reading has the modification time of its file recorded and holds
    what the reader had added before it raised; the dictionaries behind it
    are untouched. A later [handle_train] over the dictionaries up to that
    one, with the files unchanged, reads none of them and raises nothing. *)
Theorem failed_read_is_not_retried read
  (base_dictionaries : list PronunciationDictionary) :
  forall acc dicts' merged e,
    load_base_dictionaries read fs base_dictionaries acc
    = (dicts', merged, Some e) ->
    exists pre d0 d post dict_mtime_ns file,
      base_dictionaries !! length pre = Some d0 /\
      dicts' = pre ++ d :: post /\
      post = drop (S (length pre)) base_dictionaries /\
      fs (path d0) = Some (dict_mtime_ns, file) /\
      read file (pronunciations d0) = (pronunciations d, Some e) /\
      path d = path d0 /\
      mtime_ns d = Some dict_mtime_ns /\
      forall read',
        handle_train_pronunciations read' fs true (pre ++ [d])
        = (pre ++ [d], merge_cached fs (pre ++ [d]) ∅, None).
Proof.
  assert (G : forall dicts acc dicts' merged e,
    load_base_dictionaries read fs dicts acc = (dicts', merged, Some e) ->
    exists pre d0 d post dict_mtime_ns file,
      dicts !! length pre = Some d0 /\
      dicts' = pre ++ d :: post /\
      post = drop (S (length pre)) dicts /\
      fs (path d0) = Some (dict_mtime_ns, file) /\
      read file (pronunciations d0) = (pronunciations d, Some e) /\
      path d = path d0 /\
      mtime_ns d = Some dict_mtime_ns /\
      Forall (up_to_date fs) (pre ++ [d])).
  { induction dicts as [|d1 rest IH]; intros acc dicts' merged e;
      cbn [load_base_dictionaries]; [intros [=]|].
    destruct (fs (path d1)) as [[dict_mtime_ns file]|] eqn:Ef.
    - destruct (changed d1 dict_mtime_ns) eqn:Ec.
      + destruct (read file (pronunciations d1)) as [p [e1|]] eqn:Er.
        * intros [= <- <- <-].
          exists [], d1,
            {| path := path d1; pronunciations := p;
               mtime_ns := Some dict_mtime_ns |}, rest, dict_mtime_ns, file.
          cbn. repeat split; auto.
          constructor; [eapply reloaded_up_to_date, Ef|constructor].
        * cbn [pronunciations].
          destruct (load_base_dictionaries read fs rest (extend_all acc p))
            as [[rest' acc'] ex] eqn:El.
          intros [= <- <- ->].
          destruct (IH _ _ _ _ El)
            as (pre & d0 & d & post & m & f & G1 & G2 & G3 & G4 & G5 & G6
                & G7 & G8).
          exists ({| path := path d1; pronunciations := p;
                     mtime_ns := Some dict_mtime_ns |} :: pre),
            d0, d, post, m, f.
          cbn. rewrite G2. repeat split; auto.
          constructor; [eapply reloaded_up_to_date, Ef|exact G8].
      + destruct (load_base_dictionaries read fs rest
                    (extend_all acc (pronunciations d1)))
          as [[rest' acc'] ex] eqn:El.
        intros [= <- <- ->].
        destruct (IH _ _ _ _ El)
          as (pre & d0 & d & post & m & f & G1 & G2 & G3 & G4 & G5 & G6
              & G7 & G8).
        exists (d1 :: pre), d0, d, post, m, f.
        cbn. rewrite G2. repeat split; auto.
        constructor; [eapply unchanged_up_to_date; eassumption|exact G8].
    - destruct (load_base_dictionaries read fs rest acc)
        as [[rest' acc'] ex] eqn:El.
      intros [= <- <- ->].
      destruct (IH _ _ _ _ El)
        as (pre & d0 & d & post & m & f & G1 & G2 & G3 & G4 & G5 & G6
            & G7 & G8).
      exists (d1 :: pre), d0, d, post, m, f.
      cbn. rewrite G2. repeat split; auto.
      constructor; [apply missing_up_to_date, Ef|exact G8]. }
  intros acc dicts' merged e E.
  destruct (G _ _ _ _ _ E)
    as (pre & d0 & d & post & m & f & G1 & G2 & G3 & G4 & G5 & G6 & G7 & G8).
  exists pre, d0, d, post, m, f. repeat split; auto.
  intros read'. unfold handle_train_pronunciations.
  apply load_up_to_date, G8.
Qed.

End TrainCache.

Lemma second_train_reads_no_file_witness :
  exists dicts' merged,
    handle_train_pronunciations Demo.read_pronunciations Demo.fs true
      Demo.base_dictionaries = (dicts', merged, None) /\
    handle_train_pronunciations strict_reader Demo.fs true dicts'
    = (dicts', merged, None).
Proof.
  generalize (second_train_reads_no_file Demo.fs Demo.read_pronunciations
                Demo.base_dictionaries).
  destruct (handle_train_pronunciations Demo.read_pronunciations Demo.fs
              true Demo.base_dictionaries) as [[dicts' merged] ex] eqn:E.
  assert (Hex : ex = None).
  { vm_compute in E. congruence. }
  intros P. exists dicts', merged. rewrite Hex. split; [reflexivity|].
  apply (P Hex).
Defined.

Lemma failed_read_is_not_retried_witness :
  exists d,
    fst (fst (load_base_dictionaries strict_reader broken_fs
                Demo.base_dictionaries ∅))
    = d :: drop 1 Demo.base_dictionaries /\
    mtime_ns d = Some 7 /\
    handle_train_pronunciations strict_reader broken_fs true [d]
    = ([d], merge_cached broken_fs [d] ∅, None).
Proof.
  destruct (load_base_dictionaries strict_reader broken_fs
              Demo.base_dictionaries ∅) as [[dicts' merged] ex] eqn:E.
  assert (Hex : ex = Some (Error "no phonemes")).
  { vm_compute in E. congruence. }
  rewrite Hex in E.
  destruct (failed_read_is_not_retried broken_fs strict_reader _ _ _ _ _ E)
    as (pre & d0 & d & post & m & f & G1 & G2 & G3 & G4 & G5 & G6 & G7 & G8).
  assert (Hpre : pre = []).
  { destruct pre as [|x pre]; [reflexivity|].
    assert (L : length dicts' = 3%nat).
    { vm_compute in E. injection E as <- _. reflexivity. }
    exfalso. cbn in G1.
    destruct pre as [|y pre]; cbn in G1.
    - injection G1 as <-. vm_compute in G4. discriminate G4.
    - destruct pre as [|z pre]; cbn in G1.
      + injection G1 as <-. vm_compute in G4. discriminate G4.
      + discriminate G1. }
  rewrite Hpre in *. cbn in G1, G2, G3, G8.
  injection G1 as <-.
  assert (Hm : m = 7).
  { vm_compute in G4. congruence. }
  exists d. cbn [fst]. rewrite G2, G3, G7, Hm.
  split; [reflexivity|]. split; [reflexivity|]. apply G8.
Defined.

(** ** Pronunciations looked up and guessed *)

Section PronounceFacts.
Context {F G : Type}.
Variable read_pronunciations :
  F -> PronunciationsType -> PronunciationsType * option exn.
Variable files : string -> option F.
Variable dictionary_word_transform : option (string -> string).
Variable g2p_model : option G.
Variable guess_pronunciations :
  gset string -> G -> Z -> outcome (list (string * list string)).
Variable context : string.

Abbreviation transformed := (transform_word dictionary_word_transform).
Abbreviation asked := (requested dictionary_word_transform).
Abbreviation look_up := (lookup_word dictionary_word_transform).
Abbreviation look_up_all := (lookup_words dictionary_word_transform).

Lemma lookup_word_step (word_dict : PronunciationsType) res0 miss0 x :
  look_up word_dict (res0, miss0) x =
    match word_dict !! transformed x with
    | Some (p :: ps) =>
        (<[transformed x := map dictionary_pronunciation (p :: ps)]> res0,
         miss0)
    | _ => (res0, {[transformed x]} ∪ miss0)
    end.
Proof. reflexivity. Qed.

(** The loop over the words: a word asked for that has pronunciations gets
    them, one that has none is missing. *)
Lemma lookup_word_fold (word_dict : PronunciationsType) (words : list string) :
  forall res0 miss0 w,
    let '(res, miss) := fold_left (look_up word_dict) words (res0, miss0) in
    res !! w =
      (if asked words w then
         match prons word_dict w with
         | [] => res0 !! w
         | p :: ps => Some (map dictionary_pronunciation (p :: ps))
         end
       else res0 !! w) /\
    (w ∈ miss <->
     w ∈ miss0 \/ (asked words w = true /\ prons word_dict w = [])).
Proof.
  induction words as [|x words IH]; intros res0 miss0 w; cbn [fold_left].
  - cbn. split; [reflexivity|]. split; [auto|]. intros [Hm|[Hf _]]; auto.
    discriminate.
  - rewrite lookup_word_step. cbn [requested existsb].
    destruct (word_dict !! transformed x) as [[|p ps]|] eqn:Ex.
    + specialize (IH res0 ({[transformed x]} ∪ miss0) w).
      destruct (fold_left (look_up word_dict) words
                  (res0, {[transformed x]} ∪ miss0)) as [res miss].
      destruct IH as (IH1 & IH2).
      fold (asked words w) in *.
      destruct (String.eqb_spec (transformed x) w) as [E|E]; cbn [orb].
      * assert (P : prons word_dict w = []).
        { unfold prons. rewrite <- E, Ex. reflexivity. }
        rewrite IH1, P. split; [destruct (asked words w); reflexivity|].
        rewrite IH2, elem_of_union, elem_of_singleton. split; [|auto].
        intros _. right. auto.
      * split; [exact IH1|].
        rewrite IH2, elem_of_union, elem_of_singleton. split.
        -- intros [[Hw|Hm]|Hr]; auto. congruence.
        -- intros [Hm|Hr]; auto.
    + specialize (IH (<[transformed x :=
                         map dictionary_pronunciation (p :: ps)]> res0)
                    miss0 w).
      destruct (fold_left (look_up word_dict) words
                  (<[transformed x :=
                       map dictionary_pronunciation (p :: ps)]> res0, miss0))
        as [res miss].
      destruct IH as (IH1 & IH2).
      fold (asked words w) in *.
      destruct (String.eqb_spec (transformed x) w) as [E|E]; cbn [orb].
      * subst w.
        assert (P : prons word_dict (transformed x) = p :: ps).
        { unfold prons. rewrite Ex. reflexivity. }
        rewrite IH1, P, lookup_insert_eq. split.
        -- destruct (asked words (transformed x)); reflexivity.
        -- rewrite IH2, P. split; intros [Hm|[_ Hp]]; auto; discriminate.
      * rewrite lookup_insert_ne in IH1 by exact E. split; assumption.
    + specialize (IH res0 ({[transformed x]} ∪ miss0) w).
      destruct (fold_left (look_up word_dict) words
                  (res0, {[transformed x]} ∪ miss0)) as [res miss].
      destruct IH as (IH1 & IH2).
      fold (asked words w) in *.
      destruct (String.eqb_spec (transformed x) w) as [E|E]; cbn [orb].
      * assert (P : prons word_dict w = []).
        { unfold prons. rewrite <- E, Ex. reflexivity. }
        rewrite IH1, P. split; [destruct (asked words w); reflexivity|].
        rewrite IH2, elem_of_union, elem_of_singleton. split; [|auto].
        intros _. right. auto.
      * split; [exact IH1|].
        rewrite IH2, elem_of_union, elem_of_singleton. split.
        -- intros [[Hw|Hm]|Hr]; auto. congruence.
        -- intros [Hm|Hr]; auto.
Qed.

(** The result of the look-up, for every dict. *)
Lemma lookup_words_result (word_dict : PronunciationsType)
  (words : list string) (w : string) :
  default [] (fst (look_up_all word_dict words) !! w) =
    (if asked words w
     then map dictionary_pronunciation (prons word_dict w) else []) /\
  fst (look_up_all word_dict words) !! w <> Some [].
Proof.
  unfold lookup_words.
  destruct (bool_decide (word_dict = ∅)) eqn:Ee.
  - apply bool_decide_eq_true in Ee. subst word_dict. cbn [fst].
    rewrite lookup_empty. unfold prons. rewrite lookup_empty. cbn.
    split; [destruct (asked words w); reflexivity|discriminate].
  - pose proof (lookup_word_fold word_dict words ∅ ∅ w) as L.
    destruct (fold_left (look_up word_dict) words (∅, ∅)) as [res miss].
    destruct L as (L1 & _). cbn [fst]. rewrite L1, lookup_empty.
    destruct (asked words w); [|split; [reflexivity|discriminate]].
    destruct (prons word_dict w) as [|p ps];
      split; [reflexivity|discriminate|reflexivity|discriminate].
Qed.

(** The loop over the guesses appends to what is there. *)
Lemma add_guess_fold (guesses : list (string * list string)) :
  forall res0 w,
    res0 !! w <> Some [] ->
    default [] (fold_left add_guess guesses res0 !! w) =
      default [] (res0 !! w) ++
      map guessed_pronunciation (guesses_for w guesses) /\
    fold_left add_guess guesses res0 !! w <> Some [].
Proof.
  induction guesses as [|[gw gp] guesses IH]; intros res0 w Hn;
    cbn [fold_left].
  - cbn. rewrite app_nil_r. auto.
  - unfold guesses_for. cbn [List.filter fst].
    fold (guesses_for w guesses).
    assert (Hn1 : add_guess res0 (gw, gp) !! w <> Some []).
    { unfold add_guess.
      destruct (decide (gw = w)) as [<-|E].
      - rewrite lookup_insert_eq. intros [= E].
        apply app_eq_nil in E as (_ & E). discriminate E.
      - rewrite lookup_insert_ne by exact E. exact Hn. }
    destruct (IH (add_guess res0 (gw, gp)) w Hn1) as (IH1 & IH2).
    split; [|exact IH2]. rewrite IH1.
    destruct (String.eqb_spec gw w) as [E|E].
    + subst gw. unfold add_guess. rewrite lookup_insert_eq.
      unfold guesses_for.
      destruct (res0 !! w) as [[|y l]|]; cbn; try reflexivity.
      rewrite <- app_assoc. reflexivity.
    + unfold add_guess. rewrite lookup_insert_ne by exact E. reflexivity.
Qed.

(** X14. The result of [handle_pronounce], word by word: the entry of a
    word is made of the pronunciations the base dictionaries have for it,
    not marked as guessed and only when the word, after the transformation,
    was asked for, followed by the guesses the guesser returned for it, in
    their order and marked as guessed. No entry is empty: a word with
    neither has no entry. The message carries the id, the site and the
    session of the request. *)
Theorem dictionary_pronunciations_before_guesses
  (base_dictionaries : list PronunciationDictionary)
  (pronounce : G2pPronounce) word_phonemes id site_id session_id :
  handle_pronounce read_pronunciations files dictionary_word_transform
    g2p_model guess_pronunciations context base_dictionaries pronounce
  = G2pPhonemes word_phonemes id site_id session_id ->
  (id, site_id, session_id)
  = (pr_id pronounce, pr_site_id pronounce, pr_session_id pronounce) /\
  forall w,
    default [] (word_phonemes !! w) =
      (if asked (pr_words pronounce) w
       then map dictionary_pronunciation
              (prons (fst (pronounce_load read_pronunciations files
                             base_dictionaries ∅)) w)
       else []) ++
      map guessed_pronunciation
        (guesses_for w
           (guesses_of read_pronunciations files dictionary_word_transform
              g2p_model guess_pronunciations base_dictionaries pronounce)) /\
    word_phonemes !! w <> Some [].
Proof.
  unfold handle_pronounce, guesses_of.
  destruct (pronounce_load read_pronunciations files base_dictionaries ∅)
    as [word_dict [e|]]; [discriminate|].
  cbn [fst].
  pose proof (lookup_words_result word_dict (pr_words pronounce)) as L.
  destruct (look_up_all word_dict (pr_words pronounce))
    as [res missing_words].
  cbn [fst snd] in *.
  assert (Plain : forall w,
    default [] (res !! w) =
      (if asked (pr_words pronounce) w
       then map dictionary_pronunciation (prons word_dict w) else []) ++
      map guessed_pronunciation (guesses_for w []) /\
    res !! w <> Some []).
  { intros w. destruct (L w) as (L1 & L2). cbn. rewrite app_nil_r. auto. }
  destruct (bool_decide (missing_words = ∅)).
  { intros [= <- <- <- <-]. split; [reflexivity|exact Plain]. }
  destruct g2p_model as [model|].
  - destruct (guess_pronunciations missing_words model
                (pr_num_guesses pronounce)) as [guesses|e]; [|discriminate].
    intros [= <- <- <- <-]. split; [reflexivity|]. intros w.
    destruct (L w) as (L1 & L2).
    destruct (add_guess_fold guesses res w L2) as (A1 & A2).
    rewrite A1, L1. auto.
  - intros [= <- <- <- <-]. split; [reflexivity|exact Plain].
Qed.

(** X15. The words [handle_pronounce] hands to the guesser. When the base
    dictionaries have no entry at all, these are the words asked for, as
    they are; otherwise they are the transformed words asked for that have
    no pronunciation in the dictionaries. In both cases a word handed to
    the guesser has no entry from the dictionaries. *)
Theorem missing_words_of_lookup (word_dict : PronunciationsType)
  (words : list string) (w : string) :
  (w ∈ snd (look_up_all word_dict words) <->
   if bool_decide (word_dict = ∅) then In w words
   else asked words w = true /\ prons word_dict w = []) /\
  (w ∈ snd (look_up_all word_dict words) ->
   fst (look_up_all word_dict words) !! w = None).
Proof.
  unfold lookup_words.
  destruct (bool_decide (word_dict = ∅)) eqn:Ee.
  - cbn [fst snd]. rewrite elem_of_list_to_set, list_elem_of_In.
    split; [reflexivity|]. intros _. apply lookup_empty.
  - pose proof (lookup_word_fold word_dict words ∅ ∅ w) as L.
    destruct (fold_left (look_up word_dict) words (∅, ∅)) as [res miss].
    destruct L as (L1 & L2). cbn [fst snd]. split.
    + rewrite L2. split; [|auto]. intros [Hm|Hr]; [|exact Hr].
      apply elem_of_empty in Hm. contradiction.
    + intros Hm. apply L2 in Hm as [Hm|(Hr & Hp)].
      * apply elem_of_empty in Hm. contradiction.
      * rewrite L1, Hr, Hp. apply lookup_empty.
Qed.

End PronounceFacts.

Lemma dictionary_pronunciations_before_guesses_witness :
  exists word_phonemes,
    handle_pronounce Demo.read_pronunciations demo_files None (Some tt)
      demo_guesser "model" Demo.base_dictionaries demo_pronounce
    = G2pPhonemes word_phonemes None "kitchen" None /\
    default [] (word_phonemes !! "cat")
    = [dictionary_pronunciation ["k"; "ae"; "t"];
       dictionary_pronunciation ["k"; "a"; "t"]] /\
    default [] (word_phonemes !! "bird")
    = [guessed_pronunciation ["bird"]].
Proof.
  destruct (handle_pronounce Demo.read_pronunciations demo_files None
              (Some tt) demo_guesser "model" Demo.base_dictionaries
              demo_pronounce) as [wp i s ss|err c s ss] eqn:E;
    [|vm_compute in E; discriminate E].
  pose proof (dictionary_pronunciations_before_guesses
                Demo.read_pronunciations demo_files None (Some tt)
                demo_guesser "model" Demo.base_dictionaries demo_pronounce
                wp i s ss E) as (P1 & P2).
  injection P1 as -> -> ->. exists wp. split; [reflexivity|]. split.
  - rewrite (proj1 (P2 "cat")). vm_compute. reflexivity.
  - rewrite (proj1 (P2 "bird")). vm_compute. reflexivity.
Defined.
